(** * printCNC: a shallow embedding of GCode.py

    The conversion engine of printCNC turns slicer output for a 3D printer
    into milling motion.  This file embeds the classes of [GCode.py] as
    pure functions over explicit state, with Python's exceptions as an
    error result, and proves properties of the embedding. *)

From Stdlib Require Import ZArith List String Ascii Bool Lia Sorted.
From Stdlib Require Import SpecFloat DecimalString DecimalPos.
Import ListNotations.
Open Scope string_scope.
Open Scope Z_scope.

(** ** Python values held by a parameter

    [_getNum] yields an [int], a [float] or, when neither parses, the
    original [str].  Integers are unbounded; floats are binary64, here
    the IEEE 754 values of [SpecFloat] at precision 53 and maximal
    exponent 1024, whose operations round to nearest, ties to even. *)

Definition float : Type := spec_float.

Inductive value : Type :=
| VInt (z : Z)
| VFloat (f : float)
| VStr (s : string).

Definition is_str (v : value) : bool :=
  match v with VStr _ => true | _ => false end.

(** ** Exceptions the embedded code can raise *)

Inductive exn : Type :=
| KeyError (key : string)          (* d[k] with k absent *)
| IndexError                       (* list index or pop out of range *)
| TypeError                        (* an operator applied to None or str *)
| ZeroDivisionError
| OverflowError                    (* int too large to convert to float *)
| MinEmptySequence                 (* ValueError raised by min([]) *)
| CouldNotDetectTypes.             (* raise ValueError("Could not detect types") *)

(** The outcome of a call: a value, an exception, or a loop of the model
    that ran out of fuel before the Python loop ended. *)
Inductive res (A : Type) : Type :=
| Ok (a : A)
| Raise (e : exn)
| OutOfFuel.
Arguments Ok {A} a.
Arguments Raise {A} e.
Arguments OutOfFuel {A}.

Definition bind {A B : Type} (m : res A) (k : A -> res B) : res B :=
  match m with Ok a => k a | Raise e => Raise e | OutOfFuel => OutOfFuel end.

Notation "x <- m ;; k" := (bind m (fun x => k))
  (at level 61, m at next level, right associativity).

(** The only exception the source raises with a [raise] statement of its
    own; every other one comes from a builtin or an operator. *)
Definition raised_explicitly (e : exn) : bool :=
  match e with CouldNotDetectTypes => true | _ => false end.

(** ** Strings

    A character of the model is a code point below 256: the text of the
    development is Python text over these code points, and the string
    functions below are the builtins on such text. *)

(** [needle in s] *)
Fixpoint str_in (needle s : string) : bool :=
  String.prefix needle s ||
  match s with
  | EmptyString => false
  | String _ s' => str_in needle s'
  end.

Fixpoint str_drop (n : nat) (s : string) : string :=
  match n, s with
  | O, _ => s
  | S n', String _ s' => str_drop n' s'
  | S _, EmptyString => EmptyString
  end.

(** [s.removeprefix(p)] *)
Definition removeprefix (p s : string) : string :=
  if String.prefix p s then str_drop (String.length p) s else s.

(** The lowercase of one character: A to Z, and the capital letters
    from 192 to 222 but for the sign at 215, are 32 below their lowercase. *)
Definition lower_char (c : ascii) : ascii :=
  let n := nat_of_ascii c in
  if ((Nat.leb 65 n && Nat.leb n 90)
      || (Nat.leb 192 n && Nat.leb n 222 && negb (Nat.eqb n 215)))%bool
  then ascii_of_nat (n + 32) else c.

(** [s.lower()] *)
Fixpoint lower (s : string) : string :=
  match s with
  | EmptyString => EmptyString
  | String c s' => String (lower_char c) (lower s')
  end.

(** ** Dictionaries with insertion order

    A Python [dict] keeps its keys in insertion order; assigning to a
    present key keeps the key's position. *)

Section Dict.
Context {K V : Type} (eqb : K -> K -> bool).

Fixpoint dict_get (d : list (K * V)) (k : K) : option V :=
  match d with
  | [] => None
  | (k', v) :: d' => if eqb k k' then Some v else dict_get d' k
  end.

Definition dict_mem (d : list (K * V)) (k : K) : bool :=
  match dict_get d k with Some _ => true | None => false end.

Fixpoint dict_set (d : list (K * V)) (k : K) (v : V) : list (K * V) :=
  match d with
  | [] => [(k, v)]
  | (k', v') :: d' =>
      if eqb k k' then (k', v) :: d' else (k', v') :: dict_set d' k v
  end.

Fixpoint dict_del (d : list (K * V)) (k : K) : list (K * V) :=
  match d with
  | [] => []
  | (k', v') :: d' => if eqb k k' then d' else (k', v') :: dict_del d' k
  end.
End Dict.

(** ** GCodeCommand *)

Record GCodeCommand : Type := mkCommand {
  verb : string;
  parameters : list (string * value);
  comment : string
}.

Definition param_get (c : GCodeCommand) (k : string) : option value :=
  dict_get String.eqb (parameters c) k.

(** [k in command.parameters] *)
Definition has_param (c : GCodeCommand) (k : string) : bool :=
  dict_mem String.eqb (parameters c) k.

(** [command.parameters[k] = v] *)
Definition set_param (c : GCodeCommand) (k : string) (v : value) : GCodeCommand :=
  mkCommand (verb c) (dict_set String.eqb (parameters c) k v) (comment c).

(** [del command.parameters[k]] *)
Definition del_param (c : GCodeCommand) (k : string) : GCodeCommand :=
  mkCommand (verb c) (dict_del String.eqb (parameters c) k) (comment c).

(** [command.parameters[k]] *)
Definition param_lookup (c : GCodeCommand) (k : string) : res value :=
  match param_get c k with
  | Some v => Ok v
  | None => Raise (KeyError k)
  end.

Definition isACommand (c : GCodeCommand) : bool :=
  negb (String.eqb (verb c) "").

(** ** Lists addressed the way Python addresses them *)

(** [enumerate(l)], counting from [i] *)
Fixpoint enumerate_from {A : Type} (i : Z) (l : list A) : list (Z * A) :=
  match l with
  | [] => []
  | x :: l' => (i, x) :: enumerate_from (i + 1) l'
  end.

Definition enumerate {A : Type} (l : list A) : list (Z * A) :=
  enumerate_from 0 l.

Definition len {A : Type} (l : list A) : Z := Z.of_nat (List.length l).

(** [l[i]]: a negative index counts from the end. *)
Definition py_index {A : Type} (l : list A) (i : Z) : res A :=
  let j := if i <? 0 then i + len l else i in
  if (j <? 0) || (len l <=? j) then Raise IndexError
  else match nth_error l (Z.to_nat j) with
       | Some x => Ok x
       | None => Raise IndexError
       end.

(** The list without its element at position [n]. *)
Fixpoint remove_at {A : Type} (n : nat) (l : list A) : list A :=
  match n, l with
  | _, [] => []
  | O, _ :: l' => l'
  | S n', x :: l' => x :: remove_at n' l'
  end.

(** [l.pop(i)], keeping the list only. *)
Definition py_pop {A : Type} (l : list A) (i : Z) : res (list A) :=
  let j := if i <? 0 then i + len l else i in
  if (j <? 0) || (len l <=? j) then Raise IndexError
  else Ok (remove_at (Z.to_nat j) l).

(** [l.insert(i, x)] for [0 <= i]; past the end it appends. *)
Fixpoint insert_at {A : Type} (n : nat) (x : A) (l : list A) : list A :=
  match n, l with
  | O, _ => x :: l
  | S n', y :: l' => y :: insert_at n' x l'
  | S _, [] => [x]
  end.

(** [l[n] = x] for [0 <= n < len(l)] *)
Fixpoint replace_at {A : Type} (n : nat) (x : A) (l : list A) : list A :=
  match n, l with
  | _, [] => []
  | O, _ :: l' => x :: l'
  | S n', y :: l' => y :: replace_at n' x l'
  end.

(** ** The scripts

    One record stands for an instance of
    [GCodeScriptCNCFromGCodeScriptPrinter], which inherits the fields of
    [GCodeScript], [GCodeScriptCNC] and [GCodeScriptPrinter]. *)

Record script : Type := mkScript {
  lines : list GCodeCommand;
  prefixGcode : list GCodeCommand;
  suffixGcode : list GCodeCommand;
  typeIndicies : list (Z * string);
  layerIndicies : list Z;
  clearance : value;
  travelSpeed : value;
  feedSpeed : value;
  spindleSpeed : value
}.

Definition with_lines (s : script) (l : list GCodeCommand) : script :=
  mkScript l (prefixGcode s) (suffixGcode s) (typeIndicies s) (layerIndicies s)
           (clearance s) (travelSpeed s) (feedSpeed s) (spindleSpeed s).

Definition with_prefixGcode (s : script) (l : list GCodeCommand) : script :=
  mkScript (lines s) l (suffixGcode s) (typeIndicies s) (layerIndicies s)
           (clearance s) (travelSpeed s) (feedSpeed s) (spindleSpeed s).

Definition with_suffixGcode (s : script) (l : list GCodeCommand) : script :=
  mkScript (lines s) (prefixGcode s) l (typeIndicies s) (layerIndicies s)
           (clearance s) (travelSpeed s) (feedSpeed s) (spindleSpeed s).

Definition with_typeIndicies (s : script) (t : list (Z * string)) : script :=
  mkScript (lines s) (prefixGcode s) (suffixGcode s) t (layerIndicies s)
           (clearance s) (travelSpeed s) (feedSpeed s) (spindleSpeed s).

Definition with_layerIndicies (s : script) (t : list Z) : script :=
  mkScript (lines s) (prefixGcode s) (suffixGcode s) (typeIndicies s) t
           (clearance s) (travelSpeed s) (feedSpeed s) (spindleSpeed s).

(** ** GCodeScriptPrinter *)

(** The body of the loop of [computeTypeChanges]. *)
Definition type_step (t : list (Z * string)) (ic : Z * GCodeCommand)
  : list (Z * string) :=
  let '(index, command) := ic in
  if str_in "TYPE:" (comment command)
  then dict_set Z.eqb t index (removeprefix "TYPE:" (comment command))
  else t.

Definition type_changes (ls : list GCodeCommand) : list (Z * string) :=
  fold_left type_step (enumerate ls) [(0, "None")].

Definition computeTypeChanges (s : script) : script :=
  with_typeIndicies s (type_changes (lines s)).

(** The loop of [getType] over [list(self.typeIndicies.items())[::-1]],
    for a table that [computeTypeChanges] has stored.  Before the first
    call of [computeTypeChanges] the field holds the empty list of the
    class, which has no [items]; the development calls [getType] with a
    stored table only. *)
Fixpoint getType_scan (items : list (Z * string)) (commandIndex : Z) : res string :=
  match items with
  | [] => Raise CouldNotDetectTypes
  | (key, v) :: rest =>
      if key <=? commandIndex then Ok v else getType_scan rest commandIndex
  end.

Definition getType (s : script) (commandIndex : Z) (recompute : bool)
  : res (string * script) :=
  let s1 := if recompute then computeTypeChanges s else s in
  v <- getType_scan (rev (typeIndicies s1)) commandIndex ;;
  Ok (v, s1).

Fixpoint any_comment_has (needle : string) (ls : list GCodeCommand) : bool :=
  match ls with
  | [] => false
  | c :: ls' => str_in needle (comment c) || any_comment_has needle ls'
  end.

Definition getSlicingEngine (s : script) : res string :=
  c0 <- py_index (lines s) 0 ;;
  if str_in "PrusaSlicer" (comment c0) then Ok "PrusaSlicer"
  else if any_comment_has "Cura" (lines s) then Ok "Cura"
  else Ok "Other".

Definition is_layer_marker (c : GCodeCommand) : bool :=
  str_in "LAYER" (comment c) && negb (str_in "BEFORE" (comment c))
  && negb (str_in "AFTER" (comment c)).

Fixpoint layer_markers (ics : list (Z * GCodeCommand)) : list Z :=
  match ics with
  | [] => []
  | (index, command) :: rest =>
      if is_layer_marker command then index :: layer_markers rest
      else layer_markers rest
  end.

Definition computeLayerIndices (s : script) : res script :=
  let found := layer_markers (enumerate (lines s)) in
  engine <- getSlicingEngine s ;;
  found' <- (if String.eqb engine "Cura" then py_pop found 1 else Ok found) ;;
  Ok (with_layerIndicies s found').

(** The loop of [getLayer]: [index] runs from [len - 1] down to [0];
    [rev_ixs] is the table reversed and [n] its length. *)
Fixpoint getLayer_scan (rev_ixs : list Z) (n : nat) (commandIndex : Z) : option Z :=
  match rev_ixs, n with
  | x :: rest, S n' =>
      if x <=? commandIndex then Some (Z.of_nat n')
      else getLayer_scan rest n' commandIndex
  | _, _ => None
  end.

Definition getLayer (s : script) (commandIndex : Z) (recompute : bool)
  : res (option Z * script) :=
  s1 <- (if recompute then computeLayerIndices s else Ok s) ;;
  Ok (getLayer_scan (rev (layerIndicies s1)) (List.length (layerIndicies s1)) commandIndex, s1).

(** ** Arithmetic on parameter values *)

Definition prec : Z := 53.
Definition emax : Z := 1024.

(** [float(z)]: the nearest binary64, or [OverflowError]. *)
Definition float_of_Z (z : Z) : res float :=
  match binary_normalize prec emax z 0 false with
  | S754_infinity _ => Raise OverflowError
  | f => Ok f
  end.

(** Python compares an [int] with a [float] exactly. *)
Definition Z_compare_float (z : Z) (f : float) : option comparison :=
  match f with
  | S754_nan => None
  | S754_zero _ => Some (z ?= 0)
  | S754_infinity sg => Some (if sg then Gt else Lt)
  | S754_finite sg m e =>
      let mz := cond_Zopp sg (Zpos m) in
      Some (if 0 <=? e then z ?= mz * 2 ^ e else z * 2 ^ (- e) ?= mz)
  end.

(** [a < b] *)
Definition py_lt (a b : value) : res bool :=
  match a, b with
  | VInt x, VInt y => Ok (x <? y)
  | VFloat x, VFloat y => Ok (SFltb x y)
  | VInt x, VFloat y =>
      Ok (match Z_compare_float x y with Some Lt => true | _ => false end)
  | VFloat x, VInt y =>
      Ok (match Z_compare_float y x with Some Gt => true | _ => false end)
  | _, _ => Raise TypeError
  end.

(** [a - b] *)
Definition py_sub (a b : value) : res value :=
  match a, b with
  | VInt x, VInt y => Ok (VInt (x - y))
  | VFloat x, VFloat y => Ok (VFloat (SFsub prec emax x y))
  | VInt x, VFloat y => fx <- float_of_Z x ;; Ok (VFloat (SFsub prec emax fx y))
  | VFloat x, VInt y => fy <- float_of_Z y ;; Ok (VFloat (SFsub prec emax x fy))
  | _, _ => Raise TypeError
  end.

(** [-1 * v]; a [str] times a negative [int] is the empty [str]. *)
Definition py_neg1_mul (v : value) : value :=
  match v with
  | VInt z => VInt (-1 * z)
  | VFloat f => VFloat (SFmul prec emax (binary_normalize prec emax (-1) 0 false) f)
  | VStr _ => VStr ""
  end.

(** The loop of [min(l)] after its first element: the first least one wins. *)
Fixpoint min_loop (cur : value) (l : list value) : res value :=
  match l with
  | [] => Ok cur
  | x :: l' => b <- py_lt x cur ;; min_loop (if b then x else cur) l'
  end.

Definition py_min (l : list value) : res value :=
  match l with
  | [] => Raise MinEmptySequence
  | x :: l' => min_loop x l'
  end.

(** ** GCodeScript.orient *)

(** [[command.parameters[k] for command in self.lines if k in command.parameters.keys()]] *)
Fixpoint axis_args (k : string) (ls : list GCodeCommand) : list value :=
  match ls with
  | [] => []
  | c :: ls' =>
      match param_get c k with
      | Some v => v :: axis_args k ls'
      | None => axis_args k ls'
      end
  end.

Definition not_str (l : list value) : list value :=
  filter (fun v => negb (is_str v)) l.

(** [if k in keys: if type(parameters[k]) != str: parameters[k] -= m] *)
Definition translate_axis (k : string) (m : value) (c : GCodeCommand)
  : res GCodeCommand :=
  match param_get c k with
  | Some v =>
      if is_str v then Ok c
      else v' <- py_sub v m ;; Ok (set_param c k v')
  | None => Ok c
  end.

Fixpoint translate_all (minx miny : value) (ls : list GCodeCommand)
  : res (list GCodeCommand) :=
  match ls with
  | [] => Ok []
  | c :: ls' =>
      c1 <- translate_axis "X" minx c ;;
      c2 <- translate_axis "Y" miny c1 ;;
      rest <- translate_all minx miny ls' ;;
      Ok (c2 :: rest)
  end.

Definition orient_lines (ls : list GCodeCommand) : res (list GCodeCommand) :=
  let xArgs := axis_args "X" ls in
  let yArgs := axis_args "Y" ls in
  minx <- py_min (not_str xArgs) ;;
  miny <- py_min (not_str yArgs) ;;
  translate_all minx miny ls.

Definition orient (s : script) : res script :=
  ls <- orient_lines (lines s) ;; Ok (with_lines s ls).

(** ** GCodeScript.shrink

    A [for] loop over a list reads position [i] of the list as it is at
    that moment and stops once [i] reaches its length.  The commands of
    the list are distinct objects that no other list holds, as in a
    script that has been loaded or converted, so [lines.remove(command)]
    removes the position the loop is at and [command.comment = ''] shows
    in this list only.  Lists that share commands, as the prefix and the
    body do after [export], are the matter of [shrink_objects] further
    down. *)

Definition clear_comment (c : GCodeCommand) : GCodeCommand :=
  mkCommand (verb c) (parameters c) "".

Fixpoint clean_loop (fuel i : nat) (ls : list GCodeCommand)
  : res (list GCodeCommand) :=
  match fuel with
  | O => OutOfFuel
  | S fuel' =>
      match nth_error ls i with
      | None => Ok ls
      | Some command =>
          if isACommand command
          then clean_loop fuel' (S i) (replace_at i (clear_comment command) ls)
          else clean_loop fuel' (S i) (remove_at i ls)
      end
  end.

Definition _cleanCommandsFromList (ls : list GCodeCommand)
  : res (list GCodeCommand) :=
  clean_loop (S (List.length ls)) 0 ls.

(** [GCodeScript.shrink] *)
Definition shrink_base (s : script) : res script :=
  ls <- _cleanCommandsFromList (lines s) ;; Ok (with_lines s ls).

(** [GCodeScriptCNC.shrink] *)
Definition shrink (s : script) : res script :=
  s1 <- shrink_base s ;;
  p <- _cleanCommandsFromList (prefixGcode s1) ;;
  q <- _cleanCommandsFromList (suffixGcode s1) ;;
  Ok (with_suffixGcode (with_prefixGcode s1 p) q).

(** ** getCommandRelativeToIndex *)

Fixpoint rel_loop (fuel : nat) (ls : list GCodeCommand)
         (index iteration currentOffset offset : Z) : res Z :=
  match fuel with
  | O => OutOfFuel
  | S fuel' =>
      if currentOffset =? offset then Ok index
      else
        let index' := index + iteration in
        c <- py_index ls index' ;;
        rel_loop fuel' ls index' iteration
                 (if isACommand c then currentOffset + iteration else currentOffset)
                 offset
  end.

(** Returns the index the loop stopped at together with [self.lines[index]]. *)
Definition getCommandRelativeToIndex (ls : list GCodeCommand) (index offset : Z)
  : res (Z * GCodeCommand) :=
  if offset =? 0 then Raise ZeroDivisionError
  else
    let iteration := offset / Z.abs offset in
    j <- rel_loop (2 * List.length ls + 2) ls index iteration 0 offset ;;
    c <- py_index ls j ;;
    Ok (j, c).

(** The position in the list a valid Python index stands for. *)
Definition position {A : Type} (l : list A) (i : Z) : nat :=
  Z.to_nat (if i <? 0 then i + len l else i).

(** [l[i] = x] *)
Definition py_setitem {A : Type} (l : list A) (i : Z) (x : A) : res (list A) :=
  let j := if i <? 0 then i + len l else i in
  if (j <? 0) || (len l <=? j) then Raise IndexError
  else Ok (replace_at (Z.to_nat j) x l).

(** ** GCodeScriptCNCFromGCodeScriptPrinter.convert *)

Definition USABLE_COMMANDS : list string := ["G1"; "G0"].

Definition _isPrinterSpecificCommand (c : GCodeCommand) : bool :=
  negb (existsb (String.eqb (verb c)) USABLE_COMMANDS).

(** Remove printer-specific parameters. *)
Definition strip_EF (c : GCodeCommand) : GCodeCommand :=
  let c1 := if has_param c "E" then del_param c "E" else c in
  if has_param c1 "F" then del_param c1 "F" else c1.

(** Mirror the Z axis. *)
Definition mirror_Z (c : GCodeCommand) : GCodeCommand :=
  match param_get c "Z" with
  | Some z => set_param c "Z" (py_neg1_mul z)
  | None => c
  end.

(** One pass of the [for] loop that removes multi-line travels; the
    boolean is [altered]. *)
Fixpoint collapse_pass (fuel i : nat) (ls : list GCodeCommand) (altered : bool)
  : res (list GCodeCommand * bool) :=
  match fuel with
  | O => OutOfFuel
  | S fuel' =>
      match nth_error ls i with
      | None => Ok (ls, altered)
      | Some command =>
          old <- getCommandRelativeToIndex ls (Z.of_nat i) (-1) ;;
          let oldCommand := snd old in
          if String.eqb "G0" (verb command) && String.eqb "G0" (verb oldCommand)
          then
            let ls1 :=
              match param_get oldCommand "Z" with
              | Some z => replace_at i (set_param command "Z" z) ls
              | None => ls
              end in
            old' <- getCommandRelativeToIndex ls1 (Z.of_nat i) (-1) ;;
            collapse_pass fuel' (S i) (remove_at (position ls1 (fst old')) ls1) true
          else collapse_pass fuel' (S i) ls altered
      end
  end.

(** The [while altered] loop. *)
Fixpoint collapse_loop (fuel : nat) (ls : list GCodeCommand)
  : res (list GCodeCommand) :=
  match fuel with
  | O => OutOfFuel
  | S fuel' =>
      r <- collapse_pass (S (List.length ls)) 0 ls false ;;
      if snd r then collapse_loop fuel' (fst r) else Ok (fst r)
  end.

Definition collapse (ls : list GCodeCommand) : res (list GCodeCommand) :=
  collapse_loop (S (S (List.length ls))) ls.

(** [StringGCodeCommand(f"{verb} {k1}{v1} {k2}{v2}")]: the command the
    tokenizer builds from text formatted out of values.  Formatting an
    [int], a [float] or a [str] that is no number and reading it back
    gives the value again, so the parameters are the formatted values
    themselves, entered into a new dictionary in order. *)
Definition formatted_command (v : string) (ps : list (string * value))
  : GCodeCommand :=
  mkCommand v (fold_left (fun d kv => dict_set String.eqb d (fst kv) (snd kv)) ps []) "".

(** The loop that converts printer travels to CNC travels. *)
Fixpoint travel_loop (s : script) (fuel i : nat) (ls : list GCodeCommand)
         (altitude : value) : res (list GCodeCommand) :=
  match fuel with
  | O => OutOfFuel
  | S fuel' =>
      match nth_error ls i with
      | None => Ok ls
      | Some command =>
          let altitude1 :=
            match param_get command "Z" with Some z => z | None => altitude end in
          if String.eqb (verb command) "G0" then
            _ <- getCommandRelativeToIndex ls (Z.of_nat i) (-1) ;;
            x <- param_lookup command "X" ;;
            y <- param_lookup command "Y" ;;
            let ls1 := insert_at i
                         (formatted_command "G1" [("Z", clearance s); ("F", travelSpeed s)])
                         ls in
            let ls2 := insert_at (S i) (formatted_command "G1" [("X", x); ("Y", y)]) ls1 in
            let newAltitude :=
              match param_get command "Z" with Some z => z | None => altitude1 end in
            ls3 <- py_setitem ls2 (Z.of_nat i + 2)
                     (formatted_command "G1" [("Z", newAltitude); ("F", feedSpeed s)]) ;;
            travel_loop s fuel' (S i) ls3 altitude1
          else travel_loop s fuel' (S i) ls altitude1
      end
  end.

Definition expand_travels (s : script) (ls : list GCodeCommand)
  : res (list GCodeCommand) :=
  travel_loop s (S (3 * List.length ls)) 0 ls (VInt 0).

(** The list as it stands before the travels are converted. *)
Definition convert_prepare (ls : list GCodeCommand) : res (list GCodeCommand) :=
  let l1 := map strip_EF ls in
  let l2 := filter (fun c => negb (_isPrinterSpecificCommand c)) l1 in
  let l3 := map mirror_Z l2 in
  collapse l3.

Definition convert (s : script) : res script :=
  l4 <- convert_prepare (lines s) ;;
  l5 <- expand_travels s l4 ;;
  Ok (with_lines s l5).

(** ** removeInfill *)

(** [a % b] on [int]: the remainder has the sign of [b]. *)
Definition py_mod (a b : Z) : res Z :=
  if b =? 0 then Raise ZeroDivisionError else Ok (a mod b).

(** [range(n)] *)
Definition py_range (n : nat) : list Z := map Z.of_nat (seq 0 n).

(** The condition of the [if] in the loop of [removeInfill]; [and] does
    not evaluate its right operand when the left one is false, and
    [None % n] is a [TypeError]. *)
Definition infill_cond (s : script) (infillFrequency index : Z) : res bool :=
  t <- getType s index false ;;
  if str_in "fill" (lower (fst t)) then
    l <- getLayer s index false ;;
    match fst l with
    | None => Raise TypeError
    | Some layer => m <- py_mod layer infillFrequency ;; Ok (negb (m =? 0))
    end
  else Ok false.

Fixpoint mark_loop (s : script) (infillFrequency : Z) (ixs : list Z)
         (toPop : list Z) : res (list Z) :=
  match ixs with
  | [] => Ok toPop
  | index :: rest =>
      b <- infill_cond s infillFrequency index ;;
      if b then
        command <- py_index (lines s) index ;;
        mark_loop s infillFrequency rest
                  (if negb (String.eqb (verb command) "G0")
                   then (toPop ++ [index])%list else toPop)
      else mark_loop s infillFrequency rest toPop
  end.

Fixpoint pop_all (ls : list GCodeCommand) (pops : list Z)
  : res (list GCodeCommand) :=
  match pops with
  | [] => Ok ls
  | i :: pops' => ls' <- py_pop ls i ;; pop_all ls' pops'
  end.

Definition removeInfill (s : script) (infillFrequency : Z) : res script :=
  s1 <- computeLayerIndices s ;;
  let s2 := computeTypeChanges s1 in
  toPop <- mark_loop s2 infillFrequency (py_range (List.length (lines s2))) [] ;;
  ls <- pop_all (lines s2) (rev toPop) ;;
  Ok (with_lines s2 ls).

(** ** The tokenizer and the serializer

    Reading a [float] from text and printing one rounded to 5 places are
    Python builtins; the development takes them as given. *)

Record float_io : Type := mkFloatIO {
  float_of_string : string -> option float;   (* float(text), None on ValueError *)
  str_round5 : float -> string                (* str(round(f, 5)) *)
}.

Definition is_digit (c : ascii) : bool :=
  let n := nat_of_ascii c in (Nat.leb 48 n && Nat.leb n 57)%bool.

Definition digit_val (c : ascii) : Z := Z.of_nat (nat_of_ascii c) - 48.

(** Digits with single underscores between them, as [int] accepts;
    [acc] is the number read so far and [after_digit] tells whether the
    previous character was a digit. *)
Fixpoint int_digits (s : string) (acc : Z) (after_digit : bool) : option Z :=
  match s with
  | EmptyString => if after_digit then Some acc else None
  | String c s' =>
      if is_digit c then int_digits s' (10 * acc + digit_val c) true
      else if Ascii.eqb c "_" then
             (if after_digit then int_digits s' acc false else None)
           else None
  end.

(** [int(text)] for text without white space, [None] on [ValueError];
    among the code points below 256 the decimal digits are 0 to 9. *)
Definition int_of_string (s : string) : option Z :=
  match s with
  | String "-" s' => option_map Z.opp (int_digits s' 0 false)
  | String "+" s' => int_digits s' 0 false
  | _ => int_digits s 0 false
  end.

Definition _getNum (io : float_io) (number : string) : value :=
  match int_of_string number with
  | Some z => VInt z
  | None =>
      match float_of_string io number with
      | Some f => VFloat f
      | None => VStr number
      end
  end.

(** [str(z)] *)
Definition str_of_Z (z : Z) : string := NilZero.string_of_int (Z.to_int z).

(** [s.partition(sep)] for a one-character separator: the text before
    the first [sep] and the text after it. *)
Fixpoint partition (sep : ascii) (s : string) : string * string :=
  match s with
  | EmptyString => (EmptyString, EmptyString)
  | String c s' =>
      if Ascii.eqb c sep then (EmptyString, s')
      else let '(a, b) := partition sep s' in (String c a, b)
  end.

(** [s.lstrip(' ')] *)
Fixpoint lstrip_sp (s : string) : string :=
  match s with
  | String c s' => if Ascii.eqb c " " then lstrip_sp s' else s
  | EmptyString => EmptyString
  end.

(** [s.rstrip(' ')] *)
Fixpoint rstrip_sp (s : string) : string :=
  match s with
  | EmptyString => EmptyString
  | String c s' =>
      match rstrip_sp s' with
      | EmptyString => if Ascii.eqb c " " then EmptyString else String c EmptyString
      | r => String c r
      end
  end.

(** The characters [str.split()] splits at, those for which
    [str.isspace] holds: the control characters 9 to 13 and 28 to 31, the
    space, the next-line character 133 and the no-break space 160. *)
Definition is_space (c : ascii) : bool :=
  let n := nat_of_ascii c in
  ((Nat.leb 9 n && Nat.leb n 13) || (Nat.leb 28 n && Nat.leb n 32)
   || Nat.eqb n 133 || Nat.eqb n 160)%bool.

(** [s.split()]; [cur] is the token being read, reversed. *)
Fixpoint split_ws (s : string) (cur : list ascii) : list string :=
  let flush rest :=
    match cur with
    | [] => rest
    | _ => string_of_list_ascii (rev cur) :: rest
    end in
  match s with
  | EmptyString => flush []
  | String c s' =>
      if is_space c then flush (split_ws s' [])
      else split_ws s' (c :: cur)
  end.

Definition _tokenize (s : string) : res (string * list string * string) :=
  let sections := partition ";" s in
  let command := rstrip_sp (fst sections) in
  let comment := lstrip_sp (snd sections) in
  if negb (String.eqb command "") then
    match split_ws command [] with
    | [] => Raise IndexError
    | v :: ps => Ok (v, ps, comment)
    end
  else Ok ("", [], comment).

(** One entry [i[0] : self._getNum(i[1:])] of the dictionary. *)
Definition token_entry (io : float_io) (tok : string) : res (string * value) :=
  match tok with
  | EmptyString => Raise IndexError
  | String k rest => Ok (String k EmptyString, _getNum io rest)
  end.

Fixpoint build_parameters (io : float_io) (toks : list string)
         (d : list (string * value)) : res (list (string * value)) :=
  match toks with
  | [] => Ok d
  | tok :: toks' =>
      kv <- token_entry io tok ;;
      build_parameters io toks' (dict_set String.eqb d (fst kv) (snd kv))
  end.

Definition StringGCodeCommand (io : float_io) (s : string) : res GCodeCommand :=
  t <- _tokenize s ;;
  let '(v, ps, cm) := t in
  d <- build_parameters io ps [] ;;
  Ok (mkCommand v d cm).

Definition param_text (io : float_io) (kv : string * value) : string :=
  " " ++ fst kv ++
  match snd kv with
  | VInt z => str_of_Z z
  | VFloat f => str_round5 io f
  | VStr _ => ""
  end.

Definition getCommand (io : float_io) (c : GCodeCommand) : string :=
  fold_left (fun text kv => text ++ param_text io kv) (parameters c) (verb c).

Definition getFullCommand (io : float_io) (c : GCodeCommand) : string :=
  let text := getCommand io c in
  if negb (String.eqb (comment c) "") then text ++ "; " ++ comment c else text.

Definition newline : string := String (ascii_of_nat 10) EmptyString.

(** ** GCodeScript.loadFromString *)

(** [s.split(sep)] for a one-character separator; [cur] is the piece
    being read, reversed. *)
Fixpoint split_on (sep : ascii) (s : string) (cur : list ascii) : list string :=
  match s with
  | EmptyString => [string_of_list_ascii (rev cur)]
  | String c s' =>
      if Ascii.eqb c sep then string_of_list_ascii (rev cur) :: split_on sep s' []
      else split_on sep s' (c :: cur)
  end.

Fixpoint load_lines (io : float_io) (texts : list string) : res (list GCodeCommand) :=
  match texts with
  | [] => Ok []
  | line :: rest =>
      c <- StringGCodeCommand io line ;;
      cs <- load_lines io rest ;;
      Ok (c :: cs)
  end.

(** The pieces hold no newline, so [line.rstrip('\n')] is the piece. *)
Definition loadFromString (io : float_io) (s : script) (text : string) : res script :=
  ls <- load_lines io (split_on (ascii_of_nat 10) text []) ;;
  Ok (with_lines s ls).

(** ** export *)

Definition export_text (io : float_io) (final : list GCodeCommand) : string :=
  fold_left (fun result command => result ++ getFullCommand io command ++ newline)
            final "".

(** [final] is the list [self.prefixGcode] itself, so extending it extends
    the field. *)
Definition export (io : float_io) (s : script) : string * script :=
  let final := (prefixGcode s ++ lines s ++ suffixGcode s)%list in
  (export_text io final, with_prefixGcode s final).


(** * Vocabulary of the statements *)

Definition is_float (v : value) : bool :=
  match v with VFloat _ => true | _ => false end.

(** A script with the given body, empty affixes and integer settings. *)
Definition script_of (ls : list GCodeCommand) : script :=
  mkScript ls [] [] [] [] (VInt 3) (VInt 500) (VInt 200) (VInt 10000).

(** ** The type table *)

(** The keys of a type table built from the commands before index [i]:
    strictly increasing, 0 among them, all below [i]. *)
Definition keys_ok (i : Z) (t : list (Z * string)) : Prop :=
  StronglySorted Z.lt (map fst t) /\ In 0 (map fst t) /\
  Forall (fun k => 0 <= k < Z.max i 1) (map fst t).

(** ** Infill removal *)

(** The removal rule of [removeInfill] in the words of its description:
    the command at [index] goes when the lowercase text of its type
    contains "fill", its layer number modulo the frequency is not zero,
    and its verb is not G0. *)
Definition infill_marked (types : list (Z * string)) (layers : list Z)
           (infillFrequency : Z) (ic : Z * GCodeCommand) : bool :=
  match getType_scan (rev types) (fst ic),
        getLayer_scan (rev layers) (List.length layers) (fst ic) with
  | Ok t, Some layer =>
      str_in "fill" (lower t) && negb (layer mod infillFrequency =? 0)
      && negb (String.eqb (verb (snd ic)) "G0")
  | _, _ => false
  end.

(** The commands the rule keeps, in their order. *)
Definition infill_kept (types : list (Z * string)) (layers : list Z)
           (infillFrequency : Z) (ls : list GCodeCommand) : list GCodeCommand :=
  map snd (filter (fun ic => negb (infill_marked types layers infillFrequency ic))
                  (enumerate ls)).

(** Whether the loop of [removeInfill] marks [index]. *)
Definition marked_at (s : script) (infillFrequency index : Z) : bool :=
  match infill_cond s infillFrequency index with
  | Ok true =>
      match py_index (lines s) index with
      | Ok command => negb (String.eqb (verb command) "G0")
      | _ => false
      end
  | _ => false
  end.

(** Indices in strictly descending order, all in [0, n). *)
Inductive desc_below : Z -> list Z -> Prop :=
| desc_nil n : desc_below n []
| desc_cons n i ps : 0 <= i < n -> desc_below i ps -> desc_below n (i :: ps).

(** The elements whose index from [i0] on does not satisfy [P]. *)
Definition keep_from {A : Type} (P : Z -> bool) (i0 : Z) (l : list A) : list A :=
  map snd (filter (fun ic => negb (P (fst ic))) (enumerate_from i0 l)).

(** ** Numbers on which [orient] settles *)

(** No command carries a [float] under key [k]. *)
Definition no_float (k : string) (ls : list GCodeCommand) : Prop :=
  Forall (fun v => is_float v = false) (axis_args k ls).

(** [v - m] on an [int], any other value as it is. *)
Definition sub_int (m : Z) (v : value) : value :=
  match v with VInt x => VInt (x - m) | _ => v end.

(** A binary64 that is a zero or a finite number in canonical form. *)
Definition finite_float (f : float) : bool :=
  match f with
  | S754_zero _ => true
  | S754_finite _ m e => bounded prec emax m e
  | _ => false
  end.

(** An [int] below 2^53 in magnitude, a finite [float], or a [str]. *)
Definition admissible (v : value) : bool :=
  match v with
  | VInt z => Z.abs z <? 2 ^ 53
  | VFloat f => finite_float f
  | VStr _ => true
  end.

(** An admissible number. *)
Definition adm_num (v : value) : Prop := admissible v = true /\ is_str v = false.

(** The numeric values of axis [k] are integers below 2^53 in magnitude
    or finite floats. *)
Definition admissible_axis (k : string) (ls : list GCodeCommand) : Prop :=
  Forall (fun v => admissible v = true) (axis_args k ls).

(** The number a value stands for, times 2^1074. *)
Definition scaled (v : value) : Z :=
  match v with
  | VInt z => z * 2 ^ 1074
  | VFloat (S754_finite sg m e) => cond_Zopp sg (Zpos m) * 2 ^ (e + 1074)
  | _ => 0
  end.

(** Zero as an [int] or a [float] of either sign. *)
Definition zero_valued (v : value) : bool :=
  match v with
  | VInt 0 => true
  | VFloat (S754_zero _) => true
  | _ => false
  end.

(** A number above zero, infinity included. *)
Definition positive_valued (v : value) : bool :=
  match v with
  | VInt (Zpos _) => true
  | VFloat (S754_finite false _ _) => true
  | VFloat (S754_infinity false) => true
  | _ => false
  end.

(** [v - m] as [orient] computes it on a value that is no [str]. *)
Definition sub_val (m v : value) : value :=
  if is_str v then v
  else match py_sub v m with Ok r => r | _ => v end.

(** The command with its number under key [k] moved by [m]. *)
Definition shift_val (k : string) (m : value) (c : GCodeCommand) : GCodeCommand :=
  match param_get c k with
  | Some v => if is_str v then c else set_param c k (sub_val m v)
  | None => c
  end.

Definition shift_both (mx my : value) (c : GCodeCommand) : GCodeCommand :=
  shift_val "Y" my (shift_val "X" mx c).

(** The numbers of one axis settle: their minimum [m] can be subtracted
    from each, after which the minimum [m2] is a zero whose subtraction
    changes none of them. *)
Definition axis_settles (L : list value) : Prop :=
  exists m m2,
    py_min L = Ok m /\
    (forall v, In v L -> exists r, py_sub v m = Ok r) /\
    py_min (map (sub_val m) L) = Ok m2 /\
    zero_valued m2 = true /\
    (forall v', In v' (map (sub_val m) L) -> py_sub v' m2 = Ok v').

(** ** Tokens of a line *)



(** The number a text stands for, as the builtins read it: the [int]
    that [int] reads or, when [int] refuses the text, the [float] that
    [float] reads; no number when both refuse it. *)
Definition number_of_text (io : float_io) (t : string) : option value :=
  match int_of_string t with
  | Some z => Some (VInt z)
  | None => option_map VFloat (float_of_string io t)
  end.







(** ** The collapse of travels as its description states it *)

(** The verb is one of [USABLE_COMMANDS]. *)
Definition usable (c : GCodeCommand) : Prop := _isPrinterSpecificCommand c = false.

Definition is_G0 (c : GCodeCommand) : bool := String.eqb "G0" (verb c).

(** The second of two adjacent travels inherits the Z of the first, if
    the first has one. *)
Definition inherit_Z (old c : GCodeCommand) : GCodeCommand :=
  match param_get old "Z" with
  | Some z => set_param c "Z" z
  | None => c
  end.

(** Every run of consecutive G0 commands becomes its last command, with
    the Z inherited along the run; [pending] is the run read so far,
    merged. *)
Fixpoint merge_runs_aux (pending : option GCodeCommand) (ls : list GCodeCommand)
  : list GCodeCommand :=
  match ls with
  | [] => match pending with Some p => [p] | None => [] end
  | c :: rest =>
      if is_G0 c then
        merge_runs_aux (Some (match pending with Some p => inherit_Z p c | None => c end)) rest
      else
        ((match pending with Some p => [p] | None => [] end)
           ++ c :: merge_runs_aux None rest)%list
  end.

Definition merge_runs (ls : list GCodeCommand) : list GCodeCommand :=
  merge_runs_aux None ls.

(** The first Z a run specifies. *)
Fixpoint first_Z (run : list GCodeCommand) : option value :=
  match run with
  | [] => None
  | c :: rest => match param_get c "Z" with Some z => Some z | None => first_Z rest end
  end.

(** No two adjacent G0 commands. *)
Fixpoint no_adjacent (ls : list GCodeCommand) : bool :=
  match ls with
  | a :: (b :: _) as rest => negb (is_G0 a && is_G0 b) && no_adjacent rest
  | _ => true
  end.

(** The list does not both start and end with a G0. *)
Definition no_wrap (ls : list GCodeCommand) : Prop :=
  match ls with
  | [] => True
  | h :: t => is_G0 h && is_G0 (last t h) = false
  end.

(** From position [i] on, no G0 follows a G0. *)
Definition adjacent_free_from (i : nat) (ls : list GCodeCommand) : Prop :=
  forall pre o c post,
    ls = (pre ++ o :: c :: post)%list -> (i <= S (List.length pre))%nat ->
    is_G0 c && is_G0 o = false.

(** ** The travel expansion as its description states it *)

(** Lift to the clearance height at the travel feed rate. *)
Definition lift_move (s : script) : GCodeCommand :=
  mkCommand "G1" [("Z", clearance s); ("F", travelSpeed s)] "".

(** Move to the target X/Y; no Z. *)
Definition lateral_move (x y : value) : GCodeCommand :=
  mkCommand "G1" [("X", x); ("Y", y)] "".

(** Plunge to [z] at the cutting feed rate. *)
Definition plunge_move (s : script) (z : value) : GCodeCommand :=
  mkCommand "G1" [("Z", z); ("F", feedSpeed s)] "".

(** The running altitude after [c]. *)
Definition running (altitude : value) (c : GCodeCommand) : value :=
  match param_get c "Z" with Some z => z | None => altitude end.

(** Every G0 becomes lift, lateral move and plunge to its own Z or, when
    it has none, to the running altitude; a command that specifies Z
    updates the running altitude; every other command stays. *)
Fixpoint expand_spec (s : script) (altitude : value) (ls : list GCodeCommand)
  : res (list GCodeCommand) :=
  match ls with
  | [] => Ok []
  | c :: rest =>
      let target := match param_get c "Z" with Some z => z | None => altitude end in
      if String.eqb (verb c) "G0" then
        x <- param_lookup c "X" ;;
        y <- param_lookup c "Y" ;;
        r <- expand_spec s target rest ;;
        Ok (lift_move s :: lateral_move x y :: plunge_move s target :: r)
      else
        r <- expand_spec s target rest ;;
        Ok (c :: r)
  end.

(** The body after the travel expansion, command by command. *)
Inductive expands (s : script) : value -> list GCodeCommand -> list GCodeCommand -> Prop :=
| expands_nil a : expands s a [] []
| expands_keep a c rest out :
    verb c <> "G0" ->
    expands s (running a c) rest out ->
    expands s a (c :: rest) (c :: out)
| expands_travel a c rest out x y :
    verb c = "G0" ->
    param_get c "X" = Some x -> param_get c "Y" = Some y ->
    expands s (running a c) rest out ->
    expands s a (c :: rest)
            (lift_move s :: lateral_move x y :: plunge_move s (running a c) :: out).

(** Iterations the travel loop spends on a list: three on a G0. *)
Fixpoint weight (ls : list GCodeCommand) : nat :=
  match ls with
  | [] => O
  | c :: rest => ((if String.eqb (verb c) "G0" then 3 else 1) + weight rest)%nat
  end.

(** A G0 carries both coordinates the expansion reads. *)
Definition travel_ok (c : GCodeCommand) : bool :=
  negb (String.eqb (verb c) "G0") || (has_param c "X" && has_param c "Y").

(** ** GCodeScriptCNCFromGCodeScriptPrinter.__init__

    The converter takes the lines of the printer script; every other
    field has the default of its class: no affixes, empty tables, the
    clearance 3.0 and the three speeds.  The two lists of affixes belong
    to the class and are empty as long as no [export] has extended them
    in place; [main] gives the converter lists of its own before it
    reads them. *)

Definition GCodeScriptPrinter : script :=
  mkScript [] [] [] [] []
           (VFloat (S754_finite false 6755399441055744 (-51)))
           (VInt 500) (VInt 200) (VInt 10000).

Definition GCodeScriptCNCFromGCodeScriptPrinter (printerScipt : script) : script :=
  mkScript (lines printerScipt) [] [] [] []
           (VFloat (S754_finite false 6755399441055744 (-51)))
           (VInt 500) (VInt 200) (VInt 10000).

(** ** shrink on shared objects

    A command is an object, and a list holds references to objects:
    after [export], [prefixGcode] holds the commands of the body
    themselves.  Here the commands and the lists live at addresses, an
    instance holds the addresses of its three lists, and the cleaning
    loop works on them in place: clearing the comment of a command shows
    in every list that holds it, and [lines.remove(command)] removes the
    first reference to the command, which is in the list it was read
    from. *)

Record objects : Type := mkObjects {
  commands : nat -> GCodeCommand;   (* the command at an address *)
  lists : nat -> list nat           (* the list at an address, as addresses of commands *)
}.

(** [command.comment = ''], and any other assignment to the object *)
Definition set_command (o : objects) (a : nat) (c : GCodeCommand) : objects :=
  mkObjects (fun b => if Nat.eqb b a then c else commands o b) (lists o).

Definition set_list (o : objects) (l : nat) (v : list nat) : objects :=
  mkObjects (commands o) (fun m => if Nat.eqb m l then v else lists o m).

(** [l.remove(x)] for an [x] that is in [l]: its first occurrence goes. *)
Fixpoint remove_first (a : nat) (l : list nat) : list nat :=
  match l with
  | [] => []
  | b :: l' => if Nat.eqb b a then l' else b :: remove_first a l'
  end.

Fixpoint clean_objects (fuel i : nat) (o : objects) (l : nat) : res objects :=
  match fuel with
  | O => OutOfFuel
  | S fuel' =>
      match nth_error (lists o l) i with
      | None => Ok o
      | Some command =>
          if isACommand (commands o command)
          then clean_objects fuel' (S i)
                 (set_command o command (clear_comment (commands o command))) l
          else clean_objects fuel' (S i)
                 (set_list o l (remove_first command (lists o l))) l
      end
  end.

(** [_cleanCommandsFromList] on the list at address [l]. *)
Definition _cleanCommandsFromList_objects (o : objects) (l : nat) : res objects :=
  clean_objects (S (List.length (lists o l))) 0 o l.

(** The addresses of the three lists of an instance. *)
Record instance : Type := mkInstance {
  lines_at : nat;
  prefixGcode_at : nat;
  suffixGcode_at : nat
}.

(** [GCodeScriptCNC.shrink] on the objects of [self]. *)
Definition shrink_objects (o : objects) (self : instance) : res objects :=
  o1 <- _cleanCommandsFromList_objects o (lines_at self) ;;
  o2 <- _cleanCommandsFromList_objects o1 (prefixGcode_at self) ;;
  _cleanCommandsFromList_objects o2 (suffixGcode_at self).

(** The commands a list holds, in order. *)
Definition view (o : objects) (l : nat) : list GCodeCommand :=
  map (commands o) (lists o l).

(** ** main.py

    The command line as [argparse] leaves it.  The options typed [int]
    are integers.  [prefix] and [suffix] stand for the text that
    [args.prefix.format(...)] and [args.suffix.format(...)] return; for
    the templates the program ships, [DEFAULT_PREFIX] and
    [DEFAULT_SUFFIX] below are those texts, every field replaced by
    [str] of its integer. *)

Record args : Type := mkArgs {
  arg_clearance : Z;
  arg_feedrate : Z;
  arg_infill_frequency : Z;
  arg_keep_infill : bool;
  arg_no_orient : bool;
  arg_prefix : string;
  arg_suffix : string;
  arg_spindle_speed : Z;
  arg_shrink : bool;
  arg_travelrate : Z
}.

Definition DEFAULT_PREFIX (clearance travelRate spindleSpeed : Z) : string :=
  "G1 X0 Y" ++ str_of_Z clearance ++ " Z0" ++ newline ++
  "G92 X0 Y0 Z0" ++ newline ++
  "G90" ++ newline ++
  "G1 Z" ++ str_of_Z clearance ++ " F" ++ str_of_Z travelRate ++ newline ++
  "G1 X0 Y0" ++ newline ++
  "M03 S" ++ str_of_Z spindleSpeed.

Definition DEFAULT_SUFFIX (clearance travelRate : Z) : string :=
  "G1 Z" ++ str_of_Z clearance ++ " F" ++ str_of_Z travelRate ++ newline ++
  "M05" ++ newline ++
  "G1 X0 Y0 M30".

(** The four assignments after the converter is built. *)
Definition with_settings (s : script) (a : args) : script :=
  mkScript (lines s) (prefixGcode s) (suffixGcode s) (typeIndicies s) (layerIndicies s)
           (VInt (arg_clearance a)) (VInt (arg_travelrate a))
           (VInt (arg_feedrate a)) (VInt (arg_spindle_speed a)).

(** The script of [main.py] from the text of the source file to the text
    written to the destination; the messages it logs are left out. *)
Definition main (io : float_io) (a : args) (SOURCE : string) : res string :=
  printerGcode <- loadFromString io GCodeScriptPrinter SOURCE ;;
  let GCodeCNC := with_settings (GCodeScriptCNCFromGCodeScriptPrinter printerGcode) a in
  s1 <- (if negb (arg_keep_infill a)
         then removeInfill GCodeCNC (arg_infill_frequency a) else Ok GCodeCNC) ;;
  s2 <- (if negb (arg_no_orient a) then orient s1 else Ok s1) ;;
  s3 <- convert s2 ;;
  prefixGcode_ <- loadFromString io GCodeScriptPrinter (arg_prefix a) ;;
  let s4 := with_prefixGcode s3 (lines prefixGcode_) in
  suffixGcode_ <- loadFromString io GCodeScriptPrinter (arg_suffix a) ;;
  let s5 := with_suffixGcode s4 (lines suffixGcode_) in
  s6 <- (if arg_shrink a then shrink s5 else Ok s5) ;;
  Ok (fst (export io s6)).

(** ** What the cleaning loop leaves *)

(** The loop of [_cleanCommandsFromList] read off the list: a command
    loses its comment; a line that is no command goes, and the line after
    it is passed over as it is. *)
Fixpoint clean_spec (ls : list GCodeCommand) : list GCodeCommand :=
  match ls with
  | [] => []
  | c :: rest =>
      if isACommand c then clear_comment c :: clean_spec rest
      else match rest with
           | [] => []
           | d :: rest' => d :: clean_spec rest'
           end
  end.

(** A line that is no command is the last one or stands before a command
    without a comment. *)
Fixpoint comments_isolated (ls : list GCodeCommand) : bool :=
  match ls with
  | [] => true
  | c :: rest =>
      (isACommand c ||
       match rest with
       | [] => true
       | d :: _ => isACommand d && String.eqb (comment d) ""
       end) && comments_isolated rest
  end.

(** ** Walking over the lines *)

(** The number of commands among the [n] lines met walking from [index]
    in steps of [iteration]. *)
Fixpoint commands_met (ls : list GCodeCommand) (index iteration : Z) (n : nat) : Z :=
  match n with
  | O => 0
  | S n' =>
      match py_index ls (index + iteration) with
      | Ok c => (if isACommand c then 1 else 0)
                + commands_met ls (index + iteration) iteration n'
      | _ => 0
      end
  end.

(** ** The layer and type tables *)

(** The number of entries of a table that are at most [i]. *)
Definition entries_upto (t : list Z) (i : Z) : nat :=
  List.length (filter (fun x => x <=? i) t).

(** The layer [getLayer] finds in a table: one less than the number of
    entries at or before the index, [None] when there is none. *)
Definition layer_of (t : list Z) (i : Z) : option Z :=
  match entries_upto t i with
  | O => None
  | S k => Some (Z.of_nat k)
  end.

(** The type of the line at [index] contains "fill". *)
Definition fill_typed (ls : list GCodeCommand) (index : Z) : bool :=
  match getType_scan (rev (type_changes ls)) index with
  | Ok t => str_in "fill" (lower t)
  | _ => false
  end.

(** The type in force after a line: the text after TYPE: when the comment
    of the line contains TYPE:, the type before it otherwise. *)
Definition type_after (current : string) (c : GCodeCommand) : string :=
  if str_in "TYPE:" (comment c) then removeprefix "TYPE:" (comment c) else current.

(** The type in force at [index], reading the lines from the first one. *)
Definition running_type (ls : list GCodeCommand) (index : Z) : string :=
  fold_left type_after (firstn (Z.to_nat index + 1) ls) "None".

(** ** What [orient] leaves alone *)

(** [c'] is [c] but for the numbers under X and Y: the same verb and
    comment, the same keys in the same order, every other parameter and
    every [str] under X or Y as it was. *)
Definition same_but_XY (c c' : GCodeCommand) : Prop :=
  verb c' = verb c /\ comment c' = comment c /\
  map fst (parameters c') = map fst (parameters c) /\
  (forall k, k <> "X" -> k <> "Y" -> param_get c' k = param_get c k) /\
  (forall k t, param_get c k = Some (VStr t) -> param_get c' k = Some (VStr t)).

(** ** The body before the travels are collapsed *)

(** The first three steps of [convert]: E and F stripped, the commands
    other than G0 and G1 dropped, Z mirrored. *)
Definition stripped_mirrored (ls : list GCodeCommand) : list GCodeCommand :=
  map mirror_Z (filter (fun c => negb (_isPrinterSpecificCommand c)) (map strip_EF ls)).

(** The parameters form a dictionary: no key occurs twice. *)
Definition distinct_keys (c : GCodeCommand) : Prop := NoDup (map fst (parameters c)).

(** No extrusion, and a feed rate only if it is one of the two speeds of
    the script. *)
Definition milling_only (s : script) (c : GCodeCommand) : Prop :=
  has_param c "E" = false /\
  forall v, param_get c "F" = Some v -> v = travelSpeed s \/ v = feedSpeed s.

(** ** Lines of text *)

(** Every character is one of those [split()] splits at. *)
Fixpoint all_space (s : string) : bool :=
  match s with
  | EmptyString => true
  | String c s' => is_space c && all_space s'
  end.

(** The text before the first semicolon, without its trailing spaces. *)
Definition command_part (s : string) : string := rstrip_sp (fst (partition ";" s)).

(** The command part is not empty, yet holds white space only: a tab or
    a carriage return, say. *)
Definition blank_command (s : string) : bool :=
  negb (String.eqb (command_part s) "") && all_space (command_part s).

(** The number of occurrences of a character. *)
Fixpoint count_char (c : ascii) (s : string) : nat :=
  match s with
  | EmptyString => O
  | String a s' => ((if Ascii.eqb a c then 1 else 0) + count_char c s')%nat
  end.

(** ** Text that reads back *)

(** A character that neither ends a word nor starts a comment. *)
Definition word_char (c : ascii) : bool :=
  negb (is_space c) && negb (Ascii.eqb c ";").

Fixpoint word (s : string) : bool :=
  match s with
  | EmptyString => true
  | String c s' => word_char c && word s'
  end.

(** A parameter with a key of one character and an [int] value. *)
Definition int_parameter (kv : string * value) : bool :=
  match kv with
  | (String k EmptyString, VInt _) => word_char k
  | _ => false
  end.

(** A command that its text determines: the verb is one word, a line
    without a verb has no parameters, the parameters are integers under
    distinct one-character keys, and the comment starts with no space and
    holds no newline. *)
Definition writable (c : GCodeCommand) : Prop :=
  word (verb c) = true /\
  (verb c = "" -> parameters c = []) /\
  forallb int_parameter (parameters c) = true /\
  NoDup (map fst (parameters c)) /\
  lstrip_sp (comment c) = comment c /\
  count_char (ascii_of_nat 10) (comment c) = O.

(** The number the digits of [d] stand for, after the digits read into
    [acc]. *)
Fixpoint uint_value (d : Decimal.uint) (acc : Z) : Z :=
  match d with
  | Decimal.Nil => acc
  | Decimal.D0 l => uint_value l (10 * acc + 0)
  | Decimal.D1 l => uint_value l (10 * acc + 1)
  | Decimal.D2 l => uint_value l (10 * acc + 2)
  | Decimal.D3 l => uint_value l (10 * acc + 3)
  | Decimal.D4 l => uint_value l (10 * acc + 4)
  | Decimal.D5 l => uint_value l (10 * acc + 5)
  | Decimal.D6 l => uint_value l (10 * acc + 6)
  | Decimal.D7 l => uint_value l (10 * acc + 7)
  | Decimal.D8 l => uint_value l (10 * acc + 8)
  | Decimal.D9 l => uint_value l (10 * acc + 9)
  end.

(** The token the serializer writes for a parameter, after the space. *)
Definition written_token (io : float_io) (kv : string * value) : string :=
  fst kv ++
  match snd kv with
  | VInt z => str_of_Z z
  | VFloat f => str_round5 io f
  | VStr _ => ""
  end.

(** The text the serializer writes after the verb. *)
Fixpoint tail_text (io : float_io) (ps : list (string * value)) : string :=
  match ps with
  | [] => ""
  | kv :: ps' => param_text io kv ++ tail_text io ps'
  end.

(** What [split()] does with the word it is reading when the word ends. *)
Definition flush (cur : list ascii) (rest : list string) : list string :=
  match cur with
  | [] => rest
  | _ => string_of_list_ascii (rev cur) :: rest
  end.

(** No semicolon. *)
Fixpoint plain (s : string) : bool :=
  match s with
  | EmptyString => true
  | String c s' => negb (Ascii.eqb c ";") && plain s'
  end.

(** The line the loader makes of the empty text after the last newline. *)
Definition empty_line : GCodeCommand := mkCommand "" [] "".

(** ** The affixes the program ships *)

(** The commands of [DEFAULT_PREFIX]. *)
Definition default_prefix_commands (clearance travelRate spindleSpeed : Z)
  : list GCodeCommand :=
  [mkCommand "G1" [("X", VInt 0); ("Y", VInt clearance); ("Z", VInt 0)] "";
   mkCommand "G92" [("X", VInt 0); ("Y", VInt 0); ("Z", VInt 0)] "";
   mkCommand "G90" [] "";
   mkCommand "G1" [("Z", VInt clearance); ("F", VInt travelRate)] "";
   mkCommand "G1" [("X", VInt 0); ("Y", VInt 0)] "";
   mkCommand "M03" [("S", VInt spindleSpeed)] ""].

(** The commands of [DEFAULT_SUFFIX]. *)
Definition default_suffix_commands (clearance travelRate : Z) : list GCodeCommand :=
  [mkCommand "G1" [("Z", VInt clearance); ("F", VInt travelRate)] "";
   mkCommand "M05" [] "";
   mkCommand "G1" [("X", VInt 0); ("Y", VInt 0); ("M", VInt 30)] ""].

(** Lines of text with a newline between one and the next. *)
Fixpoint join_lines (texts : list string) : string :=
  match texts with
  | [] => ""
  | [t] => t
  | t :: rest => t ++ String (ascii_of_nat 10) (join_lines rest)
  end.

(** Words with a space before each. *)
Fixpoint words_text (toks : list string) : string :=
  match toks with
  | [] => ""
  | tok :: rest => " " ++ tok ++ words_text rest
  end.

(** * Properties *)
(** ** The type table *)

Lemma dict_set_keys_in {V : Type} (d : list (Z * V)) k v :
  In k (map fst d) -> map fst (dict_set Z.eqb d k v) = map fst d.
Proof.
  induction d as [|[k' v'] d IH]; simpl; intros H; [contradiction|].
  destruct (Z.eqb_spec k k') as [->|Hne]; simpl; [reflexivity|].
  f_equal. apply IH. destruct H as [H|H]; [congruence|exact H].
Qed.

Lemma dict_set_keys_notin {V : Type} (d : list (Z * V)) k v :
  ~ In k (map fst d) -> dict_set Z.eqb d k v = (d ++ [(k, v)])%list.
Proof.
  induction d as [|[k' v'] d IH]; simpl; intros H; [reflexivity|].
  destruct (Z.eqb_spec k k') as [->|Hne]; [exfalso; apply H; now left|].
  f_equal. apply IH. intros Hin. apply H. now right.
Qed.

Lemma StronglySorted_snoc (l : list Z) (x : Z) :
  StronglySorted Z.lt l -> Forall (fun k => k < x) l ->
  StronglySorted Z.lt (l ++ [x]).
Proof.
  induction 1 as [|a l Hs IH Ha]; simpl; intros Hf.
  - constructor; constructor.
  - inversion Hf; subst. constructor; [now apply IH|].
    apply Forall_app; split; [exact Ha|]. constructor; [assumption|constructor].
Qed.

Lemma type_step_keys_ok i t c :
  0 <= i -> keys_ok i t -> keys_ok (i + 1) (type_step t (i, c)).
Proof.
  intros Hi (Hs & H0 & Hb). unfold type_step.
  assert (Hb' : Forall (fun k => 0 <= k < Z.max (i + 1) 1) (map fst t)).
  { eapply Forall_impl; [|exact Hb]. simpl; intros; lia. }
  destruct (str_in "TYPE:" (comment c)); [|now repeat split].
  destruct (in_dec Z.eq_dec i (map fst t)) as [Hin|Hnin].
  - unfold keys_ok. rewrite dict_set_keys_in by exact Hin. now repeat split.
  - rewrite dict_set_keys_notin by exact Hnin.
    assert (Hpos : 1 <= i).
    { destruct (Z.eq_dec i 0) as [->|]; [contradiction|lia]. }
    unfold keys_ok. rewrite map_app. simpl. repeat split.
    + apply StronglySorted_snoc; [exact Hs|].
      eapply Forall_impl; [|exact Hb]. simpl; intros; lia.
    + apply in_or_app. now left.
    + apply Forall_app; split; [exact Hb'|]. constructor; [lia|constructor].
Qed.

Lemma fold_type_step_keys_ok ls : forall i t,
  0 <= i -> keys_ok i t ->
  exists j, keys_ok j (fold_left type_step (enumerate_from i ls) t).
Proof.
  induction ls as [|c ls IH]; simpl; intros i t Hi Hk.
  - now exists i.
  - apply IH; [lia|]. now apply type_step_keys_ok.
Qed.

Lemma type_changes_keys_ok ls : exists j, keys_ok j (type_changes ls).
Proof.
  unfold type_changes, enumerate. apply fold_type_step_keys_ok; [lia|].
  unfold keys_ok; simpl. repeat split.
  - repeat constructor.
  - now left.
  - constructor; [lia|constructor].
Qed.

Lemma getType_scan_largest (t : list (Z * string)) (idx : Z) :
  StronglySorted Z.lt (map fst t) ->
  (exists k0, In k0 (map fst t) /\ k0 <= idx) ->
  exists k v, getType_scan (rev t) idx = Ok v /\ In (k, v) t /\ k <= idx /\
              forall k' v', In (k', v') t -> k' <= idx -> k' <= k.
Proof.
  induction t as [|[k v] t IH] using rev_ind; intros Hs (k0 & Hin & Hle).
  - contradiction.
  - rewrite rev_app_distr; simpl. rewrite map_app in Hs, Hin. simpl in Hs, Hin.
    assert (Hlt : Forall (fun a => a < k) (map fst t)).
    { clear -Hs. induction (map fst t) as [|a l IHl]; [constructor|].
      simpl in Hs. inversion Hs; subst. constructor.
      - rewrite Forall_forall in H2. apply H2. apply in_or_app. right. now left.
      - now apply IHl. }
    assert (Hs' : StronglySorted Z.lt (map fst t)).
    { clear -Hs. induction (map fst t) as [|a l IHl]; [constructor|].
      simpl in Hs. inversion Hs; subst. constructor; [now apply IHl|].
      apply Forall_app in H2. tauto. }
    destruct (Z.leb_spec k idx) as [Hk|Hk].
    + exists k, v. repeat split; [apply in_or_app; right; now left|exact Hk|].
      intros k' v' Hin' _. apply in_app_or in Hin'. destruct Hin' as [Hin'|[Heq|[]]].
      * rewrite Forall_forall in Hlt.
        assert (k' < k) by (apply Hlt; change k' with (fst (k', v')); now apply in_map).
        lia.
      * inversion Heq; lia.
    + destruct IH as (k1 & v1 & Hscan & Hin1 & Hle1 & Hmax); [exact Hs'|..].
      { exists k0. split; [|exact Hle]. apply in_app_or in Hin.
        destruct Hin as [Hin|[Heq|[]]]; [exact Hin|lia]. }
      exists k1, v1. repeat split; [exact Hscan|apply in_or_app; now left|exact Hle1|].
      intros k' v' Hin' Hle'. apply in_app_or in Hin'.
      destruct Hin' as [Hin'|[Heq|[]]]; [now apply (Hmax k' v')|inversion Heq; lia].
Qed.

(** C8.  After [computeTypeChanges] has run, [getType] at a non-negative
    index returns the type recorded at the largest index not above the
    query, whether or not it recomputes the table; it does not raise
    "Could not detect types", because index 0 is in the table. *)
Theorem getType_after_computeTypeChanges (s : script) (index : Z) (recompute : bool) :
  0 <= index ->
  let s' := computeTypeChanges s in
  In 0 (map fst (typeIndicies s')) /\
  exists k v,
    getType s' index recompute = Ok (v, s') /\
    In (k, v) (typeIndicies s') /\ k <= index /\
    forall k' v', In (k', v') (typeIndicies s') -> k' <= index -> k' <= k.
Proof.
  intros Hidx s'.
  destruct (type_changes_keys_ok (lines s)) as (j & Hs & H0 & _).
  assert (Hre : (if recompute then computeTypeChanges s' else s') = s')
    by (destruct recompute; reflexivity).
  split; [exact H0|].
  destruct (getType_scan_largest (type_changes (lines s)) index Hs) as (k & v & Hscan & Hrest).
  { exists 0. split; [exact H0|lia]. }
  exists k, v. split; [|exact Hrest].
  unfold getType. rewrite Hre. simpl. rewrite Hscan. reflexivity.
Qed.

Lemma getType_after_computeTypeChanges_witness :
  exists k v,
    getType (computeTypeChanges
               (mkScript [mkCommand "" [] "TYPE:Infill"; mkCommand "G1" [("X", VInt 1)] ""]
                         [] [] [] [] (VInt 3) (VInt 500) (VInt 200) (VInt 10000)))
            1 true
    = Ok (v, computeTypeChanges
               (mkScript [mkCommand "" [] "TYPE:Infill"; mkCommand "G1" [("X", VInt 1)] ""]
                         [] [] [] [] (VInt 3) (VInt 500) (VInt 200) (VInt 10000)))
    /\ k <= 1.
Proof.
  destruct (getType_after_computeTypeChanges
              (mkScript [mkCommand "" [] "TYPE:Infill"; mkCommand "G1" [("X", VInt 1)] ""]
                        [] [] [] [] (VInt 3) (VInt 500) (VInt 200) (VInt 10000))
              1 true ltac:(lia)) as (_ & k & v & H1 & _ & H2 & _).
  exists k, v. split; [exact H1|exact H2].
Defined.

(** ** shrink *)

Lemma length_remove_at {A : Type} (l : list A) : forall n x,
  nth_error l n = Some x -> List.length l = S (List.length (remove_at n l)).
Proof.
  induction l as [|a l IH]; intros [|n] x H; simpl in *; try discriminate.
  - reflexivity.
  - f_equal. now apply (IH n x).
Qed.

Lemma length_replace_at {A : Type} (l : list A) : forall n x,
  List.length (replace_at n x l) = List.length l.
Proof.
  induction l as [|a l IH]; intros [|n] x; simpl; auto.
Qed.

(** The loop of [_cleanCommandsFromList] ends before its fuel does. *)
Lemma clean_loop_terminates : forall fuel i ls,
  (List.length ls <= fuel + i)%nat ->
  exists out, clean_loop (S fuel) i ls = Ok out.
Proof.
  induction fuel as [|fuel IH]; intros i ls Hlen.
  - simpl. destruct (nth_error ls i) as [c|] eqn:E; [|now exists ls].
    assert (nth_error ls i <> None) by congruence.
    apply nth_error_Some in H. simpl in Hlen. lia.
  - change (clean_loop (S (S fuel)) i ls)
      with (match nth_error ls i with
            | None => Ok ls
            | Some command =>
                if isACommand command
                then clean_loop (S fuel) (S i) (replace_at i (clear_comment command) ls)
                else clean_loop (S fuel) (S i) (remove_at i ls)
            end).
    destruct (nth_error ls i) as [c|] eqn:E; [|now exists ls].
    destruct (isACommand c).
    + apply IH. rewrite length_replace_at. lia.
    + apply IH. rewrite (length_remove_at ls i c E) in Hlen. lia.
Qed.

Lemma _cleanCommandsFromList_terminates (ls : list GCodeCommand) :
  exists out, _cleanCommandsFromList ls = Ok out.
Proof.
  unfold _cleanCommandsFromList. apply clean_loop_terminates. lia.
Qed.

(** C3.  On the four lines

      ; a
      G1 X1 ; hello
      ; b
      ; c

    the loop of [_cleanCommandsFromList] removes the first line, which
    moves the second to the position just visited, so the command keeps
    its comment; it then removes [; b] and leaves [; c] the same way.
    After [shrink] the sequence still holds a comment on a command and a
    line that is no command. *)
Theorem shrink_skips_after_removal :
  let a := mkCommand "" [] "a" in
  let g := mkCommand "G1" [("X", VInt 1)] "hello" in
  let b := mkCommand "" [] "b" in
  let c := mkCommand "" [] "c" in
  let s := mkScript [a; g; b; c] [] [] [] [] (VInt 3) (VInt 500) (VInt 200) (VInt 10000) in
  _cleanCommandsFromList [a; g; b; c] = Ok [g; c] /\
  shrink s = Ok (with_lines s [g; c]) /\
  isACommand g = true /\ comment g <> "" /\ isACommand c = false.
Proof.
  cbv zeta. repeat split; try reflexivity. discriminate.
Qed.

(** The four lines of the example, as [loadFromString] reads them. *)
Lemma shrink_example_loads (io : float_io) (s : script) :
  loadFromString io s
    ("; a" ++ newline ++ "G1 X1 ; hello" ++ newline ++ "; b" ++ newline ++ "; c")
  = Ok (with_lines s [mkCommand "" [] "a";
                      mkCommand "G1" [("X", VInt 1)] "hello";
                      mkCommand "" [] "b";
                      mkCommand "" [] "c"]).
Proof. reflexivity. Qed.

(** ** Dictionaries keyed by strings *)

Lemma sdict_get_set_same (d : list (string * value)) k v :
  dict_get String.eqb (dict_set String.eqb d k v) k = Some v.
Proof.
  induction d as [|[k' v'] d IH]; simpl.
  - now rewrite String.eqb_refl.
  - destruct (String.eqb k k') eqn:E; simpl; rewrite E; [reflexivity|exact IH].
Qed.

Lemma sdict_get_set_other (d : list (string * value)) k k' v :
  k <> k' ->
  dict_get String.eqb (dict_set String.eqb d k v) k' = dict_get String.eqb d k'.
Proof.
  intros Hne. induction d as [|[k0 v0] d IH]; simpl.
  - destruct (String.eqb_spec k' k); [congruence|reflexivity].
  - destruct (String.eqb_spec k k0) as [->|H0]; simpl.
    + destruct (String.eqb_spec k' k0); [congruence|reflexivity].
    + destruct (String.eqb_spec k' k0); [reflexivity|exact IH].
Qed.

Lemma sdict_set_same_value (d : list (string * value)) k v :
  dict_get String.eqb d k = Some v -> dict_set String.eqb d k v = d.
Proof.
  induction d as [|[k' v'] d IH]; simpl; [discriminate|].
  destruct (String.eqb_spec k k') as [->|Hne]; intros H.
  - congruence.
  - f_equal. now apply IH.
Qed.

Lemma sdict_set_keys_present (d : list (string * value)) k v v0 :
  dict_get String.eqb d k = Some v0 ->
  map fst (dict_set String.eqb d k v) = map fst d.
Proof.
  induction d as [|[k' v'] d IH]; simpl; [discriminate|].
  destruct (String.eqb_spec k k') as [->|Hne]; intros H; simpl; [reflexivity|].
  f_equal. now apply IH.
Qed.

(** ** orient without numeric X or Y *)

Lemma min_loop_not_str (l : list value) : forall cur,
  is_str cur = false -> Forall (fun v => is_str v = false) l ->
  exists m, min_loop cur l = Ok m /\ is_str m = false /\ In m (cur :: l).
Proof.
  induction l as [|x l IH]; intros cur Hc Hl; simpl.
  - exists cur. auto.
  - inversion Hl as [|? ? Hx Hl']; subst.
    assert (Hlt : exists b, py_lt x cur = Ok b).
    { destruct x, cur; simpl in *; try discriminate; eexists; reflexivity. }
    destruct Hlt as (b & ->). simpl.
    destruct (IH (if b then x else cur)) as (m & Hm & Hs & Hin).
    + now destruct b.
    + exact Hl'.
    + exists m. repeat split; [exact Hm|exact Hs|].
      destruct Hin as [Hin|Hin]; [|now right; right].
      destruct b; subst; [right; now left|now left].
Qed.

Lemma not_str_Forall (l : list value) :
  Forall (fun v => is_str v = false) (not_str l).
Proof.
  unfold not_str. apply Forall_forall. intros v Hin.
  apply filter_In in Hin. destruct Hin as [_ H]. now destruct (is_str v).
Qed.

Lemma py_min_not_str (l : list value) :
  not_str l <> [] ->
  exists m, py_min (not_str l) = Ok m /\ is_str m = false /\ In m (not_str l).
Proof.
  intros Hne. pose proof (not_str_Forall l) as Hf.
  destruct (not_str l) as [|x l']; [congruence|].
  inversion Hf; subst. simpl. now apply min_loop_not_str.
Qed.

(** C5 (as the code has it).  When no command carries a numeric X, or
    none carries a numeric Y, [orient] ends with the [ValueError] that
    [min] raises on an empty sequence: it is not a silent no-op, and the
    exception is the builtin's, not one the source raises itself. *)
Theorem orient_missing_axis (s : script) :
  not_str (axis_args "X" (lines s)) = [] \/ not_str (axis_args "Y" (lines s)) = [] ->
  orient s = Raise MinEmptySequence /\ raised_explicitly MinEmptySequence = false.
Proof.
  intros H. split; [|reflexivity].
  unfold orient, orient_lines.
  destruct (not_str (axis_args "X" (lines s))) as [|x xs] eqn:EX.
  - reflexivity.
  - destruct H as [H|H]; [discriminate|].
    destruct (py_min_not_str (axis_args "X" (lines s))) as (m & Hm & _).
    { rewrite EX. discriminate. }
    rewrite EX in Hm. rewrite Hm. simpl. rewrite H. reflexivity.
Qed.

Lemma orient_missing_axis_witness :
  orient (mkScript [mkCommand "G1" [("Y", VInt 4)] ""] [] [] [] []
                   (VInt 3) (VInt 500) (VInt 200) (VInt 10000))
  = Raise MinEmptySequence /\ raised_explicitly MinEmptySequence = false.
Proof.
  apply (orient_missing_axis
           (mkScript [mkCommand "G1" [("Y", VInt 4)] ""] [] [] [] []
                     (VInt 3) (VInt 500) (VInt 200) (VInt 10000))).
  left. reflexivity.
Defined.

(** C5 fails as stated: on the one line [G1 Y4], which carries no X,
    [orient] raises nothing of its own; the exception it ends with is the
    one of [min] on an empty sequence. *)
Lemma orient_missing_axis_not_explicit :
  ~ (forall s : script,
        not_str (axis_args "X" (lines s)) = [] \/ not_str (axis_args "Y" (lines s)) = [] ->
        exists e, orient s = Raise e /\ raised_explicitly e = true).
Proof.
  intros H.
  destruct (H (mkScript [mkCommand "G1" [("Y", VInt 4)] ""] [] [] [] []
                        (VInt 3) (VInt 500) (VInt 200) (VInt 10000)))
    as (e & He & Hx).
  - left. reflexivity.
  - cbv in He. inversion He; subst. discriminate.
Qed.

(** ** Binary64 order and subtraction *)

Lemma digits2_pos_bounds (m : positive) :
  2 ^ (Zpos (digits2_pos m) - 1) <= Zpos m < 2 ^ Zpos (digits2_pos m).
Proof.
  assert (step : forall d, 0 < d ->
                   2 ^ (Z.succ d - 1) = 2 * 2 ^ (d - 1) /\ 2 ^ Z.succ d = 2 * 2 ^ d).
  { intros d Hd. split.
    - replace (Z.succ d - 1) with (Z.succ (d - 1)) by lia. apply Z.pow_succ_r. lia.
    - apply Z.pow_succ_r. lia. }
  induction m as [p IH|p IH|]; simpl digits2_pos.
  - rewrite Pos2Z.inj_succ, (Pos2Z.inj_xI p).
    destruct (step (Zpos (digits2_pos p)) ltac:(lia)) as [E1 E2]. rewrite E1, E2. lia.
  - rewrite Pos2Z.inj_succ, (Pos2Z.inj_xO p).
    destruct (step (Zpos (digits2_pos p)) ltac:(lia)) as [E1 E2]. rewrite E1, E2. lia.
  - simpl. lia.
Qed.

(** What the canonical form says about the exponent and the digits. *)
Lemma bounded_facts (m : positive) (e : Z) :
  bounded prec emax m e = true ->
  -1074 <= e /\ Zpos (digits2_pos m) <= 53 /\
  (-1074 < e -> Zpos (digits2_pos m) = 53) /\ e <= 971.
Proof.
  unfold bounded, canonical_mantissa, fexp, emin, prec, emax.
  intros H. apply andb_prop in H. destruct H as [H1 H2].
  apply Z.eqb_eq in H1. apply Z.leb_le in H2. lia.
Qed.

Lemma pow2_pos (k : Z) : 0 <= k -> 0 < 2 ^ k.
Proof. intros. apply Z.pow_pos_nonneg; lia. Qed.

Lemma pow2_split (a b : Z) : 0 <= a -> 0 <= b -> 2 ^ (a + b) = 2 ^ a * 2 ^ b.
Proof. intros. apply Z.pow_add_r; lia. Qed.

Lemma order_arith (a b p q : Z) :
  4503599627370496 <= a -> b < 9007199254740992 -> 0 < p -> 2 <= q ->
  b * p < a * (p * q).
Proof.
  intros Ha Hb Hp Hq.
  assert (b * p < 9007199254740992 * p) by (apply Z.mul_lt_mono_pos_r; lia).
  assert (4503599627370496 * p <= a * p) by (apply Z.mul_le_mono_nonneg_r; lia).
  assert (a * p * 2 <= a * p * q) by (apply Z.mul_le_mono_nonneg_l; lia).
  lia.
Qed.

(** With canonical mantissas the larger exponent is the larger number. *)
Lemma canonical_exponent_order (m1 m2 : positive) (e1 e2 : Z) :
  bounded prec emax m1 e1 = true -> bounded prec emax m2 e2 = true ->
  e1 < e2 ->
  Zpos m1 * 2 ^ (e1 + 1074) < Zpos m2 * 2 ^ (e2 + 1074).
Proof.
  intros B1 B2 He.
  destruct (bounded_facts _ _ B1) as (L1 & D1 & _ & _).
  destruct (bounded_facts _ _ B2) as (L2 & _ & D2 & _).
  specialize (D2 ltac:(lia)).
  pose proof (digits2_pos_bounds m1) as [_ U1].
  pose proof (digits2_pos_bounds m2) as [Lo2 _].
  rewrite D2 in Lo2.
  assert (U1' : Zpos m1 < 2 ^ 53).
  { eapply Z.lt_le_trans; [exact U1|]. apply Z.pow_le_mono_r; lia. }
  replace (e2 + 1074) with ((e1 + 1074) + (e2 - e1)) by lia.
  rewrite (pow2_split (e1 + 1074) (e2 - e1)) by lia.
  pose proof (pow2_pos (e1 + 1074) ltac:(lia)) as P1.
  assert (P2 : 2 <= 2 ^ (e2 - e1)).
  { change 2 with (2 ^ 1) at 1. apply Z.pow_le_mono_r; lia. }
  change (2 ^ (53 - 1)) with 4503599627370496 in Lo2.
  change (2 ^ 53) with 9007199254740992 in U1'.
  now apply order_arith.
Qed.

Lemma scaled_finite_sign (sg : bool) (m : positive) (e : Z) :
  -1074 <= e ->
  (sg = true -> scaled (VFloat (S754_finite sg m e)) < 0) /\
  (sg = false -> 0 < scaled (VFloat (S754_finite sg m e))).
Proof.
  intros L. pose proof (pow2_pos (e + 1074) ltac:(lia)) as P.
  assert (0 < Zpos m * 2 ^ (e + 1074)) by (apply Z.mul_pos_pos; lia).
  unfold scaled, cond_Zopp. split; intros ->.
  - rewrite Z.mul_opp_l. lia.
  - lia.
Qed.

Lemma SFcompare_scaled (x y : float) :
  finite_float x = true -> finite_float y = true ->
  SFcompare x y = Some (scaled (VFloat x) ?= scaled (VFloat y)).
Proof.
  intros Hx Hy.
  destruct x as [sx| | |sx mx ex]; try discriminate;
    destruct y as [sy| | |sy my ey]; try discriminate;
    cbn [finite_float] in Hx, Hy.
  - reflexivity.
  - destruct (bounded_facts _ _ Hy) as (L & _).
    destruct (scaled_finite_sign sy my ey L) as [Sn Sp].
    unfold SFcompare. f_equal. change (scaled (VFloat (S754_zero sx))) with 0.
    symmetry. destruct sy.
    + apply Z.compare_gt_iff. now apply Sn.
    + apply Z.compare_lt_iff. now apply Sp.
  - destruct (bounded_facts _ _ Hx) as (L & _).
    destruct (scaled_finite_sign sx mx ex L) as [Sn Sp].
    unfold SFcompare. f_equal. change (scaled (VFloat (S754_zero sy))) with 0.
    symmetry. destruct sx.
    + apply Z.compare_lt_iff. now apply Sn.
    + apply Z.compare_gt_iff. now apply Sp.
  - destruct (bounded_facts _ _ Hx) as (Lx & _).
    destruct (bounded_facts _ _ Hy) as (Ly & _).
    destruct (scaled_finite_sign sx mx ex Lx) as [Snx Spx].
    destruct (scaled_finite_sign sy my ey Ly) as [Sny Spy].
    pose proof (pow2_pos (ex + 1074) ltac:(lia)) as Px.
    unfold SFcompare. f_equal. symmetry.
    destruct sx, sy.
    + specialize (Snx eq_refl). specialize (Sny eq_refl).
      unfold scaled, cond_Zopp in *. rewrite !Z.mul_opp_l in *.
      destruct (Z.compare_spec ex ey) as [E|E|E].
      * subst ey. rewrite Pos.compare_cont_spec. cbn [Pos.switch_Eq].
        change (Pos.compare mx my) with (Zpos mx ?= Zpos my).
        destruct (Z.compare_spec (Zpos mx) (Zpos my)) as [E|E|E]; cbn [CompOpp].
        -- rewrite E. apply Z.compare_refl.
        -- apply Z.compare_gt_iff.
           assert (Zpos mx * 2 ^ (ex + 1074) < Zpos my * 2 ^ (ex + 1074))
             by (apply Z.mul_lt_mono_pos_r; lia). lia.
        -- apply Z.compare_lt_iff.
           assert (Zpos my * 2 ^ (ex + 1074) < Zpos mx * 2 ^ (ex + 1074))
             by (apply Z.mul_lt_mono_pos_r; lia). lia.
      * apply Z.compare_gt_iff.
        pose proof (canonical_exponent_order _ _ _ _ Hx Hy E). lia.
      * apply Z.compare_lt_iff.
        pose proof (canonical_exponent_order _ _ _ _ Hy Hx E). lia.
    + apply Z.compare_lt_iff. specialize (Snx eq_refl). specialize (Spy eq_refl). lia.
    + apply Z.compare_gt_iff. specialize (Spx eq_refl). specialize (Sny eq_refl). lia.
    + unfold scaled, cond_Zopp.
      destruct (Z.compare_spec ex ey) as [E|E|E].
      * subst ey. rewrite Pos.compare_cont_spec. cbn [Pos.switch_Eq].
        change (Pos.compare mx my) with (Zpos mx ?= Zpos my).
        destruct (Z.compare_spec (Zpos mx) (Zpos my)) as [E|E|E].
        -- rewrite E. apply Z.compare_refl.
        -- apply Z.compare_lt_iff. apply Z.mul_lt_mono_pos_r; lia.
        -- apply Z.compare_gt_iff. apply Z.mul_lt_mono_pos_r; lia.
      * apply Z.compare_lt_iff. now apply canonical_exponent_order.
      * apply Z.compare_gt_iff. now apply canonical_exponent_order.
Qed.

Lemma Z_compare_scale (a b k : Z) : 0 < k -> (a * k ?= b * k) = (a ?= b).
Proof.
  intros Hk. destruct (Z.compare_spec a b) as [E|E|E].
  - subst. apply Z.compare_refl.
  - apply Z.compare_lt_iff. apply Z.mul_lt_mono_pos_r; lia.
  - apply Z.compare_gt_iff. apply Z.mul_lt_mono_pos_r; lia.
Qed.

(** The exact comparison of an [int] with a [float] is the one of the
    numbers. *)
Lemma Z_compare_float_scaled (z : Z) (f : float) :
  finite_float f = true ->
  Z_compare_float z f = Some (scaled (VInt z) ?= scaled (VFloat f)).
Proof.
  intros Hf. destruct f as [sg| | |sg m e]; try discriminate; cbn [finite_float] in Hf.
  - unfold Z_compare_float, scaled. f_equal.
    rewrite <- (Z_compare_scale z 0 (2 ^ 1074)) by (apply pow2_pos; lia). reflexivity.
  - destruct (bounded_facts _ _ Hf) as (L & _).
    unfold Z_compare_float, scaled. f_equal.
    destruct (Z.leb_spec 0 e) as [He|He].
    + replace (e + 1074) with (e + 1074) by lia.
      rewrite (pow2_split e 1074) by lia. rewrite Z.mul_assoc.
      symmetry. apply Z_compare_scale. apply pow2_pos; lia.
    + replace (z * 2 ^ 1074) with (z * 2 ^ (- e) * 2 ^ (e + 1074)).
      * symmetry. apply Z_compare_scale. apply pow2_pos; lia.
      * rewrite <- Z.mul_assoc. f_equal. rewrite <- pow2_split by lia. f_equal. lia.
Qed.

(** On admissible numbers [<] is the order of the numbers. *)
Lemma py_lt_scaled (a b : value) :
  admissible a = true -> admissible b = true ->
  is_str a = false -> is_str b = false ->
  py_lt a b = Ok (scaled a <? scaled b).
Proof.
  intros Ha Hb Sa Sb.
  destruct a as [x|x|x]; try discriminate; destruct b as [y|y|y]; try discriminate;
    cbn [admissible] in Ha, Hb; unfold py_lt.
  - f_equal. unfold scaled, Z.ltb.
    rewrite (Z_compare_scale x y (2 ^ 1074)); [reflexivity|apply pow2_pos; lia].
  - rewrite (Z_compare_float_scaled x y Hb). reflexivity.
  - rewrite (Z_compare_float_scaled y x Ha). unfold Z.ltb.
    rewrite (Z.compare_antisym (scaled (VInt y)) (scaled (VFloat x))).
    now destruct (scaled (VInt y) ?= scaled (VFloat x)).
  - unfold SFltb. rewrite (SFcompare_scaled x y Ha Hb). reflexivity.
Qed.

(** Shifting a mantissa left. *)
Lemma iter_xO_value (m d : positive) :
  Zpos (Pos.iter xO m d) = Zpos m * 2 ^ Zpos d.
Proof.
  induction d as [|d IH] using Pos.peano_ind.
  - simpl. lia.
  - rewrite Pos.iter_succ, Pos2Z.inj_succ, Z.pow_succ_r by lia.
    rewrite (Pos2Z.inj_xO (Pos.iter xO m d)), IH. lia.
Qed.

Lemma shl_align_value (m : positive) (e e' : Z) :
  e' <= e ->
  Zpos (fst (shl_align m e e')) = Zpos m * 2 ^ (e - e') /\
  snd (shl_align m e e') = e'.
Proof.
  intros He. unfold shl_align.
  destruct (e' - e) as [|d|d] eqn:E; cbn [fst snd].
  - replace (e - e') with 0 by lia. split; lia.
  - lia.
  - rewrite iter_xO_value. replace (e - e') with (Zpos d) by lia. split; lia.
Qed.

(** One shift to the right halves the mantissa. *)
Lemma shr_1_m (r : shr_record) :
  0 <= shr_m r -> shr_m (shr_1 r) = shr_m r / 2.
Proof.
  destruct r as [m rb sb]. cbn [shr_m]. intros Hm. unfold shr_1.
  destruct m as [|p|p]; [reflexivity| |lia].
  destruct p as [p|p|]; cbn [shr_m].
  - rewrite (Pos2Z.inj_xI p). apply Z.div_unique with (r := 1); lia.
  - rewrite (Pos2Z.inj_xO p). apply Z.div_unique with (r := 0); lia.
  - reflexivity.
Qed.

Lemma div_div_pow2 (a j k : Z) :
  0 <= j -> 0 <= k -> a / 2 ^ j / 2 ^ k = a / 2 ^ (j + k).
Proof.
  intros Hj Hk. pose proof (pow2_pos j Hj). pose proof (pow2_pos k Hk).
  rewrite Z.div_div by lia. now rewrite pow2_split.
Qed.

Lemma shr_iter_m (k : positive) : forall r,
  0 <= shr_m r ->
  shr_m (iter_pos shr_1 k r) = shr_m r / 2 ^ Zpos k.
Proof.
  induction k as [k IH|k IH|]; intros r Hr; cbn [iter_pos].
  - assert (H1 : 0 <= shr_m (shr_1 r)).
    { rewrite shr_1_m by exact Hr. apply Z.div_pos; lia. }
    assert (H2 : 0 <= shr_m (iter_pos shr_1 k (shr_1 r))).
    { rewrite IH by exact H1. apply Z.div_pos; [exact H1|]. apply pow2_pos; lia. }
    rewrite IH by exact H2. rewrite IH by exact H1. rewrite shr_1_m by exact Hr.
    change 2 with (2 ^ 1) at 1. rewrite !div_div_pow2 by lia.
    f_equal. f_equal. rewrite (Pos2Z.inj_xI k). lia.
  - assert (H2 : 0 <= shr_m (iter_pos shr_1 k r)).
    { rewrite IH by exact Hr. apply Z.div_pos; [exact Hr|]. apply pow2_pos; lia. }
    rewrite IH by exact H2. rewrite IH by exact Hr.
    rewrite div_div_pow2 by lia.
    f_equal. f_equal. rewrite (Pos2Z.inj_xO k). lia.
  - rewrite shr_1_m by exact Hr. reflexivity.
Qed.

Lemma shr_record_of_loc_m (m : Z) (l : location) : shr_m (shr_record_of_loc m l) = m.
Proof. destruct l as [|[| |]]; reflexivity. Qed.

(** A positive mantissa at an exponent not below the least one stays
    positive when shifted to its canonical exponent. *)
Lemma shr_fexp_positive (m : positive) (e : Z) (l : location) :
  -1074 <= e ->
  0 < shr_m (fst (shr_fexp prec emax (Zpos m) e l)) /\
  -1074 <= snd (shr_fexp prec emax (Zpos m) e l).
Proof.
  intros He. unfold shr_fexp, shr. cbn [Zdigits2].
  set (d := Zpos (digits2_pos m)).
  destruct (fexp prec emax (d + e) - e) as [|k|k] eqn:En; cbn [fst snd].
  - rewrite shr_record_of_loc_m. lia.
  - rewrite shr_iter_m by (rewrite shr_record_of_loc_m; lia).
    rewrite shr_record_of_loc_m.
    assert (Hk : Zpos k = d - 53).
    { unfold fexp, emin, prec, emax in En. lia. }
    pose proof (digits2_pos_bounds m) as [Lo _]. fold d in Lo.
    split; [|lia].
    apply Z.lt_le_trans with (2 ^ 52); [reflexivity|].
    apply Z.div_le_lower_bound; [apply pow2_pos; lia|].
    rewrite Hk, <- pow2_split by lia.
    replace (d - 53 + 52) with (d - 1) by lia. exact Lo.
  - rewrite shr_record_of_loc_m. lia.
Qed.

Lemma round_nearest_even_positive (m : Z) (l : location) :
  0 < m -> 0 < round_nearest_even m l.
Proof.
  intros Hm. unfold round_nearest_even.
  destruct l as [|[| |]]; try lia. destruct (Z.even m); lia.
Qed.

(** Rounding a positive mantissa at an exponent not below the least one
    gives a positive number or infinity, never a zero or a NaN. *)
Lemma binary_round_aux_positive (sg : bool) (m : positive) (e : Z) (l : location) :
  -1074 <= e ->
  exists f, binary_round_aux prec emax sg (Zpos m) e l = f /\
            (f = S754_infinity sg \/ exists m' e', f = S754_finite sg m' e').
Proof.
  intros He. unfold binary_round_aux.
  destruct (shr_fexp_positive m e l He) as [P1 E1].
  destruct (shr_fexp prec emax (Zpos m) e l) as [r1 e1]. cbn [fst snd] in P1, E1.
  pose proof (round_nearest_even_positive (shr_m r1) (loc_of_shr_record r1) P1) as P2.
  destruct (round_nearest_even (shr_m r1) (loc_of_shr_record r1)) as [|m2|m2]; try lia.
  destruct (shr_fexp_positive m2 e1 loc_Exact E1) as [P3 _].
  destruct (shr_fexp prec emax (Zpos m2) e1 loc_Exact) as [r2 e2]. cbn [fst snd] in P3.
  destruct (shr_m r2) as [|m3|m3]; try lia.
  eexists; split; [reflexivity|].
  destruct (e2 <=? emax - prec); [right; eauto|now left].
Qed.

Lemma binary_round_positive (sg : bool) (m : positive) (e : Z) :
  -1074 <= e ->
  binary_round prec emax sg m e = S754_infinity sg \/
  exists m' e', binary_round prec emax sg m e = S754_finite sg m' e'.
Proof.
  intros He. unfold binary_round.
  set (fe := fexp prec emax (Zpos (digits2_pos m) + e)).
  assert (Hfe : -1074 <= fe) by (unfold fe, fexp, emin, prec, emax; lia).
  assert (Hs : -1074 <= snd (shl_align m e fe)).
  { unfold shl_align. destruct (fe - e); cbn [snd]; lia. }
  destruct (shl_align m e fe) as [mz ez]. cbn [snd] in Hs.
  destruct (binary_round_aux_positive sg mz ez loc_Exact Hs) as (f & Hf & Hc).
  rewrite Hf. exact Hc.
Qed.

Lemma cond_Zopp_mul (sg : bool) (a b : Z) : cond_Zopp sg a * b = cond_Zopp sg (a * b).
Proof. destruct sg; simpl; [apply Z.mul_opp_l|reflexivity]. Qed.

(** The integer the subtraction rounds is the difference of the numbers. *)
Lemma aligned_difference (sx sy : bool) (mx my : positive) (ex ey : Z) :
  -1074 <= ex -> -1074 <= ey ->
  let ez := Z.min ex ey in
  (cond_Zopp sx (Zpos (fst (shl_align mx ex ez)))
   - cond_Zopp sy (Zpos (fst (shl_align my ey ez)))) * 2 ^ (ez + 1074)
  = scaled (VFloat (S754_finite sx mx ex)) - scaled (VFloat (S754_finite sy my ey)).
Proof.
  intros Lx Ly ez.
  destruct (shl_align_value mx ex ez ltac:(unfold ez; lia)) as [Vx _].
  destruct (shl_align_value my ey ez ltac:(unfold ez; lia)) as [Vy _].
  rewrite Vx, Vy. unfold scaled.
  rewrite Z.mul_sub_distr_r, !cond_Zopp_mul. f_equal; f_equal.
  - rewrite <- Z.mul_assoc, <- pow2_split by (unfold ez; lia).
    do 2 f_equal. lia.
  - rewrite <- Z.mul_assoc, <- pow2_split by (unfold ez; lia).
    do 2 f_equal. lia.
Qed.

(** Subtracting a finite number from one not below it gives a positive
    number, or a zero when the two are equal; the zero is the negative
    one only for [-0.0 - 0.0]. *)
Lemma SFsub_class (x y : float) :
  finite_float x = true -> finite_float y = true ->
  scaled (VFloat y) <= scaled (VFloat x) ->
  (scaled (VFloat y) < scaled (VFloat x) ->
   positive_valued (VFloat (SFsub prec emax x y)) = true) /\
  (scaled (VFloat y) = scaled (VFloat x) ->
   SFsub prec emax x y = S754_zero false \/
   (SFsub prec emax x y = S754_zero true /\ x = S754_zero true /\ y = S754_zero false)).
Proof.
  intros Hx Hy Hle.
  destruct x as [sx| | |sx mx ex]; try discriminate;
    destruct y as [sy| | |sy my ey]; try discriminate;
    cbn [finite_float] in Hx, Hy.
  - split; [intros H; cbn in H; lia|]. intros _.
    destruct sx, sy; cbn; auto.
  - destruct (bounded_facts _ _ Hy) as (L & _).
    destruct (scaled_finite_sign sy my ey L) as [Sn Sp].
    change (scaled (VFloat (S754_zero sx))) with 0 in *.
    destruct sy; [|specialize (Sp eq_refl); lia].
    split; [reflexivity|]. specialize (Sn eq_refl). lia.
  - destruct (bounded_facts _ _ Hx) as (L & _).
    destruct (scaled_finite_sign sx mx ex L) as [Sn Sp].
    change (scaled (VFloat (S754_zero sy))) with 0 in *.
    destruct sx; [specialize (Sn eq_refl); lia|].
    split; [reflexivity|]. specialize (Sp eq_refl). lia.
  - destruct (bounded_facts _ _ Hx) as (Lx & _).
    destruct (bounded_facts _ _ Hy) as (Ly & _).
    pose proof (aligned_difference sx sy mx my ex ey Lx Ly) as HD. cbv zeta in HD.
    cbn [SFsub].
    set (D := cond_Zopp sx (Zpos (fst (shl_align mx ex (Z.min ex ey))))
              - cond_Zopp sy (Zpos (fst (shl_align my ey (Z.min ex ey))))) in *.
    pose proof (pow2_pos (Z.min ex ey + 1074) ltac:(lia)) as P.
    assert (HD0 : 0 <= D) by nia.
    destruct D as [|p|p]; [| |lia].
    + split; [intros H; lia|]. intros _. left. reflexivity.
    + split; [|intros H; lia]. intros _. cbn [binary_normalize].
      destruct (binary_round_positive false p (Z.min ex ey) ltac:(lia))
        as [->|(m' & e' & ->)]; reflexivity.
Qed.

Lemma digits2_pos_unique (p : positive) (k : Z) :
  2 ^ (k - 1) <= Zpos p < 2 ^ k -> Zpos (digits2_pos p) = k.
Proof.
  intros [Lo Hi]. pose proof (digits2_pos_bounds p) as [Lo' Hi'].
  set (d := Zpos (digits2_pos p)) in *.
  assert (Hk : 0 < k).
  { destruct (Z.ltb_spec 0 k); [assumption|]. exfalso.
    destruct (Z.eq_dec k 0) as [->|]; [simpl in Hi; lia|].
    rewrite Z.pow_neg_r in Hi by lia. lia. }
  destruct (Z.lt_trichotomy d k) as [H|[H|H]]; [|exact H|].
  - assert (2 ^ d <= 2 ^ (k - 1)) by (apply Z.pow_le_mono_r; lia). lia.
  - assert (2 ^ k <= 2 ^ (d - 1)) by (apply Z.pow_le_mono_r; lia). lia.
Qed.

Lemma shr_fexp_canonical (p : positive) (e : Z) :
  fexp prec emax (Zpos (digits2_pos p) + e) = e ->
  shr_fexp prec emax (Zpos p) e loc_Exact
  = ({| shr_m := Zpos p; shr_r := false; shr_s := false |}, e).
Proof.
  intros H. unfold shr_fexp, shr. cbn [Zdigits2]. rewrite H, Z.sub_diag. reflexivity.
Qed.

Lemma binary_round_aux_canonical (sg : bool) (p : positive) (e : Z) :
  fexp prec emax (Zpos (digits2_pos p) + e) = e -> e <= 971 ->
  binary_round_aux prec emax sg (Zpos p) e loc_Exact = S754_finite sg p e.
Proof.
  intros H He. unfold binary_round_aux.
  rewrite (shr_fexp_canonical p e H). cbn [shr_m loc_of_shr_record round_nearest_even].
  rewrite (shr_fexp_canonical p e H). cbn [shr_m].
  replace (e <=? emax - prec) with true; [reflexivity|].
  symmetry. apply Z.leb_le. unfold emax, prec. lia.
Qed.

(** An integer below 2^53 in magnitude converts exactly. *)
Lemma binary_round_small (sg : bool) (m : positive) :
  Zpos m < 2 ^ 53 ->
  exists mz ez,
    binary_round prec emax sg m 0 = S754_finite sg mz ez /\
    bounded prec emax mz ez = true /\
    Zpos mz * 2 ^ (ez + 1074) = Zpos m * 2 ^ 1074.
Proof.
  intros Hm. pose proof (digits2_pos_bounds m) as [Lo Hi].
  set (d := Zpos (digits2_pos m)) in *.
  assert (Hd : 1 <= d <= 53).
  { split; [unfold d; lia|].
    destruct (Z.leb_spec d 53); [assumption|].
    assert (2 ^ 53 <= 2 ^ (d - 1)) by (apply Z.pow_le_mono_r; lia). lia. }
  unfold binary_round. fold d. rewrite Z.add_0_r.
  assert (Hfe : fexp prec emax d = d - 53) by (unfold fexp, emin, prec, emax; lia).
  rewrite Hfe.
  destruct (shl_align_value m 0 (d - 53) ltac:(lia)) as [Vm Ve].
  destruct (shl_align m 0 (d - 53)) as [mz ez]. cbn [fst snd] in Vm, Ve. subst ez.
  replace (0 - (d - 53)) with (53 - d) in Vm by lia.
  assert (Hdz : Zpos (digits2_pos mz) = 53).
  { apply digits2_pos_unique. rewrite Vm. split.
    - replace (53 - 1) with ((d - 1) + (53 - d)) by lia. rewrite pow2_split by lia.
      apply Z.mul_le_mono_nonneg_r; [apply Z.pow_nonneg; lia|exact Lo].
    - replace 53 with (d + (53 - d)) at 2 by lia. rewrite pow2_split by lia.
      apply Z.mul_lt_mono_pos_r; [apply pow2_pos; lia|exact Hi]. }
  assert (Hc : fexp prec emax (Zpos (digits2_pos mz) + (d - 53)) = d - 53).
  { rewrite Hdz. unfold fexp, emin, prec, emax. lia. }
  exists mz, (d - 53). repeat split.
  - apply binary_round_aux_canonical; [exact Hc|lia].
  - unfold bounded, canonical_mantissa. rewrite Hc, Z.eqb_refl. cbn [andb].
    apply Z.leb_le. unfold emax, prec. lia.
  - rewrite Vm, <- Z.mul_assoc, <- pow2_split by lia. do 2 f_equal. lia.
Qed.

Lemma float_of_Z_small (z : Z) :
  Z.abs z < 2 ^ 53 ->
  exists f,
    float_of_Z z = Ok f /\ finite_float f = true /\
    scaled (VFloat f) = scaled (VInt z) /\ f <> S754_zero true.
Proof.
  intros Hz. unfold float_of_Z. destruct z as [|m|m]; cbn [binary_normalize].
  - exists (S754_zero false). repeat split. discriminate.
  - destruct (binary_round_small false m Hz) as (mz & ez & -> & Hb & Hv).
    exists (S754_finite false mz ez). repeat split; [exact Hb|exact Hv|discriminate].
  - destruct (binary_round_small true m Hz) as (mz & ez & -> & Hb & Hv).
    exists (S754_finite true mz ez). repeat split; [exact Hb| |discriminate].
    unfold scaled, cond_Zopp. rewrite Z.mul_opp_l, Hv.
    change (Z.neg m) with (- Zpos m). now rewrite Z.mul_opp_l.
Qed.

(** ** Subtraction on admissible values *)

Lemma scaled_int (z : Z) : scaled (VInt z) = z * 2 ^ 1074.
Proof. reflexivity. Qed.

Lemma py_sub_class (x m : value) :
  admissible x = true -> admissible m = true ->
  is_str x = false -> is_str m = false ->
  scaled m <= scaled x ->
  exists r,
    py_sub x m = Ok r /\ is_str r = false /\
    (scaled m < scaled x -> positive_valued r = true) /\
    (scaled m = scaled x ->
     zero_valued r = true /\
     (r = VFloat (S754_zero true) -> x = VFloat (S754_zero true))) /\
    (is_float m = true -> is_float r = true) /\
    (is_float r = false -> r = VInt ((scaled x - scaled m) / 2 ^ 1074)).
Proof.
  intros Ax Am Sx Sm Hle.
  pose proof (pow2_pos 1074 ltac:(lia)) as P.
  assert (Hfloat : forall fx fm,
             finite_float fx = true -> finite_float fm = true ->
             scaled (VFloat fm) <= scaled (VFloat fx) ->
             fx <> S754_zero true \/ fm <> S754_zero false ->
             (scaled (VFloat fm) < scaled (VFloat fx) ->
              positive_valued (VFloat (SFsub prec emax fx fm)) = true) /\
             (scaled (VFloat fm) = scaled (VFloat fx) ->
              zero_valued (VFloat (SFsub prec emax fx fm)) = true /\
              VFloat (SFsub prec emax fx fm) <> VFloat (S754_zero true))).
  { intros fx fm Hfx Hfm Hl Hnz.
    destruct (SFsub_class fx fm Hfx Hfm Hl) as [Hp Hz]. split; [exact Hp|].
    intros E. destruct (Hz E) as [->|(-> & -> & ->)].
    - split; [reflexivity|discriminate].
    - destruct Hnz; congruence. }
  destruct x as [x|x|x]; try discriminate; destruct m as [m|m|m]; try discriminate;
    cbn [admissible] in Ax, Am; cbn [py_sub].
  - exists (VInt (x - m)). rewrite !scaled_int in *.
    assert (Hxm : m <= x) by nia.
    split; [reflexivity|]. split; [reflexivity|]. split; [|split; [|split]].
    + intros H. assert (m < x) by nia. destruct (x - m) eqn:E; simpl; lia.
    + intros H. assert (x = m) by nia. subst. rewrite Z.sub_diag.
      split; [reflexivity|discriminate].
    + discriminate.
    + intros _. f_equal. rewrite <- Z.mul_sub_distr_r. symmetry. apply Z.div_mul. lia.
  - destruct (float_of_Z_small x ltac:(apply Z.ltb_lt; exact Ax)) as (fx & -> & Hfx & Sfx & Nz).
    cbn [bind]. rewrite <- Sfx in *.
    destruct (Hfloat fx m Hfx Am Hle (or_introl Nz)) as [Hp Hz].
    exists (VFloat (SFsub prec emax fx m)).
    split; [reflexivity|]. split; [reflexivity|]. split; [exact Hp|split; [|split]].
    + intros E. destruct (Hz E) as [Hz1 Hz2]. split; [exact Hz1|]. intros Er. congruence.
    + reflexivity.
    + discriminate.
  - destruct (float_of_Z_small m ltac:(apply Z.ltb_lt; exact Am)) as (fm & -> & Hfm & Sfm & Nz).
    cbn [bind]. rewrite <- Sfm in *.
    pose proof (SFsub_class x fm Ax Hfm Hle) as [Hp Hz].
    exists (VFloat (SFsub prec emax x fm)).
    split; [reflexivity|]. split; [reflexivity|]. split; [exact Hp|split; [|split]].
    + intros E. destruct (Hz E) as [->|(-> & -> & _)].
      * split; [reflexivity|discriminate].
      * split; reflexivity.
    + discriminate.
    + discriminate.
  - pose proof (SFsub_class x m Ax Am Hle) as [Hp Hz].
    exists (VFloat (SFsub prec emax x m)).
    split; [reflexivity|]. split; [reflexivity|]. split; [exact Hp|split; [|split]].
    + intros E. destruct (Hz E) as [->|(-> & -> & _)].
      * split; [reflexivity|discriminate].
      * split; reflexivity.
    + reflexivity.
    + discriminate.
Qed.

(** ** The minimum of admissible values *)

Lemma py_lt_zero_positive (z c : value) :
  zero_valued z = true -> positive_valued c = true -> py_lt z c = Ok true.
Proof.
  intros Hz Hc.
  destruct z as [[| |]|[sz| | |]|]; try discriminate;
    destruct c as [[|p|]|[|[|]| |[|] m e]|]; try discriminate; try reflexivity.
  unfold py_lt, Z_compare_float, cond_Zopp. destruct (0 <=? e) eqn:E; [|reflexivity].
  apply Z.leb_le in E. pose proof (pow2_pos e E).
  replace (0 ?= Zpos m * 2 ^ e) with Lt; [reflexivity|].
  symmetry. apply Z.compare_lt_iff. lia.
Qed.

Lemma py_lt_nonneg_zero (x z : value) :
  positive_valued x = true \/ zero_valued x = true ->
  zero_valued z = true -> py_lt x z = Ok false.
Proof.
  intros Hx Hz.
  destruct z as [[| |]|[sz| | |]|]; try discriminate;
    destruct x as [[|p|]|[|[|]| |[|] m e]|]; destruct Hx as [Hx|Hx];
    try discriminate; try reflexivity.
  unfold py_lt, Z_compare_float, cond_Zopp. destruct (0 <=? e) eqn:E; [|reflexivity].
  apply Z.leb_le in E. pose proof (pow2_pos e E).
  replace (0 ?= Zpos m * 2 ^ e) with Lt; [reflexivity|].
  symmetry. apply Z.compare_lt_iff. lia.
Qed.

Lemma py_lt_defined (a b : value) :
  is_str a = false -> is_str b = false -> exists c, py_lt a b = Ok c.
Proof.
  intros Ha Hb. destruct a, b; try discriminate; eexists; reflexivity.
Qed.

Lemma positive_not_str (v : value) : positive_valued v = true -> is_str v = false.
Proof. now destruct v. Qed.

Lemma zero_not_str (v : value) : zero_valued v = true -> is_str v = false.
Proof. now destruct v. Qed.

Lemma min_loop_app (a b : list value) : forall cur,
  min_loop cur (a ++ b) = (c <- min_loop cur a ;; min_loop c b).
Proof.
  induction a as [|x a IH]; intros cur; [reflexivity|].
  simpl. destruct (py_lt x cur); try reflexivity. simpl. apply IH.
Qed.

Lemma min_loop_positive (l : list value) : forall cur,
  positive_valued cur = true -> Forall (fun x => positive_valued x = true) l ->
  exists c, min_loop cur l = Ok c /\ positive_valued c = true.
Proof.
  induction l as [|x l IH]; intros cur Hc Hl; [now exists cur|].
  inversion Hl as [|? ? Hx Hl']; subst. simpl.
  destruct (py_lt_defined x cur (positive_not_str _ Hx) (positive_not_str _ Hc)) as (b & ->).
  simpl. apply IH; [now destruct b|exact Hl'].
Qed.

Lemma min_loop_zero (l : list value) (z : value) :
  zero_valued z = true ->
  Forall (fun x => positive_valued x = true \/ zero_valued x = true) l ->
  min_loop z l = Ok z.
Proof.
  intros Hz. induction 1 as [|x l Hx Hl IH]; [reflexivity|].
  simpl. rewrite (py_lt_nonneg_zero x z Hx Hz). simpl. exact IH.
Qed.

(** After positive numbers, a zero, and numbers that are not negative,
    the minimum is that zero. *)
Lemma py_min_positive_zero (pre post : list value) (z : value) :
  Forall (fun x => positive_valued x = true) pre ->
  zero_valued z = true ->
  Forall (fun x => positive_valued x = true \/ zero_valued x = true) post ->
  py_min (pre ++ z :: post) = Ok z.
Proof.
  intros Hpre Hz Hpost. destruct pre as [|c pre]; simpl.
  - now apply min_loop_zero.
  - inversion Hpre as [|? ? Hc Hpre']; subst.
    rewrite min_loop_app.
    destruct (min_loop_positive pre c Hc Hpre') as (c' & -> & Hc'). simpl.
    rewrite (py_lt_zero_positive z c' Hz Hc'). simpl. now apply min_loop_zero.
Qed.

(** Subtracting the integer 0, or the float 0.0 from a float, changes
    nothing. *)
Lemma py_sub_zero (v z : value) :
  is_str v = false ->
  z = VInt 0 \/ (z = VFloat (S754_zero false) /\ is_float v = true) ->
  py_sub v z = Ok v.
Proof.
  intros Hv [->|[-> Hf]]; destruct v as [x|f|t]; try discriminate; simpl.
  - now rewrite Z.sub_0_r.
  - f_equal. f_equal. destruct f as [[|]|[|]| |]; reflexivity.
  - f_equal. f_equal. destruct f as [[|]|[|]| |]; reflexivity.
Qed.

(** The minimum is the first least element. *)
Lemma min_loop_first_min (l : list value) : forall cur,
  adm_num cur -> Forall adm_num l ->
  exists m,
    min_loop cur l = Ok m /\
    ((m = cur /\ Forall (fun x => scaled cur <= scaled x) l) \/
     (exists pre post,
         l = (pre ++ m :: post)%list /\ scaled m < scaled cur /\
         Forall (fun x => scaled m < scaled x) pre /\
         Forall (fun x => scaled m <= scaled x) post)).
Proof.
  induction l as [|x l IH]; intros cur Hc Hl.
  - exists cur. split; [reflexivity|]. left. split; [reflexivity|constructor].
  - inversion Hl as [|? ? Hx Hl']; subst. simpl.
    rewrite (py_lt_scaled x cur (proj1 Hx) (proj1 Hc) (proj2 Hx) (proj2 Hc)). simpl.
    destruct (Z.ltb_spec (scaled x) (scaled cur)) as [Hlt|Hge].
    + destruct (IH x Hx Hl') as (m & Hm & [[-> Hall]|(pre & post & -> & Hmx & Hpre & Hpost)]).
      * exists x. split; [exact Hm|]. right. exists [], l. repeat split; auto.
      * exists m. split; [exact Hm|]. right. exists (x :: pre), post.
        repeat split; try assumption; [lia|]. constructor; [lia|exact Hpre].
    + destruct (IH cur Hc Hl') as (m & Hm & [[-> Hall]|(pre & post & -> & Hmc & Hpre & Hpost)]).
      * exists cur. split; [exact Hm|]. left. split; [reflexivity|].
        constructor; [lia|exact Hall].
      * exists m. split; [exact Hm|]. right. exists (x :: pre), post.
        repeat split; try assumption. constructor; [lia|exact Hpre].
Qed.

Lemma py_min_first_min (L : list value) :
  L <> [] -> Forall adm_num L ->
  exists m pre post,
    py_min L = Ok m /\ L = (pre ++ m :: post)%list /\ adm_num m /\
    Forall (fun x => scaled m < scaled x) pre /\
    Forall (fun x => scaled m <= scaled x) post.
Proof.
  intros Hne Hall. destruct L as [|x l]; [congruence|].
  inversion Hall as [|? ? Hx Hl]; subst.
  destruct (min_loop_first_min l x Hx Hl)
    as (m & Hm & [[-> Hge]|(pre & post & -> & Hmx & Hpre & Hpost)]).
  - exists x, [], l. repeat split; auto; apply Hx.
  - exists m, (x :: pre), post. 
    assert (Hmadm : adm_num m).
    { rewrite Forall_forall in Hl. apply Hl. apply in_or_app. right. now left. }
    repeat split; try assumption; try apply Hmadm. constructor; assumption.
Qed.

Lemma sub_val_ok (m v r : value) :
  is_str v = false -> py_sub v m = Ok r -> sub_val m v = r.
Proof. intros Hv Hr. unfold sub_val. now rewrite Hv, Hr. Qed.

(** Admissible numbers settle. *)
Lemma admissible_settles (L : list value) :
  L <> [] -> Forall adm_num L -> axis_settles L.
Proof.
  intros Hne Hall.
  destruct (py_min_first_min L Hne Hall) as (m & pre & post & Hmin & HL & Hm & Hpre & Hpost).
  assert (HallL : forall v, In v L -> adm_num v /\ scaled m <= scaled v).
  { intros v Hin. rewrite Forall_forall in Hall. split; [now apply Hall|].
    rewrite HL in Hin. apply in_app_or in Hin. destruct Hin as [Hin|[<-|Hin]].
    - rewrite Forall_forall in Hpre. specialize (Hpre v Hin). lia.
    - lia.
    - rewrite Forall_forall in Hpost. now apply Hpost. }
  assert (Hcls : forall v, In v L ->
             exists r, py_sub v m = Ok r /\ sub_val m v = r /\ is_str r = false /\
                       (scaled m < scaled v -> positive_valued r = true) /\
                       (scaled m = scaled v ->
                        zero_valued r = true /\
                        (r = VFloat (S754_zero true) -> v = VFloat (S754_zero true))) /\
                       (is_float m = true -> is_float r = true)).
  { intros v Hin. destruct (HallL v Hin) as [[Av Sv] Hle].
    destruct (py_sub_class v m Av (proj1 Hm) Sv (proj2 Hm) Hle)
      as (r & Hr & Hs & Hp & Hz & Hf & _).
    exists r. repeat split; try assumption; try (now apply Hz).
    now apply sub_val_ok. }
  (* the value left at the position of the minimum *)
  assert (Hmin_in : In m L) by (rewrite HL; apply in_or_app; right; now left).
  destruct (Hcls m Hmin_in) as (z & Hz & Hzv & Hzs & _ & Hzz & Hzf).
  destruct (Hzz eq_refl) as [Hzero Hneg].
  assert (Hzform : z = VInt 0 \/ (z = VFloat (S754_zero false) /\ is_float m = true)).
  { destruct m as [mi|mf|mt]; [| |destruct Hm; discriminate].
    - left. simpl in Hz. inversion Hz. now rewrite Z.sub_diag.
    - right. split; [|reflexivity].
      specialize (Hzf eq_refl).
      destruct z as [|[[|]| | |]|]; try discriminate; [|reflexivity].
      specialize (Hneg eq_refl). inversion Hneg; subst.
      simpl in Hz. discriminate. }
  exists m, z. split; [exact Hmin|]. split.
  { intros v Hin. destruct (Hcls v Hin) as (r & Hr & _). now exists r. }
  assert (HL1 : map (sub_val m) L
                = (map (sub_val m) pre ++ z :: map (sub_val m) post)%list).
  { rewrite HL, map_app. simpl. now rewrite Hzv. }
  split; [|split; [exact Hzero|]].
  - rewrite HL1. apply py_min_positive_zero; [|exact Hzero|].
    + apply Forall_forall. intros r Hin. apply in_map_iff in Hin.
      destruct Hin as (v & <- & Hin).
      assert (HinL : In v L) by (rewrite HL; apply in_or_app; now left).
      destruct (Hcls v HinL) as (r & _ & -> & _ & Hp & _).
      apply Hp. rewrite Forall_forall in Hpre. now apply Hpre.
    + apply Forall_forall. intros r Hin. apply in_map_iff in Hin.
      destruct Hin as (v & <- & Hin).
      assert (HinL : In v L) by (rewrite HL; apply in_or_app; right; now right).
      destruct (Hcls v HinL) as (r & _ & -> & _ & Hp & Hq & _).
      rewrite Forall_forall in Hpost. specialize (Hpost v Hin).
      destruct (Z.eq_dec (scaled m) (scaled v)) as [E|E].
      * right. now apply Hq.
      * left. apply Hp. lia.
  - intros r Hin. apply in_map_iff in Hin. destruct Hin as (v & <- & Hin).
    destruct (Hcls v Hin) as (r & _ & -> & Hs & _ & _ & Hf).
    apply py_sub_zero; [exact Hs|].
    destruct Hzform as [->|[-> Hmf]]; [now left|right]. split; [reflexivity|now apply Hf].
Qed.

(** ** orient on integer coordinates *)

Lemma min_loop_int (l : list value) : forall c,
  Forall (fun v => is_str v = false /\ is_float v = false) l ->
  exists m, min_loop (VInt c) l = Ok (VInt m) /\ In (VInt m) (VInt c :: l) /\
            forall z, In (VInt z) (VInt c :: l) -> m <= z.
Proof.
  induction l as [|x l IH]; intros c Hl; simpl.
  - exists c. repeat split; [now left|]. intros z [H|[]]. inversion H; lia.
  - inversion Hl as [|? ? [Hs Hf] Hl']; subst.
    destruct x as [x|f|t]; try discriminate. simpl.
    destruct (IH (if x <? c then x else c) Hl') as (m & Hm & Hin & Hle).
    assert (E : (if x <? c then VInt x else VInt c) = VInt (if x <? c then x else c))
      by now destruct (x <? c).
    rewrite E. exists m. repeat split; [exact Hm| |].
    + destruct Hin as [Hin|Hin]; [|now right; right].
      inversion Hin as [Hm']. destruct (Z.ltb_spec x c).
      * right; left. reflexivity.
      * left. reflexivity.
    + intros z [Hz|[Hz|Hz]].
      * inversion Hz; subst.
        assert (m <= (if x <? z then x else z)) by (apply Hle; now left).
        destruct (Z.ltb_spec x z); lia.
      * inversion Hz; subst.
        assert (m <= (if z <? c then z else c)) by (apply Hle; now left).
        destruct (Z.ltb_spec z c); lia.
      * apply Hle. now right.
Qed.

Lemma py_min_int (l : list value) :
  l <> [] ->
  Forall (fun v => is_str v = false /\ is_float v = false) l ->
  exists m, py_min l = Ok (VInt m) /\ In (VInt m) l /\
            forall z, In (VInt z) l -> m <= z.
Proof.
  intros Hne Hl. destruct l as [|x l]; [congruence|].
  inversion Hl as [|? ? [Hs Hf] Hl']; subst.
  destruct x as [x|f|t]; try discriminate. simpl. now apply min_loop_int.
Qed.

Lemma no_float_not_str k ls :
  no_float k ls ->
  Forall (fun v => is_str v = false /\ is_float v = false) (not_str (axis_args k ls)).
Proof.
  unfold no_float, not_str. rewrite !Forall_forall. intros H v Hin.
  apply filter_In in Hin. destruct Hin as [Hin Hs]. split.
  - now destruct (is_str v).
  - now apply H.
Qed.

Lemma sub_val_int (m x : Z) : sub_val (VInt m) (VInt x) = VInt (x - m).
Proof. reflexivity. Qed.

Lemma Forall_sub_int m l :
  Forall (fun v => is_str v = false /\ is_float v = false) l ->
  Forall (fun v => is_str v = false /\ is_float v = false) (map (sub_int m) l).
Proof.
  induction 1 as [|v l Hv Hl IH]; simpl; constructor; [|exact IH].
  now destruct v.
Qed.

(** Moving integers by their least one leaves 0 as the least one. *)
Lemma py_min_shifted m l :
  Forall (fun v => is_str v = false /\ is_float v = false) l ->
  In (VInt m) l -> (forall z, In (VInt z) l -> m <= z) ->
  py_min (map (sub_int m) l) = Ok (VInt 0).
Proof.
  intros Hl Hin Hle.
  destruct (py_min_int (map (sub_int m) l)) as (m' & Hm' & Hin' & Hle').
  - destruct l; [contradiction|discriminate].
  - now apply Forall_sub_int.
  - rewrite Hm'. do 2 f_equal.
    assert (H0 : m' <= 0).
    { apply Hle'. apply in_map_iff. exists (VInt m). split; [|exact Hin].
      simpl. f_equal. lia. }
    apply in_map_iff in Hin'. destruct Hin' as (v & Hv & Hvin).
    rewrite Forall_forall in Hl. destruct (Hl v Hvin) as [Hs Hf].
    destruct v as [x|f|t]; try discriminate. simpl in Hv. inversion Hv.
    specialize (Hle x Hvin). lia.
Qed.

(** Integers of any size settle: their subtraction is exact. *)
Lemma int_settles (L : list value) :
  L <> [] -> Forall (fun v => is_str v = false /\ is_float v = false) L ->
  axis_settles L.
Proof.
  intros Hne Hall.
  destruct (py_min_int L Hne Hall) as (m & Hm & Hin & Hle).
  assert (Hmap : map (sub_val (VInt m)) L = map (sub_int m) L).
  { apply map_ext_in. intros v Hv. rewrite Forall_forall in Hall.
    destruct (Hall v Hv) as [Hs Hf]. now destruct v. }
  exists (VInt m), (VInt 0). split; [exact Hm|]. split; [|split; [|split]].
  - intros v Hv. rewrite Forall_forall in Hall. destruct (Hall v Hv) as [Hs Hf].
    destruct v as [x|f|t]; try discriminate. eexists; reflexivity.
  - rewrite Hmap. now apply py_min_shifted.
  - reflexivity.
  - rewrite Hmap. intros v' Hv'. apply in_map_iff in Hv'.
    destruct Hv' as (v & <- & Hv). rewrite Forall_forall in Hall.
    destruct (Hall v Hv) as [Hs Hf]. destruct v as [x|f|t]; try discriminate.
    simpl. now rewrite Z.sub_0_r.
Qed.

(** ** orient, once and twice *)

Lemma is_str_sub_val (m v : value) : is_str (sub_val m v) = is_str v.
Proof.
  unfold sub_val. destruct (is_str v) eqn:E; [exact E|].
  destruct (py_sub v m) as [r| |] eqn:Er; try exact E.
  destruct v, m; simpl in Er; try discriminate;
    repeat match type of Er with
           | context [float_of_Z ?z] => destruct (float_of_Z z); simpl in Er; try discriminate
           end; now inversion Er.
Qed.

Lemma not_str_sub_val (m : value) (l : list value) :
  not_str (map (sub_val m) l) = map (sub_val m) (not_str l).
Proof.
  unfold not_str. induction l as [|v l IH]; [reflexivity|].
  simpl. rewrite is_str_sub_val. destruct (is_str v); simpl; now rewrite IH.
Qed.

Lemma param_get_shift_val_same k m c :
  param_get (shift_val k m c) k = option_map (sub_val m) (param_get c k).
Proof.
  unfold shift_val. destruct (param_get c k) as [v|] eqn:E; simpl; [|exact E].
  destruct (is_str v) eqn:Es.
  - rewrite E. unfold sub_val. now rewrite Es.
  - unfold param_get, set_param; simpl. now rewrite sdict_get_set_same.
Qed.

Lemma param_get_shift_val_other k k' m c :
  k <> k' -> param_get (shift_val k m c) k' = param_get c k'.
Proof.
  intros Hne. unfold shift_val.
  destruct (param_get c k) as [v|]; [|reflexivity].
  destruct (is_str v); [reflexivity|].
  unfold param_get, set_param; simpl. now apply sdict_get_set_other.
Qed.

Lemma translate_axis_val k m c :
  (forall v, param_get c k = Some v -> is_str v = false -> exists r, py_sub v m = Ok r) ->
  translate_axis k m c = Ok (shift_val k m c).
Proof.
  intros H. unfold translate_axis, shift_val.
  destruct (param_get c k) as [v|] eqn:E; [|reflexivity].
  destruct (is_str v) eqn:Es; [reflexivity|].
  destruct (H v eq_refl Es) as (r & Hr). rewrite Hr. simpl.
  now rewrite (sub_val_ok m v r Es Hr).
Qed.

Lemma axis_args_cons k c ls :
  axis_args k (c :: ls) =
  (match param_get c k with Some v => [v] | None => [] end ++ axis_args k ls)%list.
Proof. simpl. now destruct (param_get c k). Qed.

Lemma translate_all_val mx my ls :
  (forall v, In v (not_str (axis_args "X" ls)) -> exists r, py_sub v mx = Ok r) ->
  (forall v, In v (not_str (axis_args "Y" ls)) -> exists r, py_sub v my = Ok r) ->
  translate_all mx my ls = Ok (map (shift_both mx my) ls).
Proof.
  induction ls as [|c ls IH]; intros HX HY; [reflexivity|].
  assert (Hc : forall k m,
             (forall v, In v (not_str (axis_args k (c :: ls))) -> exists r, py_sub v m = Ok r) ->
             (forall v, param_get c k = Some v -> is_str v = false ->
                        exists r, py_sub v m = Ok r) /\
             (forall v, In v (not_str (axis_args k ls)) -> exists r, py_sub v m = Ok r)).
  { intros k m H. rewrite axis_args_cons in H. unfold not_str in *.
    rewrite filter_app in H. split.
    - intros v E Es. apply H. apply in_or_app. left. rewrite E. simpl. rewrite Es.
      now left.
    - intros v Hin. apply H. apply in_or_app. now right. }
  destruct (Hc "X" mx HX) as [HcX HX']. destruct (Hc "Y" my HY) as [HcY HY'].
  simpl. rewrite (translate_axis_val "X" mx c HcX). simpl.
  rewrite translate_axis_val.
  - simpl. rewrite (IH HX' HY'). reflexivity.
  - intros v E. rewrite param_get_shift_val_other in E by discriminate. now apply HcY.
Qed.

Lemma axis_args_shift_both_X mx my ls :
  axis_args "X" (map (shift_both mx my) ls) = map (sub_val mx) (axis_args "X" ls).
Proof.
  induction ls as [|c ls IH]; [reflexivity|].
  change (map (shift_both mx my) (c :: ls))
    with (shift_both mx my c :: map (shift_both mx my) ls).
  rewrite (axis_args_cons "X" c), axis_args_cons, map_app, IH. f_equal.
  unfold shift_both. rewrite param_get_shift_val_other by discriminate.
  rewrite param_get_shift_val_same. now destruct (param_get c "X").
Qed.

Lemma axis_args_shift_both_Y mx my ls :
  axis_args "Y" (map (shift_both mx my) ls) = map (sub_val my) (axis_args "Y" ls).
Proof.
  induction ls as [|c ls IH]; [reflexivity|].
  change (map (shift_both mx my) (c :: ls))
    with (shift_both mx my c :: map (shift_both mx my) ls).
  rewrite (axis_args_cons "Y" c), axis_args_cons, map_app, IH. f_equal.
  unfold shift_both. rewrite param_get_shift_val_same.
  rewrite param_get_shift_val_other by discriminate. now destruct (param_get c "Y").
Qed.

(** Moving by a value whose subtraction changes no number of the axis
    changes no command. *)
Lemma shift_val_neutral k m c :
  (forall v, param_get c k = Some v -> is_str v = false -> py_sub v m = Ok v) ->
  shift_val k m c = c.
Proof.
  intros H. unfold shift_val. destruct (param_get c k) as [v|] eqn:E; [|reflexivity].
  destruct (is_str v) eqn:Es; [reflexivity|].
  rewrite (sub_val_ok m v v Es (H v eq_refl Es)). unfold set_param.
  rewrite (sdict_set_same_value (parameters c) k v E). now destruct c.
Qed.

Lemma map_shift_both_neutral mx my ls :
  (forall v, In v (not_str (axis_args "X" ls)) -> py_sub v mx = Ok v) ->
  (forall v, In v (not_str (axis_args "Y" ls)) -> py_sub v my = Ok v) ->
  map (shift_both mx my) ls = ls.
Proof.
  induction ls as [|c ls IH]; intros HX HY; [reflexivity|].
  assert (Hc : forall k m,
             (forall v, In v (not_str (axis_args k (c :: ls))) -> py_sub v m = Ok v) ->
             (forall v, param_get c k = Some v -> is_str v = false -> py_sub v m = Ok v) /\
             (forall v, In v (not_str (axis_args k ls)) -> py_sub v m = Ok v)).
  { intros k m H. rewrite axis_args_cons in H. unfold not_str in *.
    rewrite filter_app in H. split.
    - intros v E Es. apply H. apply in_or_app. left. rewrite E. simpl. rewrite Es.
      now left.
    - intros v Hin. apply H. apply in_or_app. now right. }
  destruct (Hc "X" mx HX) as [HcX HX']. destruct (Hc "Y" my HY) as [HcY HY'].
  simpl. rewrite (IH HX' HY'). f_equal. unfold shift_both.
  rewrite (shift_val_neutral "X" mx c HcX). now apply shift_val_neutral.
Qed.

Lemma shift_both_strings mx my c k t :
  param_get c k = Some (VStr t) <-> param_get (shift_both mx my c) k = Some (VStr t).
Proof.
  unfold shift_both.
  assert (Hone : forall k0 m c0,
             param_get c0 k = Some (VStr t) <-> param_get (shift_val k0 m c0) k = Some (VStr t)).
  { intros k0 m c0. destruct (string_dec k0 k) as [->|Hne].
    - rewrite param_get_shift_val_same.
      destruct (param_get c0 k) as [v|]; simpl; [|reflexivity].
      pose proof (is_str_sub_val m v) as Hs.
      split; intros H; inversion H as [Hv].
      + subst v. reflexivity.
      + rewrite Hv in Hs. simpl in Hs.
        unfold sub_val in Hv. rewrite <- Hs in Hv. now rewrite Hv.
    - now rewrite param_get_shift_val_other. }
  rewrite <- Hone. apply Hone.
Qed.

(** When the numbers of both axes settle, [orient] succeeds and a second
    call changes nothing. *)
Lemma orient_settled (s : script) :
  axis_settles (not_str (axis_args "X" (lines s))) ->
  axis_settles (not_str (axis_args "Y" (lines s))) ->
  exists s1,
    orient s = Ok s1 /\ orient s1 = Ok s1 /\
    (exists zx, py_min (not_str (axis_args "X" (lines s1))) = Ok zx /\ zero_valued zx = true) /\
    (exists zy, py_min (not_str (axis_args "Y" (lines s1))) = Ok zy /\ zero_valued zy = true) /\
    Forall2 (fun c c1 => forall k t,
                 param_get c k = Some (VStr t) <-> param_get c1 k = Some (VStr t))
            (lines s) (lines s1).
Proof.
  intros (mx & zx & Hmx & Hsx & Hzx & Hzx0 & Hnx) (my & zy & Hmy & Hsy & Hzy & Hzy0 & Hny).
  set (ls1 := map (shift_both mx my) (lines s)).
  assert (H1 : orient_lines (lines s) = Ok ls1).
  { unfold orient_lines. rewrite Hmx, Hmy. simpl. now apply translate_all_val. }
  assert (HaX : not_str (axis_args "X" ls1)
                = map (sub_val mx) (not_str (axis_args "X" (lines s))))
    by (unfold ls1; now rewrite axis_args_shift_both_X, not_str_sub_val).
  assert (HaY : not_str (axis_args "Y" ls1)
                = map (sub_val my) (not_str (axis_args "Y" (lines s))))
    by (unfold ls1; now rewrite axis_args_shift_both_Y, not_str_sub_val).
  assert (H2 : orient_lines ls1 = Ok ls1).
  { unfold orient_lines. rewrite HaX, HaY, Hzx, Hzy. simpl.
    rewrite translate_all_val.
    - f_equal. apply map_shift_both_neutral.
      + rewrite HaX. exact Hnx.
      + rewrite HaY. exact Hny.
    - rewrite HaX. intros v Hv. exists v. now apply Hnx.
    - rewrite HaY. intros v Hv. exists v. now apply Hny. }
  exists (with_lines s ls1). unfold orient. rewrite H1. simpl. rewrite H2. simpl.
  split; [reflexivity|]. split; [reflexivity|]. split; [|split].
  - exists zx. rewrite HaX. now split.
  - exists zy. rewrite HaY. now split.
  - unfold ls1. clear. induction (lines s) as [|c l IH]; simpl; constructor; [|exact IH].
    intros k t. apply shift_both_strings.
Qed.

Lemma axis_settles_cases (k : string) (ls : list GCodeCommand) :
  no_float k ls \/ admissible_axis k ls ->
  not_str (axis_args k ls) <> [] ->
  axis_settles (not_str (axis_args k ls)).
Proof.
  intros [H|H] Hne.
  - apply int_settles; [exact Hne|]. now apply no_float_not_str.
  - apply admissible_settles; [exact Hne|].
    unfold admissible_axis, not_str in *. rewrite Forall_forall in *.
    intros v Hin. apply filter_In in Hin. destruct Hin as [Hin Hs]. split.
    + now apply H.
    + now destruct (is_str v).
Qed.

(** C7 (as the code has it).  On a script with at least one numeric X
    and one numeric Y, where on each axis the numeric values are all
    integers, or are integers below 2^53 in magnitude and finite floats,
    [orient] succeeds, a second call changes nothing, the least numeric
    X and the least numeric Y after the first call are zero, and a
    parameter holding a string holds the same string afterwards. *)
Theorem orient_twice (s : script) :
  no_float "X" (lines s) \/ admissible_axis "X" (lines s) ->
  no_float "Y" (lines s) \/ admissible_axis "Y" (lines s) ->
  not_str (axis_args "X" (lines s)) <> [] ->
  not_str (axis_args "Y" (lines s)) <> [] ->
  exists s1,
    orient s = Ok s1 /\ orient s1 = Ok s1 /\
    (exists zx, py_min (not_str (axis_args "X" (lines s1))) = Ok zx /\ zero_valued zx = true) /\
    (exists zy, py_min (not_str (axis_args "Y" (lines s1))) = Ok zy /\ zero_valued zy = true) /\
    Forall2 (fun c c1 => forall k t,
                 param_get c k = Some (VStr t) <-> param_get c1 k = Some (VStr t))
            (lines s) (lines s1).
Proof.
  intros HX HY HneX HneY. apply orient_settled; now apply axis_settles_cases.
Qed.

Lemma orient_twice_witness :
  exists s1,
    orient (script_of [mkCommand "G1" [("X", VInt 5); ("Y", VInt 7)] "";
                       mkCommand "G1" [("X", VFloat (S754_finite false 5629499534213120 (-51)));
                                       ("Y", VStr "a")] "";
                       mkCommand "G0" [("Y", VInt 9)] ""]) = Ok s1 /\
    orient s1 = Ok s1.
Proof.
  destruct (orient_twice
              (script_of [mkCommand "G1" [("X", VInt 5); ("Y", VInt 7)] "";
                          mkCommand "G1" [("X", VFloat (S754_finite false 5629499534213120 (-51)));
                                          ("Y", VStr "a")] "";
                          mkCommand "G0" [("Y", VInt 9)] ""]))
    as (s1 & H1 & H2 & _).
  - right. repeat constructor.
  - left. repeat constructor.
  - simpl. discriminate.
  - simpl. discriminate.
  - exists s1. split; assumption.
Defined.

(** C7 fails as stated: with the float X values [-inf] and [1.0] the
    first call leaves [nan] and [inf], whose minimum is [nan], and the
    second call turns [inf] into [nan]. *)
Lemma orient_twice_float_changes :
  let s := script_of [mkCommand "G1" [("X", VFloat (S754_infinity true)); ("Y", VInt 0)] "";
                      mkCommand "G1" [("X", VFloat (binary_normalize prec emax 1 0 false))] ""] in
  let s1 := script_of [mkCommand "G1" [("X", VFloat S754_nan); ("Y", VInt 0)] "";
                       mkCommand "G1" [("X", VFloat (S754_infinity false))] ""] in
  let s2 := script_of [mkCommand "G1" [("X", VFloat S754_nan); ("Y", VInt 0)] "";
                       mkCommand "G1" [("X", VFloat S754_nan)] ""] in
  not_str (axis_args "X" (lines s)) <> [] /\ not_str (axis_args "Y" (lines s)) <> [] /\
  orient s = Ok s1 /\ orient s1 = Ok s2 /\ s2 <> s1 /\
  py_min (not_str (axis_args "X" (lines s1))) = Ok (VFloat S754_nan).
Proof.
  cbv zeta. repeat split; try reflexivity; try discriminate.
Qed.

(** The bound on the integers is needed: next to the float
    9007199254740996.0 the integers 9007199254740995 and
    18014398509481988 are all finite, yet the second call turns the
    integer 9007199254740993 left by the first into 9007199254740992.0. *)
Lemma orient_twice_large_int_changes :
  let s := script_of
             [mkCommand "G1" [("X", VFloat (S754_finite false 4503599627370498 1));
                              ("Y", VInt 0)] "";
              mkCommand "G1" [("X", VInt 9007199254740995)] "";
              mkCommand "G1" [("X", VInt 18014398509481988)] ""] in
  let s1 := script_of
              [mkCommand "G1" [("X", VFloat (S754_zero false)); ("Y", VInt 0)] "";
               mkCommand "G1" [("X", VInt 0)] "";
               mkCommand "G1" [("X", VInt 9007199254740993)] ""] in
  let s2 := script_of
              [mkCommand "G1" [("X", VFloat (S754_zero false)); ("Y", VInt 0)] "";
               mkCommand "G1" [("X", VFloat (S754_zero false))] "";
               mkCommand "G1" [("X", VFloat (S754_finite false 4503599627370496 1))] ""] in
  orient s = Ok s1 /\ orient s1 = Ok s2.
Proof.
  cbv zeta. split; reflexivity.
Qed.

(** ** export *)

Lemma str_app_assoc (a b c : string) : ((a ++ b) ++ c)%string = (a ++ (b ++ c))%string.
Proof. induction a as [|x a IH]; simpl; [reflexivity|now rewrite IH]. Qed.

Lemma str_app_nil_r (a : string) : (a ++ "")%string = a.
Proof. induction a as [|x a IH]; simpl; [reflexivity|now rewrite IH]. Qed.

Lemma str_length_app (a b : string) :
  String.length (a ++ b) = (String.length a + String.length b)%nat.
Proof. induction a as [|x a IH]; simpl; [reflexivity|now rewrite IH]. Qed.

Lemma export_fold_acc io (l : list GCodeCommand) : forall acc,
  fold_left (fun result command => (result ++ getFullCommand io command ++ newline)%string)
            l acc
  = (acc ++ export_text io l)%string.
Proof.
  unfold export_text. induction l as [|c l IH]; intros acc; simpl.
  - now rewrite str_app_nil_r.
  - rewrite IH. rewrite (IH (getFullCommand io c ++ newline)%string).
    now rewrite str_app_assoc.
Qed.

Lemma export_text_app io (a b : list GCodeCommand) :
  export_text io (a ++ b) = (export_text io a ++ export_text io b)%string.
Proof.
  unfold export_text at 1. rewrite fold_left_app. fold (export_text io a).
  apply export_fold_acc.
Qed.

(** Every command contributes its newline at least. *)
Lemma export_text_length io (l : list GCodeCommand) :
  (List.length l <= String.length (export_text io l))%nat.
Proof.
  induction l as [|c l IH]; [simpl; lia|].
  change (c :: l) with ([c] ++ l)%list. rewrite export_text_app, str_length_app.
  assert (1 <= String.length (export_text io [c]))%nat.
  { unfold export_text. simpl. rewrite str_length_app. simpl. lia. }
  simpl List.length. lia.
Qed.

(** C10 (as the code has it).  [export] leaves every field but
    [prefixGcode] as it was and leaves prefix, body and suffix in
    [prefixGcode]; a second call returns the first text followed by body
    and suffix once more, which is longer, and so different, when body
    or suffix holds a command. *)
Theorem export_twice (io : float_io) (s : script) :
  (lines s ++ suffixGcode s)%list <> [] ->
  let s1 := snd (export io s) in
  let text1 := fst (export io s) in
  let text2 := fst (export io s1) in
  s1 = with_prefixGcode s (prefixGcode s ++ lines s ++ suffixGcode s) /\
  lines s1 = lines s /\ suffixGcode s1 = suffixGcode s /\
  typeIndicies s1 = typeIndicies s /\ layerIndicies s1 = layerIndicies s /\
  clearance s1 = clearance s /\ travelSpeed s1 = travelSpeed s /\
  feedSpeed s1 = feedSpeed s /\ spindleSpeed s1 = spindleSpeed s /\
  text1 = export_text io (prefixGcode s ++ lines s ++ suffixGcode s) /\
  text2 = (text1 ++ export_text io (lines s ++ suffixGcode s))%string /\
  (String.length text1 < String.length text2)%nat /\
  text2 <> text1.
Proof.
  intros Hne. cbv zeta. unfold export. simpl.
  repeat (split; [reflexivity|]).
  assert (E : export_text io
                ((prefixGcode s ++ lines s ++ suffixGcode s) ++ lines s ++ suffixGcode s)
              = (export_text io (prefixGcode s ++ lines s ++ suffixGcode s)
                 ++ export_text io (lines s ++ suffixGcode s))%string)
    by apply export_text_app.
  assert (L : (String.length (export_text io (prefixGcode s ++ lines s ++ suffixGcode s))
               < String.length
                   (export_text io
                      ((prefixGcode s ++ lines s ++ suffixGcode s) ++ lines s ++ suffixGcode s)))%nat).
  { rewrite E, str_length_app.
    pose proof (export_text_length io (lines s ++ suffixGcode s)) as Hl.
    destruct (lines s ++ suffixGcode s)%list; [congruence|]. simpl List.length in Hl. lia. }
  split; [exact E|]. split; [exact L|].
  intros Heq. rewrite Heq in L. lia.
Qed.

Lemma export_twice_witness :
  fst (export (mkFloatIO (fun _ => None) (fun _ => ""))
         (snd (export (mkFloatIO (fun _ => None) (fun _ => ""))
                 (script_of [mkCommand "G1" [("X", VInt 1); ("Y", VInt 2)] ""]))))
  <> fst (export (mkFloatIO (fun _ => None) (fun _ => ""))
            (script_of [mkCommand "G1" [("X", VInt 1); ("Y", VInt 2)] ""])).
Proof.
  apply (export_twice (mkFloatIO (fun _ => None) (fun _ => ""))
           (script_of [mkCommand "G1" [("X", VInt 1); ("Y", VInt 2)] ""])).
  simpl. discriminate.
Defined.

(** C10 fails as stated: with an empty body and an empty suffix the
    second call returns the very text of the first. *)
Lemma export_twice_same_text :
  ~ (forall (io : float_io) (s : script),
        fst (export io (snd (export io s))) <> fst (export io s)).
Proof.
  intros H.
  apply (H (mkFloatIO (fun _ => None) (fun _ => ""))
           (mkScript [] [mkCommand "G90" [] ""] [] [] []
                     (VInt 3) (VInt 500) (VInt 200) (VInt 10000))).
  reflexivity.
Qed.

(** ** Integers written and read back *)

Lemma int_digits_of_uint (d : Decimal.uint) : forall acc b,
  int_digits (NilEmpty.string_of_uint d) acc b
  = match d with
    | Decimal.Nil => if b then Some acc else None
    | _ => Some (uint_value d acc)
    end.
Proof.
  induction d; intros acc b; cbn [NilEmpty.string_of_uint uint_value];
    try reflexivity;
    (change (int_digits (String ?c ?s) acc b)
       with (int_digits s (10 * acc + digit_val c) true) ||
     (cbn [int_digits]; cbv [is_digit]; simpl nat_of_ascii; cbv iota beta));
    rewrite IHd; destruct d; reflexivity.
Qed.

Lemma uint_value_pos (d : Decimal.uint) : forall acc : positive,
  uint_value d (Zpos acc) = Zpos (Pos.of_uint_acc d acc).
Proof.
  induction d; intros acc; cbn [uint_value Pos.of_uint_acc]; try reflexivity;
    match goal with
    | |- uint_value _ ?z = Zpos (Pos.of_uint_acc _ ?p) =>
        replace z with (Zpos p) by lia
    end; apply IHd.
Qed.

Lemma uint_value_zero (d : Decimal.uint) :
  uint_value d 0 = Z.of_N (Pos.of_uint d).
Proof.
  induction d; cbn [uint_value Pos.of_uint]; try reflexivity; try exact IHd;
    match goal with
    | |- uint_value _ ?z = _ => change z with (Zpos (Z.to_pos z))
    end; rewrite uint_value_pos; reflexivity.
Qed.

Lemma int_of_string_digits (d : Decimal.uint) :
  d <> Decimal.Nil ->
  int_of_string (NilEmpty.string_of_uint d) = Some (Z.of_N (Pos.of_uint d)).
Proof.
  intros Hd.
  assert (H : int_of_string (NilEmpty.string_of_uint d)
              = int_digits (NilEmpty.string_of_uint d) 0 false)
    by (destruct d; reflexivity).
  rewrite H, int_digits_of_uint, <- uint_value_zero. destruct d; congruence.
Qed.

Lemma string_of_uint_nonnil (d : Decimal.uint) :
  d <> Decimal.Nil -> NilZero.string_of_uint d = NilEmpty.string_of_uint d.
Proof. destruct d; [congruence|reflexivity..]. Qed.

(** [int(str(z))] is [z]. *)
Lemma int_of_string_str_of_Z (z : Z) : int_of_string (str_of_Z z) = Some z.
Proof.
  unfold str_of_Z. destruct z as [|p|p]; cbn [Z.to_int NilZero.string_of_int].
  - reflexivity.
  - pose proof (DecimalPos.Unsigned.to_uint_nonnil p) as Hn.
    rewrite string_of_uint_nonnil, int_of_string_digits by exact Hn.
    now rewrite DecimalPos.Unsigned.of_to.
  - pose proof (DecimalPos.Unsigned.to_uint_nonnil p) as Hn.
    rewrite string_of_uint_nonnil by exact Hn.
    change (int_of_string (String "-" (NilEmpty.string_of_uint (Pos.to_uint p))))
      with (option_map Z.opp (int_digits (NilEmpty.string_of_uint (Pos.to_uint p)) 0 false)).
    rewrite int_digits_of_uint, uint_value_zero, DecimalPos.Unsigned.of_to.
    revert Hn. destruct (Pos.to_uint p); [congruence|reflexivity..].
Qed.

Lemma word_of_uint (d : Decimal.uint) : word (NilEmpty.string_of_uint d) = true.
Proof. induction d; cbn [NilEmpty.string_of_uint word]; try rewrite IHd; reflexivity. Qed.

(** The text of an integer is one word, and not the empty one. *)
Lemma str_of_Z_word (z : Z) : word (str_of_Z z) = true /\ str_of_Z z <> "".
Proof.
  unfold str_of_Z.
  assert (H : forall d, word (NilZero.string_of_uint d) = true /\
                        NilZero.string_of_uint d <> "").
  { intros d. destruct d; (split; [|discriminate]);
      try reflexivity; apply (word_of_uint (_ d)) || idtac.
    all: cbn [NilZero.string_of_uint NilEmpty.string_of_uint word];
      rewrite word_of_uint; reflexivity. }
  destruct z as [|p|p]; cbn [Z.to_int NilZero.string_of_int].
  - split; [reflexivity|discriminate].
  - apply H.
  - split; [|discriminate]. cbn [word]. now rewrite (proj1 (H _)).
Qed.

Lemma getNum_value (io : float_io) (z : Z) : _getNum io (str_of_Z z) = VInt z.
Proof. unfold _getNum. now rewrite int_of_string_str_of_Z. Qed.

(** X23.  [_getNum] reads back as the same [int] every integer that
    [str] writes, whatever [float] would make of the text: [int] is tried
    first. *)
Theorem getNum_reads_back_int (io : float_io) (z : Z) :
  _getNum io (str_of_Z z) = VInt z.
Proof. unfold _getNum. now rewrite int_of_string_str_of_Z. Qed.
(** ** Tokenize, then serialize *)

Lemma sdict_set_absent (d : list (string * value)) k v :
  ~ In k (map fst d) -> dict_set String.eqb d k v = (d ++ [(k, v)])%list.
Proof.
  induction d as [|[k' v'] d IH]; simpl; intros H; [reflexivity|].
  destruct (String.eqb_spec k k') as [->|Hne]; [exfalso; apply H; now left|].
  f_equal. apply IH. intros Hin. apply H. now right.
Qed.


Lemma number_of_text_numeric (io : float_io) (t : string) (v : value) :
  number_of_text io t = Some v -> is_str v = false.
Proof.
  unfold number_of_text. destruct (int_of_string t) as [z|].
  - now intros [= <-].
  - destruct (float_of_string io t) as [f|]; [now intros [= <-]|discriminate].
Qed.






(** ** getCommandRelativeToIndex *)

Lemma py_index_valid {A : Type} (l : list A) (i : Z) :
  - len l <= i < len l -> exists x, py_index l i = Ok x.
Proof.
  intros Hi. unfold py_index, len in *. cbv zeta.
  set (j := if i <? 0 then i + Z.of_nat (List.length l) else i).
  assert (Hj : 0 <= j < Z.of_nat (List.length l)).
  { unfold j. destruct (Z.ltb_spec i 0); lia. }
  replace (j <? 0) with false by (symmetry; apply Z.ltb_ge; lia).
  replace (Z.of_nat (List.length l) <=? j) with false by (symmetry; apply Z.leb_gt; lia).
  simpl. destruct (nth_error l (Z.to_nat j)) as [x|] eqn:E; [now exists x|].
  apply nth_error_None in E. lia.
Qed.

(** Walking back from [index], the loop stops at the first command it
    meets, if one lies within [d] steps and the steps stay in range. *)
Lemma rel_loop_back (ls : list GCodeCommand) : forall d fuel index c,
  (S d < fuel)%nat ->
  index - 1 < len ls ->
  - len ls <= index - Z.of_nat (S d) ->
  py_index ls (index - Z.of_nat (S d)) = Ok c ->
  isACommand c = true ->
  exists j c',
    rel_loop fuel ls index (-1) 0 (-1) = Ok j /\ py_index ls j = Ok c' /\
    isACommand c' = true /\ index - Z.of_nat (S d) <= j < index.
Proof.
  induction d as [|d IH]; intros fuel index c Hf Hhi Hlo Hc Hcmd.
  - destruct fuel as [|[|fuel]]; try lia.
    change (index - Z.of_nat 1) with (index - 1) in *.
    simpl. change (index + -1) with (index - 1). rewrite Hc. simpl. rewrite Hcmd. simpl.
    exists (index - 1), c. repeat split; try assumption; lia.
  - destruct fuel as [|fuel]; [lia|].
    destruct (py_index_valid ls (index - 1)) as (c0 & Hc0); [lia|].
    simpl rel_loop. change (index + -1) with (index - 1). rewrite Hc0. simpl bind.
    destruct (isACommand c0) eqn:E0.
    + destruct fuel as [|fuel]; [lia|]. simpl.
      exists (index - 1), c0. repeat split; try assumption; lia.
    + destruct (IH fuel (index - 1) c) as (j & c' & Hr & Hj & Hcmd' & Hrange);
        try assumption; try lia.
      * replace (index - 1 - Z.of_nat (S d)) with (index - Z.of_nat (S (S d))) by lia.
        exact Hc.
      * exists j, c'. repeat split; try assumption; lia.
Qed.

Lemma py_index_wrap {A : Type} (l : list A) (i : nat) (x : A) :
  nth_error l i = Some x -> py_index l (Z.of_nat i - len l) = Ok x.
Proof.
  intros H. unfold py_index, len.
  assert (Hn : (i < List.length l)%nat) by (apply nth_error_Some; congruence).
  cbv zeta.
  replace (Z.of_nat i - Z.of_nat (List.length l) <? 0) with true
    by (symmetry; apply Z.ltb_lt; lia).
  replace (Z.of_nat i - Z.of_nat (List.length l) + Z.of_nat (List.length l))
    with (Z.of_nat i) by lia.
  replace (Z.of_nat i <? 0) with false by (symmetry; apply Z.ltb_ge; lia).
  replace (Z.of_nat (List.length l) <=? Z.of_nat i) with false
    by (symmetry; apply Z.leb_gt; lia).
  simpl. now rewrite Nat2Z.id, H.
Qed.

(** From the position of a command, the command one back exists: at
    worst the walk wraps around the end of the list and comes back to
    the command it started from. *)
Lemma getCommandRelativeToIndex_back (ls : list GCodeCommand) (i : nat) (c : GCodeCommand) :
  nth_error ls i = Some c -> isACommand c = true ->
  exists j c',
    getCommandRelativeToIndex ls (Z.of_nat i) (-1) = Ok (j, c') /\
    py_index ls j = Ok c' /\ isACommand c' = true /\
    Z.of_nat i - len ls <= j < Z.of_nat i.
Proof.
  intros Hn Hc.
  assert (Hlen : (i < List.length ls)%nat) by (apply nth_error_Some; congruence).
  destruct (List.length ls) as [|n] eqn:El; [lia|].
  destruct (rel_loop_back ls n (2 * S n + 2) (Z.of_nat i) c) as (j & c' & Hr & Hj & Hc' & Hrange).
  - lia.
  - unfold len. lia.
  - unfold len. lia.
  - replace (Z.of_nat (S n)) with (len ls) by (unfold len; now rewrite El).
    now apply py_index_wrap.
  - exact Hc.
  - exists j, c'. unfold getCommandRelativeToIndex. simpl Z.eqb. cbv iota.
    change (-1 / Z.abs (-1)) with (-1). rewrite El. rewrite Hr. simpl bind.
    rewrite Hj. simpl. repeat split; try assumption; try reflexivity;
      unfold len; rewrite ?El; lia.
Qed.

(** ** The travel loop *)

Lemma nth_error_app_here {A : Type} (done rest : list A) :
  nth_error (done ++ rest) (List.length done) = nth_error rest 0.
Proof. rewrite nth_error_app2 by lia. now rewrite Nat.sub_diag. Qed.

Lemma insert_at_app {A : Type} (done rest : list A) (x : A) :
  insert_at (List.length done) x (done ++ rest) = (done ++ x :: rest)%list.
Proof.
  induction done as [|a done IH]; simpl.
  - now destruct rest.
  - now rewrite IH.
Qed.

Lemma replace_at_app {A : Type} (done rest : list A) (x : A) (n : nat) :
  replace_at (List.length done + n) x (done ++ rest) = (done ++ replace_at n x rest)%list.
Proof.
  induction done as [|a done IH]; simpl; [reflexivity|]. now rewrite IH.
Qed.

Lemma py_setitem_app {A : Type} (done rest : list A) (x : A) (n : nat) :
  (n < List.length rest)%nat ->
  py_setitem (done ++ rest) (Z.of_nat (List.length done) + Z.of_nat n) x
  = Ok (done ++ replace_at n x rest)%list.
Proof.
  intros Hn. unfold py_setitem, len. rewrite length_app. cbv zeta.
  set (i := Z.of_nat (List.length done) + Z.of_nat n).
  assert (H1 : (i <? 0) = false) by (apply Z.ltb_ge; lia).
  assert (H2 : (Z.of_nat (List.length done + List.length rest) <=? i) = false)
    by (apply Z.leb_gt; lia).
  rewrite !H1, H2. simpl. f_equal.
  replace (Z.to_nat i) with (List.length done + n)%nat by lia.
  apply replace_at_app.
Qed.

Lemma travel_loop_end (s : script) fuel i ls altitude :
  nth_error ls i = None -> travel_loop s (S fuel) i ls altitude = Ok ls.
Proof. intros H. simpl. now rewrite H. Qed.

Lemma travel_loop_keep (s : script) fuel i ls altitude command :
  nth_error ls i = Some command -> String.eqb (verb command) "G0" = false ->
  travel_loop s (S fuel) i ls altitude
  = travel_loop s fuel (S i) ls
      (match param_get command "Z" with Some z => z | None => altitude end).
Proof. intros H E. simpl. now rewrite H, E. Qed.

Lemma travel_loop_travel (s : script) fuel i ls altitude command :
  nth_error ls i = Some command -> String.eqb (verb command) "G0" = true ->
  travel_loop s (S fuel) i ls altitude
  = (_ <- getCommandRelativeToIndex ls (Z.of_nat i) (-1) ;;
     x <- param_lookup command "X" ;;
     y <- param_lookup command "Y" ;;
     ls3 <- py_setitem
              (insert_at (S i) (lateral_move x y) (insert_at i (lift_move s) ls))
              (Z.of_nat i + 2)
              (plunge_move s
                 (match param_get command "Z" with Some z => z | None => altitude end)) ;;
     travel_loop s fuel (S i) ls3
       (match param_get command "Z" with Some z => z | None => altitude end)).
Proof.
  intros H E. simpl travel_loop. rewrite H, E.
  destruct (getCommandRelativeToIndex ls (Z.of_nat i) (-1)); try reflexivity.
  cbn [bind].
  destruct (param_lookup command "X"); try reflexivity. cbn [bind].
  destruct (param_lookup command "Y"); try reflexivity. cbn [bind].
  unfold lift_move, lateral_move, plunge_move, formatted_command. cbn [fold_left fst snd].
  now destruct (param_get command "Z").
Qed.

(** The loop over the list is the expansion of its description. *)
Lemma travel_loop_spec (s : script) : forall w rest,
  (weight rest <= w)%nat ->
  forall done fuel altitude,
    (w < fuel)%nat ->
    travel_loop s fuel (List.length done) (done ++ rest) altitude
    = (r <- expand_spec s altitude rest ;; Ok (done ++ r)%list).
Proof.
  induction w as [w IH] using lt_wf_ind.
  intros rest Hw done fuel altitude Hf.
  destruct fuel as [|fuel]; [lia|].
  destruct rest as [|c rest].
  - rewrite travel_loop_end; [reflexivity|]. now rewrite nth_error_app_here.
  - assert (Hn : nth_error (done ++ c :: rest) (List.length done) = Some c)
      by now rewrite nth_error_app_here.
    simpl weight in Hw. cbn [expand_spec].
    set (target := match param_get c "Z" with Some z => z | None => altitude end).
    destruct (String.eqb (verb c) "G0") eqn:Ev.
    + rewrite (travel_loop_travel s fuel _ _ altitude c Hn Ev). fold target.
      destruct (getCommandRelativeToIndex_back (done ++ c :: rest) (List.length done) c Hn)
        as (j & c' & Hrel & _).
      { unfold isACommand. apply String.eqb_eq in Ev. now rewrite Ev. }
      rewrite Hrel. cbn [bind].
      destruct (param_lookup c "X") as [x| |]; cbn [bind]; try reflexivity.
      destruct (param_lookup c "Y") as [y| |]; cbn [bind]; try reflexivity.
      rewrite insert_at_app.
      assert (El : S (List.length done) = List.length (done ++ [lift_move s]))
        by (rewrite length_app; simpl; lia).
      rewrite El.
      replace (done ++ lift_move s :: c :: rest)%list
        with ((done ++ [lift_move s]) ++ c :: rest)%list
        by (rewrite <- app_assoc; reflexivity).
      rewrite insert_at_app.
      replace (Z.of_nat (List.length done) + 2)
        with (Z.of_nat (List.length (done ++ [lift_move s])) + Z.of_nat 1)
        by (rewrite length_app; simpl; lia).
      rewrite py_setitem_app by (simpl; lia). cbn [bind replace_at].
      rewrite (IH (w - 1)%nat ltac:(lia)
                 (lateral_move x y :: plunge_move s target :: rest)).
      * cbn [expand_spec]. simpl String.eqb. cbv iota.
        change (param_get (lateral_move x y) "Z") with (@None value).
        change (param_get (plunge_move s target) "Z") with (Some target).
        cbv iota.
        destruct (expand_spec s target rest) as [r| |]; cbn [bind]; try reflexivity.
        rewrite <- app_assoc. reflexivity.
      * simpl weight. lia.
      * lia.
    + rewrite (travel_loop_keep s fuel _ _ altitude c Hn Ev). fold target.
      replace (done ++ c :: rest)%list with ((done ++ [c]) ++ rest)%list
        by (rewrite <- app_assoc; reflexivity).
      replace (S (List.length done)) with (List.length (done ++ [c]))
        by (rewrite length_app; simpl; lia).
      rewrite (IH (w - 1)%nat ltac:(lia) rest) by lia.
      destruct (expand_spec s target rest) as [r| |]; cbn [bind]; try reflexivity.
      rewrite <- app_assoc. reflexivity.
Qed.

Lemma weight_le (ls : list GCodeCommand) : (weight ls <= 3 * List.length ls)%nat.
Proof.
  induction ls as [|c ls IH]; simpl; [lia|].
  destruct (String.eqb (verb c) "G0"); lia.
Qed.

Lemma expand_travels_spec (s : script) (ls : list GCodeCommand) :
  expand_travels s ls = expand_spec s (VInt 0) ls.
Proof.
  unfold expand_travels.
  rewrite (travel_loop_spec s (3 * List.length ls) ls (weight_le ls) [] _ (VInt 0))
    by lia.
  simpl. now destruct (expand_spec s (VInt 0) ls).
Qed.

(** ** removeInfill *)

Lemma remove_at_app {A : Type} (a b : list A) : forall n,
  (n < List.length a)%nat ->
  remove_at n (a ++ b) = (remove_at n a ++ b)%list /\
  S (List.length (remove_at n a)) = List.length a.
Proof.
  induction a as [|x a IH]; intros n Hn; simpl in Hn; [lia|].
  destruct n as [|n]; simpl.
  - split; reflexivity.
  - destruct (IH n ltac:(lia)) as [E L]. rewrite E, L. split; reflexivity.
Qed.

Lemma py_pop_app {A : Type} (a b : list A) (i : Z) :
  0 <= i < len a ->
  py_pop (a ++ b) i = Ok (remove_at (Z.to_nat i) a ++ b)%list /\
  len (remove_at (Z.to_nat i) a) = len a - 1.
Proof.
  unfold py_pop, len. intros Hi. rewrite length_app.
  destruct (remove_at_app a b (Z.to_nat i) ltac:(lia)) as [E L].
  assert (H1 : (i <? 0) = false) by (apply Z.ltb_ge; lia).
  assert (H2 : (Z.of_nat (List.length a + List.length b) <=? i) = false)
    by (apply Z.leb_gt; lia).
  cbv zeta. rewrite !H1, H2. simpl. rewrite E. split; [reflexivity|lia].
Qed.

Lemma pop_all_app (b : list GCodeCommand) (ps : list Z) : forall a,
  desc_below (len a) ps ->
  exists r, pop_all a ps = Ok r /\ pop_all (a ++ b) ps = Ok (r ++ b)%list.
Proof.
  induction ps as [|i ps IH]; intros a Hd; simpl.
  - exists a. split; reflexivity.
  - inversion Hd as [|? ? ? Hi Hd']; subst.
    destruct (py_pop_app a b i Hi) as [E L].
    destruct (py_pop_app a [] i Hi) as [E0 _]. rewrite !app_nil_r in E0.
    rewrite E, E0. simpl. apply IH.
    clear -Hi L Hd'. inversion Hd'; subst; constructor; [lia|assumption].
Qed.

Lemma enumerate_from_app {A : Type} (a b : list A) : forall i,
  enumerate_from i (a ++ b) =
  (enumerate_from i a ++ enumerate_from (i + len a) b)%list.
Proof.
  unfold len. induction a as [|x a IH]; intros i; simpl.
  - now rewrite Z.add_0_r.
  - rewrite IH. do 3 f_equal. lia.
Qed.

Lemma keep_from_snoc {A : Type} (P : Z -> bool) (l : list A) (x : A) :
  keep_from P 0 (l ++ [x]) =
  (keep_from P 0 l ++ if P (len l) then [] else [x])%list.
Proof.
  unfold keep_from. rewrite enumerate_from_app, filter_app, map_app. simpl.
  now destruct (P (len l)).
Qed.

Lemma py_range_S n : py_range (S n) = (py_range n ++ [Z.of_nat n])%list.
Proof. unfold py_range. now rewrite seq_S, map_app. Qed.

Lemma desc_below_filter_range (P : Z -> bool) n :
  desc_below (Z.of_nat n) (rev (filter P (py_range n))).
Proof.
  induction n as [|n IH]; [constructor|].
  rewrite py_range_S, filter_app, rev_app_distr. simpl.
  assert (W : forall m ps, desc_below m ps -> m <= Z.of_nat (S n) ->
                           desc_below (Z.of_nat (S n)) ps).
  { intros m ps H Hm. inversion H; subst; constructor; [lia|assumption]. }
  destruct (P (Z.of_nat n)); simpl.
  - constructor; [lia|exact IH].
  - apply (W _ _ IH). lia.
Qed.

(** Popping the marked positions from the last to the first leaves the
    unmarked elements in their order. *)
Lemma pop_all_filter (P : Z -> bool) (l : list GCodeCommand) :
  pop_all l (rev (filter P (py_range (List.length l)))) = Ok (keep_from P 0 l).
Proof.
  induction l as [|x l IH] using rev_ind; [reflexivity|].
  rewrite length_app, Nat.add_comm. simpl List.length.
  rewrite py_range_S, filter_app, rev_app_distr, keep_from_snoc.
  unfold len. simpl filter. destruct (P (Z.of_nat (List.length l))); simpl rev; simpl app.
  - simpl pop_all.
    destruct (py_pop_app (l ++ [x]) [] (Z.of_nat (List.length l))) as [E _].
    { unfold len. rewrite length_app. simpl. lia. }
    rewrite !app_nil_r in E. rewrite E. simpl.
    replace (remove_at (Z.to_nat (Z.of_nat (List.length l))) (l ++ [x])) with l.
    + rewrite IH. now rewrite app_nil_r.
    + rewrite Nat2Z.id. clear. induction l as [|y l IHl]; simpl; [reflexivity|].
      now rewrite <- IHl.
  - destruct (pop_all_app [x] (rev (filter P (py_range (List.length l)))) l) as (r & Hr & Happ).
    + apply desc_below_filter_range.
    + rewrite Happ. rewrite IH in Hr. now inversion Hr.
Qed.

Lemma mark_loop_filter (s : script) (F : Z) (ixs : list Z) : forall acc r,
  mark_loop s F ixs acc = Ok r ->
  r = (acc ++ filter (marked_at s F) ixs)%list /\
  Forall (fun i => exists b, infill_cond s F i = Ok b) ixs.
Proof.
  induction ixs as [|i ixs IH]; intros acc r H; simpl in H.
  - inversion H. now rewrite app_nil_r.
  - simpl filter. unfold marked_at at 1.
    destruct (infill_cond s F i) as [b| |] eqn:Ec; simpl in H; try discriminate.
    destruct b.
    + destruct (py_index (lines s) i) as [c| |] eqn:Ei; simpl in H; try discriminate.
      destruct (IH _ _ H) as [-> Hall].
      split; [|constructor; [now exists true|exact Hall]].
      destruct (negb (String.eqb (verb c) "G0")); [|reflexivity].
      now rewrite <- app_assoc.
    + destruct (IH _ _ H) as [-> Hall].
      split; [reflexivity|constructor; [now exists false|exact Hall]].
Qed.

Lemma enumerate_from_In {A : Type} (l : list A) : forall i0 i c,
  In (i, c) (enumerate_from i0 l) ->
  exists n, i = i0 + Z.of_nat n /\ nth_error l n = Some c.
Proof.
  induction l as [|x l IH]; intros i0 i c H; simpl in H; [contradiction|].
  destruct H as [H|H].
  - inversion H; subst. exists O. split; [lia|reflexivity].
  - destruct (IH _ _ _ H) as (n & -> & Hn). exists (S n). split; [lia|exact Hn].
Qed.

Lemma py_index_nth {A : Type} (l : list A) (n : nat) (x : A) :
  nth_error l n = Some x -> py_index l (Z.of_nat n) = Ok x.
Proof.
  intros H. unfold py_index, len.
  assert (Hn : (n < List.length l)%nat) by (apply nth_error_Some; congruence).
  assert (H1 : (Z.of_nat n <? 0) = false) by (apply Z.ltb_ge; lia).
  assert (H2 : (Z.of_nat (List.length l) <=? Z.of_nat n) = false) by (apply Z.leb_gt; lia).
  cbv zeta. rewrite !H1, H2. simpl. now rewrite Nat2Z.id, H.
Qed.

(** When the condition of the loop evaluates, it is the rule. *)
Lemma marked_at_rule (s : script) (F i : Z) (c : GCodeCommand) (b : bool) :
  0 < F ->
  infill_cond s F i = Ok b ->
  py_index (lines s) i = Ok c ->
  marked_at s F i = infill_marked (typeIndicies s) (layerIndicies s) F (i, c).
Proof.
  intros HF Hc Hi. unfold marked_at. rewrite Hc, Hi.
  unfold infill_cond, getType, getLayer in Hc. simpl in Hc.
  unfold infill_marked. simpl fst; simpl snd.
  destruct (getType_scan (rev (typeIndicies s)) i) as [t| |]; simpl in Hc; try discriminate.
  destruct (str_in "fill" (lower t)); simpl in *.
  - destruct (getLayer_scan (rev (layerIndicies s)) (List.length (layerIndicies s)) i)
      as [layer|]; try discriminate.
    unfold py_mod in Hc. destruct (Z.eqb_spec F 0); [lia|]. simpl in Hc.
    inversion Hc; subst. now destruct (negb (layer mod F =? 0)).
  - inversion Hc; subst.
    now destruct (getLayer_scan (rev (layerIndicies s)) (List.length (layerIndicies s)) i).
Qed.

Lemma In_py_range n i : In i (py_range n) <-> exists k, i = Z.of_nat k /\ (k < n)%nat.
Proof.
  unfold py_range. rewrite in_map_iff. split.
  - intros (k & <- & Hk). apply in_seq in Hk. exists k. split; [reflexivity|lia].
  - intros (k & -> & Hk). exists k. split; [reflexivity|]. apply in_seq. lia.
Qed.

(** C4.  When [removeInfill] returns, for a positive frequency, the body
    is the former body without the commands the rule marks, the others
    in their order; the rule reads the type and layer tables computed on
    the former body, which the script then holds. *)
Theorem removeInfill_removes_marked (s s' : script) (infillFrequency : Z) :
  0 < infillFrequency ->
  removeInfill s infillFrequency = Ok s' ->
  exists s1,
    computeLayerIndices s = Ok s1 /\
    typeIndicies s' = type_changes (lines s) /\
    layerIndicies s' = layerIndicies s1 /\
    lines s' = infill_kept (typeIndicies s') (layerIndicies s') infillFrequency (lines s).
Proof.
  intros HF H. unfold removeInfill in H.
  destruct (computeLayerIndices s) as [s1| |] eqn:E1; cbn [bind] in H; try discriminate.
  assert (Hl1 : lines s1 = lines s).
  { unfold computeLayerIndices in E1.
    destruct (getSlicingEngine s); simpl in E1; try discriminate.
    destruct (if String.eqb a "Cura" then _ else _); simpl in E1; try discriminate.
    now inversion E1. }
  set (s2 := computeTypeChanges s1) in *.
  assert (Hl2 : lines s2 = lines s) by exact Hl1.
  destruct (mark_loop s2 infillFrequency (py_range (List.length (lines s2))) [])
    as [toPop| |] eqn:E2; cbn [bind] in H; try discriminate.
  apply mark_loop_filter in E2. destruct E2 as [-> Hall]. simpl app in H.
  rewrite pop_all_filter in H. cbn [bind] in H. inversion H; subst s'. clear H.
  exists s1. split; [reflexivity|]. simpl.
  rewrite Hl1. repeat split.
  unfold keep_from, infill_kept, enumerate. f_equal.
  apply filter_ext_in. intros [i c] Hin. simpl fst. f_equal.
  destruct (enumerate_from_In _ _ _ _ Hin) as (n & -> & Hn). simpl.
  rewrite Forall_forall in Hall.
  destruct (Hall (Z.of_nat n)) as (b & Hb).
  { apply In_py_range. exists n. split; [reflexivity|].
    rewrite Hl2. apply nth_error_Some. congruence. }
  assert (Ht : typeIndicies s2 = type_changes (lines s))
    by (unfold s2; simpl; now rewrite Hl1).
  rewrite <- Ht. change (layerIndicies s1) with (layerIndicies s2).
  apply (marked_at_rule s2 infillFrequency (Z.of_nat n) c b HF Hb).
  rewrite Hl2. now apply py_index_nth.
Qed.

Lemma removeInfill_removes_marked_witness :
  exists s',
    removeInfill
      (script_of [mkCommand "" [] "LAYER_CHANGE";
                  mkCommand "" [] "TYPE:Infill";
                  mkCommand "G1" [("X", VInt 1); ("Y", VInt 1)] "";
                  mkCommand "G0" [("X", VInt 0); ("Y", VInt 0)] "LAYER_CHANGE";
                  mkCommand "G1" [("X", VInt 2); ("Y", VInt 2)] "";
                  mkCommand "G0" [("X", VInt 3); ("Y", VInt 3)] ""]) 2 = Ok s' /\
    lines s' = [mkCommand "" [] "LAYER_CHANGE";
                mkCommand "" [] "TYPE:Infill";
                mkCommand "G1" [("X", VInt 1); ("Y", VInt 1)] "";
                mkCommand "G0" [("X", VInt 0); ("Y", VInt 0)] "LAYER_CHANGE";
                mkCommand "G0" [("X", VInt 3); ("Y", VInt 3)] ""].
Proof.
  eexists. split; [reflexivity|].
  destruct (removeInfill_removes_marked
              (script_of [mkCommand "" [] "LAYER_CHANGE";
                          mkCommand "" [] "TYPE:Infill";
                          mkCommand "G1" [("X", VInt 1); ("Y", VInt 1)] "";
                          mkCommand "G0" [("X", VInt 0); ("Y", VInt 0)] "LAYER_CHANGE";
                          mkCommand "G1" [("X", VInt 2); ("Y", VInt 2)] "";
                          mkCommand "G0" [("X", VInt 3); ("Y", VInt 3)] ""])
              _ 2 ltac:(lia) eq_refl) as (s1 & _ & _ & _ & H).
  rewrite H. reflexivity.
Defined.

(** [removeInfill] returns when the layer table can be computed and
    every index whose type contains "fill" has a layer. *)
Lemma removeInfill_returns (s s1 : script) (infillFrequency : Z) :
  0 < infillFrequency ->
  computeLayerIndices s = Ok s1 ->
  (forall i t,
      0 <= i < len (lines s) ->
      getType_scan (rev (type_changes (lines s))) i = Ok t ->
      str_in "fill" (lower t) = true ->
      getLayer_scan (rev (layerIndicies s1)) (List.length (layerIndicies s1)) i <> None) ->
  exists s', removeInfill s infillFrequency = Ok s'.
Proof.
  intros HF E1 Hlayer. unfold removeInfill. rewrite E1. cbn [bind].
  assert (Hl1 : lines s1 = lines s).
  { unfold computeLayerIndices in E1.
    destruct (getSlicingEngine s); simpl in E1; try discriminate.
    destruct (if String.eqb a "Cura" then _ else _); simpl in E1; try discriminate.
    now inversion E1. }
  set (s2 := computeTypeChanges s1).
  assert (Hmark : forall ixs acc,
             Forall (fun i => 0 <= i < len (lines s)) ixs ->
             exists r, mark_loop s2 infillFrequency ixs acc = Ok r).
  { induction ixs as [|i ixs IH]; intros acc Hix; [now exists acc|].
    inversion Hix as [|? ? Hi Hix']; subst. simpl mark_loop.
    assert (Hcond : exists b, infill_cond s2 infillFrequency i = Ok b).
    { unfold infill_cond, getType, getLayer. simpl.
      destruct (type_changes_keys_ok (lines s1)) as (j & Hs & H0 & _).
      destruct (getType_scan_largest (type_changes (lines s1)) i Hs) as (k & t & Ht & _).
      { exists 0. split; [exact H0|lia]. }
      rewrite Ht. simpl.
      destruct (str_in "fill" (lower t)) eqn:Ef; [|now exists false].
      rewrite Hl1 in Ht. specialize (Hlayer i t Hi Ht Ef).
      destruct (getLayer_scan (rev (layerIndicies s1)) (List.length (layerIndicies s1)) i);
        [|congruence].
      unfold py_mod. destruct (Z.eqb_spec infillFrequency 0); [lia|].
      simpl. eexists; reflexivity. }
    destruct Hcond as (b & ->). cbn [bind]. destruct b; [|now apply IH].
    destruct (py_index_valid (lines s1) i) as (c & Hc); [rewrite Hl1; lia|].
    change (lines s2) with (lines s1). rewrite Hc.
    cbn [bind]. now apply IH. }
  destruct (Hmark (py_range (List.length (lines s2))) []) as (toPop & Hm).
  { apply Forall_forall. intros i Hi. apply In_py_range in Hi.
    destruct Hi as (k & -> & Hk). change (lines s2) with (lines s1) in Hk.
    rewrite Hl1 in Hk. unfold len. lia. }
  rewrite Hm. cbn [bind]. apply mark_loop_filter in Hm. destruct Hm as [-> _].
  simpl app. rewrite pop_all_filter. cbn [bind]. eexists; reflexivity.
Qed.

(** ** The collapse of consecutive travels *)

Lemma Forall_replace_at {A : Type} (P : A -> Prop) (l : list A) : forall n x,
  P x -> Forall P l -> Forall P (replace_at n x l).
Proof.
  induction l as [|a l IH]; intros n x Hx Hl; [now destruct n|].
  inversion Hl; subst. destruct n; simpl; constructor; auto.
Qed.

Lemma Forall_remove_at {A : Type} (P : A -> Prop) (l : list A) : forall n,
  Forall P l -> Forall P (remove_at n l).
Proof.
  induction l as [|a l IH]; intros n Hl; [now destruct n|].
  inversion Hl; subst. destruct n; simpl; [assumption|constructor; auto].
Qed.

Lemma length_remove_at_lt {A : Type} (l : list A) (n : nat) :
  (n < List.length l)%nat -> S (List.length (remove_at n l)) = List.length l.
Proof.
  intros Hn. destruct (nth_error l n) as [x|] eqn:E.
  - symmetry. now apply (length_remove_at l n x).
  - apply nth_error_None in E. lia.
Qed.

Lemma usable_isACommand (c : GCodeCommand) : usable c -> isACommand c = true.
Proof.
  unfold usable, _isPrinterSpecificCommand, isACommand, USABLE_COMMANDS. simpl.
  destruct (String.eqb_spec (verb c) "G1") as [->|]; [reflexivity|].
  destruct (String.eqb_spec (verb c) "G0") as [->|]; [reflexivity|discriminate].
Qed.

Lemma usable_set_param (c : GCodeCommand) k v : usable c -> usable (set_param c k v).
Proof. exact (fun H => H). Qed.

Lemma collapse_pass_end fuel i ls altered :
  nth_error ls i = None -> collapse_pass (S fuel) i ls altered = Ok (ls, altered).
Proof. intros H. simpl. now rewrite H. Qed.

Lemma collapse_pass_step fuel i ls altered command :
  nth_error ls i = Some command ->
  collapse_pass (S fuel) i ls altered
  = (old <- getCommandRelativeToIndex ls (Z.of_nat i) (-1) ;;
     if String.eqb "G0" (verb command) && String.eqb "G0" (verb (snd old))
     then
       let ls1 :=
         match param_get (snd old) "Z" with
         | Some z => replace_at i (set_param command "Z" z) ls
         | None => ls
         end in
       old' <- getCommandRelativeToIndex ls1 (Z.of_nat i) (-1) ;;
       collapse_pass fuel (S i) (remove_at (position ls1 (fst old')) ls1) true
     else collapse_pass fuel (S i) ls altered).
Proof. intros H. simpl. now rewrite H. Qed.

Lemma nth_error_replace_at_same {A : Type} (l : list A) : forall n x,
  (n < List.length l)%nat -> nth_error (replace_at n x l) n = Some x.
Proof.
  induction l as [|a l IH]; intros n x Hn; simpl in Hn; [lia|].
  destruct n; simpl; [reflexivity|]. apply IH. lia.
Qed.

(** One pass over a list of usable commands ends, returns usable
    commands, and is shorter whenever it reports a change. *)
Lemma collapse_pass_total : forall fuel i ls altered,
  Forall usable ls -> (List.length ls <= fuel + i)%nat ->
  exists ls' b,
    collapse_pass (S fuel) i ls altered = Ok (ls', b) /\ Forall usable ls' /\
    (List.length ls' <= List.length ls)%nat /\
    (b = true -> altered = true \/ (List.length ls' < List.length ls)%nat).
Proof.
  induction fuel as [|fuel IH]; intros i ls altered Hu Hlen.
  - rewrite collapse_pass_end.
    + exists ls, altered. repeat split; auto.
    + apply nth_error_None. simpl in Hlen. lia.
  - destruct (nth_error ls i) as [command|] eqn:En.
    2:{ rewrite collapse_pass_end by exact En. exists ls, altered. repeat split; auto. }
    rewrite (collapse_pass_step _ _ _ _ command En).
    assert (Hi : (i < List.length ls)%nat) by (apply nth_error_Some; congruence).
    assert (Hc : usable command).
    { rewrite Forall_forall in Hu. apply Hu. eapply nth_error_In; eassumption. }
    destruct (getCommandRelativeToIndex_back ls i command En (usable_isACommand _ Hc))
      as (j & c' & Hrel & _).
    rewrite Hrel. cbn [bind snd].
    destruct (String.eqb "G0" (verb command) && String.eqb "G0" (verb c')).
    + cbv zeta.
      set (ls1 := match param_get c' "Z" with
                  | Some z => replace_at i (set_param command "Z" z) ls
                  | None => ls
                  end).
      assert (Hu1 : Forall usable ls1).
      { unfold ls1. destruct (param_get c' "Z"); [|exact Hu].
        apply Forall_replace_at; [now apply usable_set_param|exact Hu]. }
      assert (Hl1 : List.length ls1 = List.length ls).
      { unfold ls1. destruct (param_get c' "Z"); [apply length_replace_at|reflexivity]. }
      assert (exists command1, nth_error ls1 i = Some command1 /\ usable command1)
        as (command1 & En1 & Hc1).
      { unfold ls1. destruct (param_get c' "Z") as [z|].
        - exists (set_param command "Z" z). split; [now apply nth_error_replace_at_same|].
          now apply usable_set_param.
        - now exists command. }
      destruct (getCommandRelativeToIndex_back ls1 i command1 En1 (usable_isACommand _ Hc1))
        as (j2 & c2 & Hrel2 & _ & _ & Hrange).
      rewrite Hrel2. cbn [bind fst].
      assert (Hpos : (position ls1 j2 < List.length ls1)%nat).
      { unfold position, len in *. destruct (Z.ltb_spec j2 0); lia. }
      pose proof (length_remove_at_lt ls1 _ Hpos) as Hrm.
      destruct (IH (S i) (remove_at (position ls1 j2) ls1) true) as (ls' & b & Hr & Hu' & Hle & _).
      * now apply Forall_remove_at.
      * lia.
      * exists ls', b. repeat split; [exact Hr|exact Hu'|lia|]. intros _. right. lia.
    + destruct (IH (S i) ls altered Hu) as (ls' & b & Hr & Hu' & Hle & Hb); [lia|].
      exists ls', b. repeat split; assumption.
Qed.

Lemma collapse_loop_total : forall fuel ls,
  Forall usable ls -> (List.length ls < fuel)%nat ->
  exists mid, collapse_loop fuel ls = Ok mid /\ Forall usable mid /\
              (List.length mid <= List.length ls)%nat.
Proof.
  induction fuel as [|fuel IH]; intros ls Hu Hf; [lia|].
  destruct (collapse_pass_total (List.length ls) 0 ls false Hu ltac:(lia))
    as (ls' & b & Hr & Hu' & Hle & Hb).
  change (collapse_loop (S fuel) ls)
    with (r <- collapse_pass (S (List.length ls)) 0 ls false ;;
          if snd r then collapse_loop fuel (fst r) else Ok (fst r)).
  rewrite Hr. cbn [bind fst snd].
  destruct b.
  - destruct (Hb eq_refl) as [H|H]; [discriminate|].
    destruct (IH ls' Hu' ltac:(lia)) as (mid & Hm & Hum & Hlm).
    exists mid. repeat split; [exact Hm|exact Hum|lia].
  - exists ls'. repeat split; assumption.
Qed.

(** The collapse step ends on every list of usable commands. *)
Lemma collapse_total (ls : list GCodeCommand) :
  Forall usable ls ->
  exists mid, collapse ls = Ok mid /\ Forall usable mid /\
              (List.length mid <= List.length ls)%nat.
Proof. intros Hu. unfold collapse. apply collapse_loop_total; [exact Hu|lia]. Qed.

Lemma usable_mirror_Z (c : GCodeCommand) : usable c -> usable (mirror_Z c).
Proof. unfold mirror_Z. now destruct (param_get c "Z"). Qed.

(** The steps of [convert] before the travel expansion always end, and
    leave G0 and G1 commands only. *)
Lemma convert_prepare_total (ls : list GCodeCommand) :
  exists mid, convert_prepare ls = Ok mid /\ Forall usable mid.
Proof.
  unfold convert_prepare.
  destruct (collapse_total
              (map mirror_Z
                 (filter (fun c => negb (_isPrinterSpecificCommand c)) (map strip_EF ls))))
    as (mid & Hm & Hu & _).
  - apply Forall_forall. intros c Hin. apply in_map_iff in Hin.
    destruct Hin as (c0 & <- & Hin0). apply usable_mirror_Z.
    apply filter_In in Hin0. destruct Hin0 as [_ H]. unfold usable.
    now destruct (_isPrinterSpecificCommand c0).
  - exists mid. split; assumption.
Qed.

(** ** What the collapse computes when it does not wrap around *)

Lemma sdict_set_set (d : list (string * value)) k v w :
  dict_set String.eqb (dict_set String.eqb d k v) k w = dict_set String.eqb d k w.
Proof.
  induction d as [|[k' v'] d IH]; simpl.
  - now rewrite String.eqb_refl.
  - destruct (String.eqb k k') eqn:E; simpl; rewrite E; [reflexivity|now rewrite IH].
Qed.

Lemma is_G0_inherit (old c : GCodeCommand) : is_G0 (inherit_Z old c) = is_G0 c.
Proof. unfold inherit_Z. now destruct (param_get old "Z"). Qed.

Lemma inherit_Z_assoc (p old c : GCodeCommand) :
  inherit_Z (inherit_Z p old) c = inherit_Z p (inherit_Z old c).
Proof.
  unfold inherit_Z. destruct (param_get p "Z") as [zp|] eqn:Ep; [|reflexivity].
  replace (param_get (set_param old "Z" zp) "Z") with (Some zp)
    by (unfold param_get, set_param; simpl; now rewrite sdict_get_set_same).
  destruct (param_get old "Z") as [zo|]; [|reflexivity].
  unfold set_param. simpl. now rewrite sdict_set_set.
Qed.

(** Merging an adjacent pair of travels does not change what the runs
    merge to. *)
Lemma merge_runs_aux_step (pre : list GCodeCommand) : forall pend old c post,
  is_G0 old = true -> is_G0 c = true ->
  merge_runs_aux pend (pre ++ old :: c :: post)
  = merge_runs_aux pend (pre ++ inherit_Z old c :: post).
Proof.
  induction pre as [|a pre IH]; intros pend old c post Ho Hc.
  - cbn [app merge_runs_aux]. rewrite Ho, Hc, is_G0_inherit, Hc.
    destruct pend as [p|]; [|reflexivity]. now rewrite inherit_Z_assoc.
  - cbn [app merge_runs_aux]. destruct (is_G0 a).
    + now apply IH.
    + now rewrite IH.
Qed.

(** Without adjacent travels there is nothing to merge. *)
Lemma merge_runs_no_adjacent (ls : list GCodeCommand) :
  no_adjacent ls = true ->
  merge_runs_aux None ls = ls /\
  forall p, is_G0 p = true -> no_adjacent (p :: ls) = true ->
            merge_runs_aux (Some p) ls = p :: ls.
Proof.
  induction ls as [|c ls IH]; intros Hn.
  - split; reflexivity.
  - assert (Hn' : no_adjacent ls = true).
    { destruct ls; [reflexivity|]. cbn [no_adjacent] in Hn.
      apply andb_prop in Hn. tauto. }
    destruct (IH Hn') as [IH0 IH1]. split.
    + cbn [merge_runs_aux]. destruct (is_G0 c) eqn:Ec.
      * now apply IH1.
      * simpl. now rewrite IH0.
    + intros p Hp Hpn. cbn [no_adjacent] in Hpn. rewrite Hp in Hpn.
      apply andb_prop in Hpn. destruct Hpn as [Hpc _].
      cbn [merge_runs_aux]. destruct (is_G0 c); [discriminate|].
      simpl. now rewrite IH0.
Qed.

Lemma adjacent_free_no_adjacent (ls : list GCodeCommand) :
  adjacent_free_from 0 ls -> no_adjacent ls = true.
Proof.
  induction ls as [|a ls IH]; intros H; [reflexivity|].
  destruct ls as [|b ls]; [reflexivity|].
  cbn [no_adjacent]. apply andb_true_intro. split.
  - specialize (H [] a b ls eq_refl ltac:(simpl; lia)).
    rewrite andb_comm. now rewrite H.
  - apply IH. intros pre o c post E _.
    apply (H (a :: pre) o c post); [now rewrite E|simpl; lia].
Qed.

Lemma getCommandRelativeToIndex_prev (ls : list GCodeCommand) (i : Z) (c0 : GCodeCommand) :
  py_index ls (i - 1) = Ok c0 -> isACommand c0 = true ->
  getCommandRelativeToIndex ls i (-1) = Ok (i - 1, c0).
Proof.
  intros Hc0 Hcmd. unfold getCommandRelativeToIndex.
  change (-1 =? 0) with false. cbv iota. change (-1 / Z.abs (-1)) with (-1).
  replace (2 * List.length ls + 2)%nat with (S (S (2 * List.length ls))) by lia.
  cbn [rel_loop]. change (0 =? -1) with false. cbv iota.
  change (i + -1) with (i - 1). rewrite Hc0. cbn [bind]. rewrite Hcmd.
  change (0 + -1 =? -1) with true. cbv iota. cbn [bind]. now rewrite Hc0.
Qed.

Lemma last_default {A : Type} (l : list A) (d d' : A) :
  l <> [] -> last l d = last l d'.
Proof.
  intros Hl. destruct l as [|y l]; [congruence|]. clear. revert y.
  induction l as [|z l IH]; intros y; [reflexivity|]. simpl in *. apply IH.
Qed.

Lemma nth_error_last_of {A : Type} (t : list A) : forall h,
  nth_error (h :: t) (List.length t) = Some (last t h).
Proof.
  induction t as [|a t IH]; intros h; [reflexivity|].
  simpl List.length. change (nth_error (h :: a :: t) (S (List.length t)))
    with (nth_error (a :: t) (List.length t)).
  rewrite IH. destruct t as [|b t]; [reflexivity|].
  f_equal. change (last (a :: b :: t) h) with (last (b :: t) h).
  apply last_default. discriminate.
Qed.

Lemma py_index_last (h : GCodeCommand) (t : list GCodeCommand) :
  py_index (h :: t) (-1) = Ok (last t h).
Proof.
  unfold py_index, len. cbv zeta. change (-1 <? 0) with true. cbv iota.
  simpl List.length.
  assert (H1 : (-1 + Z.of_nat (S (List.length t)) <? 0) = false) by (apply Z.ltb_ge; lia).
  assert (H2 : (Z.of_nat (S (List.length t)) <=? -1 + Z.of_nat (S (List.length t))) = false)
    by (apply Z.leb_gt; lia).
  rewrite H1, H2. simpl orb. cbv iota.
  replace (Z.to_nat (-1 + Z.of_nat (S (List.length t)))) with (List.length t) by lia.
  now rewrite nth_error_last_of.
Qed.

Lemma adjacent_split {A : Type} (ls : list A) (i : nat) (o c : A) :
  nth_error ls i = Some o -> nth_error ls (S i) = Some c ->
  exists pre post, ls = (pre ++ o :: c :: post)%list /\ List.length pre = i.
Proof.
  intros Ho Hc. destruct (nth_error_split ls i Ho) as (pre & rest & -> & Hlen).
  exists pre. subst i.
  replace (S (List.length pre)) with (List.length pre + 1)%nat in Hc by lia.
  rewrite nth_error_app2 in Hc by lia.
  replace (List.length pre + 1 - List.length pre)%nat with 1%nat in Hc by lia.
  simpl in Hc. destruct rest as [|c' post]; [discriminate|]. inversion Hc; subst.
  now exists post.
Qed.

Lemma remove_at_here {A : Type} (pre rest : list A) (x : A) :
  remove_at (List.length pre) (pre ++ x :: rest) = (pre ++ rest)%list.
Proof. induction pre as [|a pre IH]; simpl; [reflexivity|now rewrite IH]. Qed.

Lemma replace_at_same {A : Type} (l : list A) : forall n x,
  nth_error l n = Some x -> replace_at n x l = l.
Proof.
  induction l as [|a l IH]; intros [|n] x H; simpl in *; try discriminate.
  - now inversion H.
  - now rewrite IH.
Qed.

Lemma last_app_nonempty {A : Type} (a b : list A) (d d' : A) :
  b <> [] -> last (a ++ b) d = last b d'.
Proof.
  intros Hb. induction a as [|x a IH]; simpl.
  - now apply last_default.
  - destruct (a ++ b)%list eqn:E; [|exact IH].
    apply app_eq_nil in E. destruct E; congruence.
Qed.

(** Merging a pair away from a wrap keeps the list away from a wrap. *)
Lemma no_wrap_merge (pre post : list GCodeCommand) (o c c' : GCodeCommand) :
  no_wrap (pre ++ o :: c :: post) ->
  is_G0 o = true -> is_G0 c = true -> is_G0 c' = true ->
  no_wrap (pre ++ c' :: post).
Proof.
  intros Hw Ho Hc Hc'. destruct pre as [|h pre]; cbn [app no_wrap] in *.
  - rewrite Ho in Hw. rewrite Hc'. cbn [andb] in *.
    destruct post as [|x post]; [simpl in Hw; congruence|].
    rewrite <- Hw. f_equal.
    change (c :: x :: post) with ([c] ++ x :: post)%list.
    rewrite (last_app_nonempty [c] (x :: post) o c') by discriminate. reflexivity.
  - destruct post as [|x post].
    + replace (pre ++ [o; c])%list with ((pre ++ [o]) ++ [c])%list in Hw
        by (rewrite <- app_assoc; reflexivity).
      rewrite last_last in Hw. rewrite last_last. rewrite Hc in Hw. rewrite Hc'.
      exact Hw.
    + rewrite <- Hw. f_equal. f_equal.
      replace (pre ++ o :: c :: x :: post)%list with ((pre ++ [o; c]) ++ x :: post)%list
        by (rewrite <- app_assoc; reflexivity).
      replace (pre ++ c' :: x :: post)%list with ((pre ++ [c']) ++ x :: post)%list
        by (rewrite <- app_assoc; reflexivity).
      rewrite (last_app_nonempty (pre ++ [o; c]) (x :: post) h h) by discriminate.
      rewrite (last_app_nonempty (pre ++ [c']) (x :: post) h h) by discriminate.
      reflexivity.
Qed.

Lemma usable_inherit (o c : GCodeCommand) : usable c -> usable (inherit_Z o c).
Proof. unfold inherit_Z. now destruct (param_get o "Z"). Qed.

Lemma adjacent_free_past_end (i : nat) (ls : list GCodeCommand) :
  (List.length ls <= i)%nat -> adjacent_free_from i ls.
Proof.
  intros Hlen pre o c post E Hi. subst ls. rewrite length_app in Hlen. simpl in Hlen. lia.
Qed.

Lemma position_of_nat {A : Type} (l : list A) (n : nat) : position l (Z.of_nat n) = n.
Proof.
  unfold position. replace (Z.of_nat n <? 0) with false by (symmetry; apply Z.ltb_ge; lia).
  apply Nat2Z.id.
Qed.

(** One pass, away from a wrap: every merge keeps what the runs merge
    to, and a pass that reports no change has found no adjacent
    travels. *)
Lemma collapse_pass_merges : forall fuel i ls altered,
  Forall usable ls -> no_wrap ls -> (List.length ls <= fuel + i)%nat ->
  exists ls' b,
    collapse_pass (S fuel) i ls altered = Ok (ls', b) /\
    Forall usable ls' /\ no_wrap ls' /\ merge_runs ls' = merge_runs ls /\
    (List.length ls' <= List.length ls)%nat /\
    (b = true -> altered = true \/ (List.length ls' < List.length ls)%nat) /\
    (altered = true -> b = true) /\
    (b = false -> ls' = ls /\ adjacent_free_from i ls).
Proof.
  induction fuel as [|fuel IH]; intros i ls altered Hu Hw Hlen.
  - rewrite collapse_pass_end by (apply nth_error_None; simpl in Hlen; lia).
    exists ls, altered. repeat split; auto.
    apply adjacent_free_past_end. simpl in Hlen. lia.
  - destruct (nth_error ls i) as [c|] eqn:En.
    2:{ rewrite collapse_pass_end by exact En. exists ls, altered.
        repeat split; auto. apply adjacent_free_past_end. now apply nth_error_None. }
    rewrite (collapse_pass_step _ _ _ _ c En).
    assert (Hcmd : forall x, In x ls -> isACommand x = true).
    { intros x Hx. apply usable_isACommand. rewrite Forall_forall in Hu. now apply Hu. }
    destruct i as [|j].
    + (* index 0: the command one back is the last of the list *)
      destruct ls as [|h t]; [discriminate|]. simpl in En. inversion En; subst c.
      assert (Hlast : In (last t h) (h :: t)).
      { eapply nth_error_In. apply nth_error_last_of. }
      rewrite (getCommandRelativeToIndex_prev (h :: t) (Z.of_nat 0) (last t h)
                 (py_index_last h t) (Hcmd _ Hlast)).
      cbn [bind snd]. cbn [no_wrap] in Hw. unfold is_G0 in Hw. rewrite Hw.
      destruct (IH 1%nat (h :: t) altered Hu) as (ls' & b & Hr & Hu' & Hw' & Hm & Hl & Hb & Ha & Hf).
      * exact Hw.
      * lia.
      * exists ls', b.
        split; [exact Hr|]. split; [exact Hu'|]. split; [exact Hw'|].
        split; [exact Hm|]. split; [exact Hl|]. split; [exact Hb|]. split; [exact Ha|].
        intros Hbf. destruct (Hf Hbf) as [Heq Hfree]. split; [exact Heq|].
        intros pre o c post E _. apply (Hfree pre o c post E). simpl. lia.
    + (* index j + 1: the command one back is at j *)
      destruct (nth_error ls j) as [o|] eqn:Eo.
      2:{ apply nth_error_None in Eo.
          assert (S j < List.length ls)%nat by (apply nth_error_Some; congruence). lia. }
      destruct (adjacent_split ls j o c Eo En) as (pre & post & Els & Hpre).
      assert (Hprev : forall l, nth_error l j = Some o ->
                 getCommandRelativeToIndex l (Z.of_nat (S j)) (-1)
                 = Ok (Z.of_nat j, o)).
      { intros l Hl.
        replace (Z.of_nat j) with (Z.of_nat (S j) - 1) by lia.
        apply getCommandRelativeToIndex_prev.
        - replace (Z.of_nat (S j) - 1) with (Z.of_nat j) by lia. now apply py_index_nth.
        - apply Hcmd. eapply nth_error_In. exact Eo. }
      rewrite (Hprev ls Eo). cbn [bind snd fst].
      change (String.eqb "G0" (verb c) && String.eqb "G0" (verb o))
        with (is_G0 c && is_G0 o).
      destruct (is_G0 c && is_G0 o) eqn:Econd.
      * apply andb_prop in Econd. destruct Econd as [Hc Ho]. cbv zeta.
        assert (Els1 : match param_get o "Z" with
                       | Some z => replace_at (S j) (set_param c "Z" z) ls
                       | None => ls
                       end = (pre ++ o :: inherit_Z o c :: post)%list).
        { unfold inherit_Z. destruct (param_get o "Z") as [z|]; [|exact Els].
          rewrite Els. replace (S j) with (List.length pre + 1)%nat by lia.
          now rewrite replace_at_app. }
        rewrite Els1.
        rewrite (Hprev (pre ++ o :: inherit_Z o c :: post)%list)
          by (rewrite <- Hpre; now rewrite nth_error_app_here).
        cbn [bind fst]. rewrite position_of_nat.
        replace (remove_at j (pre ++ o :: inherit_Z o c :: post))
          with (pre ++ inherit_Z o c :: post)%list
          by (rewrite <- Hpre; now rewrite remove_at_here).
        set (ls2 := (pre ++ inherit_Z o c :: post)%list).
        assert (Hu2 : Forall usable ls2).
        { rewrite Els in Hu. apply Forall_app in Hu. destruct Hu as [Hu1 Hu2].
          inversion Hu2 as [|? ? _ Hu3]; subst. inversion Hu3; subst.
          apply Forall_app. split; [assumption|]. constructor; [|assumption].
          now apply usable_inherit. }
        assert (Hw2 : no_wrap ls2).
        { rewrite Els in Hw. apply (no_wrap_merge pre post o c); try assumption.
          now rewrite is_G0_inherit. }
        assert (Hlen2 : S (List.length ls2) = List.length ls).
        { rewrite Els. unfold ls2. rewrite !length_app. simpl. lia. }
        destruct (IH (S (S j)) ls2 true Hu2 Hw2 ltac:(lia))
          as (ls' & b & Hr & Hu' & Hw' & Hm & Hl & Hb & Ha & Hf).
        exists ls', b. rewrite (Ha eq_refl) in *.
        split; [exact Hr|]. split; [exact Hu'|]. split; [exact Hw'|].
        split; [|split; [|split; [|split]]].
        -- rewrite Hm. unfold ls2, merge_runs. rewrite Els.
           symmetry. now apply merge_runs_aux_step.
        -- lia.
        -- intros _. right. lia.
        -- reflexivity.
        -- discriminate.
      * destruct (IH (S (S j)) ls altered Hu Hw ltac:(lia))
          as (ls' & b & Hr & Hu' & Hw' & Hm & Hl & Hb & Ha & Hf).
        exists ls', b.
        split; [exact Hr|]. split; [exact Hu'|]. split; [exact Hw'|].
        split; [exact Hm|]. split; [exact Hl|]. split; [exact Hb|]. split; [exact Ha|].
        intros Hbf. destruct (Hf Hbf) as [Heq0 Hfree]. split; [exact Heq0|].
        intros pre1 o1 c1 post1 E1 Hi1.
        destruct (Nat.eq_dec (S (List.length pre1)) (S j)) as [Heq|Hne].
        -- assert (nth_error ls (List.length pre1) = Some o1)
             by (rewrite E1; now rewrite nth_error_app_here).
           assert (nth_error ls (S (List.length pre1)) = Some c1).
           { rewrite E1. replace (S (List.length pre1)) with (List.length pre1 + 1)%nat by lia.
             rewrite nth_error_app2 by lia.
             now replace (List.length pre1 + 1 - List.length pre1)%nat with 1%nat by lia. }
           inversion Heq as [Heq']. rewrite Heq' in *.
           assert (o1 = o) by congruence. assert (c1 = c) by congruence. subst. exact Econd.
        -- apply (Hfree pre1 o1 c1 post1 E1). lia.
Qed.

Lemma collapse_loop_merges : forall fuel ls,
  Forall usable ls -> no_wrap ls -> (List.length ls < fuel)%nat ->
  collapse_loop fuel ls = Ok (merge_runs ls).
Proof.
  induction fuel as [|fuel IH]; intros ls Hu Hw Hf; [lia|].
  destruct (collapse_pass_merges (List.length ls) 0 ls false Hu Hw ltac:(lia))
    as (ls' & b & Hr & Hu' & Hw' & Hm & Hl & Hb & _ & Hfree).
  change (collapse_loop (S fuel) ls)
    with (r <- collapse_pass (S (List.length ls)) 0 ls false ;;
          if snd r then collapse_loop fuel (fst r) else Ok (fst r)).
  rewrite Hr. cbn [bind fst snd]. destruct b.
  - destruct (Hb eq_refl) as [H|H]; [discriminate|].
    rewrite (IH ls' Hu' Hw' ltac:(lia)). now rewrite Hm.
  - destruct (Hfree eq_refl) as [-> Hadj]. f_equal. symmetry.
    apply merge_runs_no_adjacent. now apply adjacent_free_no_adjacent.
Qed.

(** On a list of usable commands that does not both start and end with
    a G0, the collapse ends and leaves of every run of consecutive G0
    commands the last one, with the Z inherited along the run. *)
Theorem collapse_merges_runs (ls : list GCodeCommand) :
  Forall usable ls -> no_wrap ls -> collapse ls = Ok (merge_runs ls).
Proof.
  intros Hu Hw. unfold collapse. apply collapse_loop_merges; [exact Hu|exact Hw|lia].
Qed.

(** A command that is no G0 ends the run before it. *)
Lemma merge_runs_aux_boundary (pre : list GCodeCommand) : forall pend rest d,
  pre <> [] -> is_G0 (last pre d) = false ->
  merge_runs_aux pend (pre ++ rest)
  = (merge_runs_aux pend pre ++ merge_runs_aux None rest)%list.
Proof.
  induction pre as [|a pre IH]; intros pend rest d Hne Hlast; [congruence|].
  destruct pre as [|b pre].
  - simpl in Hlast. cbn [app merge_runs_aux]. rewrite Hlast.
    rewrite <- app_assoc. reflexivity.
  - change (last (a :: b :: pre) d) with (last (b :: pre) d) in Hlast.
    assert (Hq : b :: pre <> []) by discriminate.
    remember (b :: pre) as q eqn:Eq. clear Eq.
    change ((a :: q) ++ rest)%list with (a :: (q ++ rest))%list.
    cbn [merge_runs_aux]. destruct (is_G0 a).
    + now apply (IH _ rest d).
    + rewrite (IH None rest d Hq Hlast).
      rewrite <- app_assoc. reflexivity.
Qed.

(** A run of G0 commands followed by the end of the list, or by a
    command that is no G0, merges to one command. *)
Lemma merge_runs_aux_run (rs : list GCodeCommand) : forall r post,
  Forall (fun c => is_G0 c = true) rs ->
  match post with [] => True | c :: _ => is_G0 c = false end ->
  merge_runs_aux (Some r) (rs ++ post)
  = fold_left inherit_Z rs r :: merge_runs_aux None post.
Proof.
  induction rs as [|a rs IH]; intros r post Hrs Hpost.
  - destruct post as [|c post]; [reflexivity|]. cbn [app merge_runs_aux].
    now rewrite Hpost.
  - inversion Hrs as [|? ? Ha Hrs']; subst. cbn [app merge_runs_aux fold_left].
    rewrite Ha. now apply IH.
Qed.

Lemma param_get_inherit_Z (o c : GCodeCommand) :
  param_get (inherit_Z o c) "Z"
  = match param_get o "Z" with Some z => Some z | None => param_get c "Z" end.
Proof.
  unfold inherit_Z. destruct (param_get o "Z") as [z|]; [|reflexivity].
  unfold param_get, set_param. simpl. apply sdict_get_set_same.
Qed.

Lemma param_get_inherit_other (o c : GCodeCommand) (k : string) :
  k <> "Z" -> param_get (inherit_Z o c) k = param_get c k.
Proof.
  intros Hk. unfold inherit_Z. destruct (param_get o "Z") as [z|]; [|reflexivity].
  unfold param_get, set_param. simpl. apply sdict_get_set_other. congruence.
Qed.

(** The command a run merges to is the last of the run, carrying the
    first Z the run specifies. *)
Lemma merged_run_survivor (rs : list GCodeCommand) : forall r,
  param_get (fold_left inherit_Z rs r) "Z" = first_Z (r :: rs) /\
  verb (fold_left inherit_Z rs r) = verb (last rs r) /\
  comment (fold_left inherit_Z rs r) = comment (last rs r) /\
  forall k, k <> "Z" ->
            param_get (fold_left inherit_Z rs r) k = param_get (last rs r) k.
Proof.
  induction rs as [|a rs IH]; intros r.
  - simpl. destruct (param_get r "Z"); repeat split.
  - cbn [fold_left]. destruct (IH (inherit_Z r a)) as (HZ & Hv & Hc & Hk).
    assert (Hlast : forall (f : GCodeCommand -> string),
               f (inherit_Z r a) = f a ->
               f (last rs (inherit_Z r a)) = f (last (a :: rs) r)).
    { intros f Hf. destruct rs as [|b rs]; [exact Hf|].
      change (last (a :: b :: rs) r) with (last (b :: rs) r).
      f_equal. apply last_default. discriminate. }
    split; [|split; [|split]].
    + rewrite HZ. cbn [first_Z]. rewrite param_get_inherit_Z.
      now destruct (param_get r "Z").
    + rewrite Hv. apply (Hlast verb). unfold inherit_Z. now destruct (param_get r "Z").
    + rewrite Hc. apply (Hlast comment). unfold inherit_Z. now destruct (param_get r "Z").
    + intros k Hne. rewrite (Hk k Hne). destruct rs as [|b rs].
      * simpl. now apply param_get_inherit_other.
      * change (last (a :: b :: rs) r) with (last (b :: rs) r).
        f_equal. apply last_default. discriminate.
Qed.

(** Of K consecutive G0 commands [r :: rs], between commands that are no
    G0 or the ends of a list that does not both start and end with a G0,
    the collapse leaves exactly one: the last, with the first Z that one
    of the K specifies. *)
Theorem collapse_run (pre rs post : list GCodeCommand) (r d : GCodeCommand) :
  Forall usable (pre ++ (r :: rs) ++ post) ->
  no_wrap (pre ++ (r :: rs) ++ post) ->
  Forall (fun c => is_G0 c = true) (r :: rs) ->
  pre = [] \/ is_G0 (last pre d) = false ->
  match post with [] => True | c :: _ => is_G0 c = false end ->
  collapse (pre ++ (r :: rs) ++ post)
  = Ok (merge_runs pre ++ fold_left inherit_Z rs r :: merge_runs post)%list /\
  param_get (fold_left inherit_Z rs r) "Z" = first_Z (r :: rs) /\
  verb (fold_left inherit_Z rs r) = "G0" /\
  forall k, k <> "Z" ->
            param_get (fold_left inherit_Z rs r) k = param_get (last rs r) k.
Proof.
  intros Hu Hw Hrun Hpre Hpost.
  destruct (merged_run_survivor rs r) as (HZ & Hv & _ & Hk).
  split; [|split; [exact HZ|split; [|exact Hk]]].
  - rewrite (collapse_merges_runs _ Hu Hw). f_equal. unfold merge_runs.
    assert (Hrest : merge_runs_aux None ((r :: rs) ++ post)
                    = fold_left inherit_Z rs r :: merge_runs_aux None post).
    { inversion Hrun as [|? ? Hr Hrs]; subst. cbn [app merge_runs_aux]. rewrite Hr.
      now apply merge_runs_aux_run. }
    destruct Hpre as [->|Hlast].
    + simpl app at 1. exact Hrest.
    + destruct pre as [|p pre]; [exact Hrest|].
      rewrite (merge_runs_aux_boundary (p :: pre) None _ d) by (try discriminate; exact Hlast).
      now rewrite Hrest.
  - rewrite Hv. assert (Hl : In (last rs r) (r :: rs)).
    { eapply nth_error_In. apply nth_error_last_of. }
    rewrite Forall_forall in Hrun. specialize (Hrun _ Hl).
    unfold is_G0 in Hrun. apply String.eqb_eq in Hrun. now symmetry.
Qed.

(** ** The travel expansion *)

Lemma param_lookup_has (c : GCodeCommand) (k : string) :
  (has_param c k = true /\ exists v, param_get c k = Some v /\ param_lookup c k = Ok v) \/
  (has_param c k = false /\ param_lookup c k = Raise (KeyError k)).
Proof.
  unfold has_param, dict_mem, param_lookup, param_get.
  destruct (dict_get String.eqb (parameters c) k) as [v|].
  - left. split; [reflexivity|]. now exists v.
  - right. split; reflexivity.
Qed.

(** The expansion ends with a result exactly when every G0 carries X and
    Y; otherwise it ends with the [KeyError] of the missing one. *)
Lemma expand_spec_outcome (s : script) (ls : list GCodeCommand) : forall altitude,
  (forallb travel_ok ls = true /\ exists out, expand_spec s altitude ls = Ok out) \/
  (forallb travel_ok ls = false /\
   exists k, (k = "X" \/ k = "Y") /\ expand_spec s altitude ls = Raise (KeyError k)).
Proof.
  induction ls as [|c ls IH]; intros altitude.
  - left. split; [reflexivity|]. now exists [].
  - cbn [expand_spec forallb]. unfold travel_ok at 1 3.
    set (target := match param_get c "Z" with Some z => z | None => altitude end).
    destruct (String.eqb (verb c) "G0"); cbn [negb orb].
    + destruct (param_lookup_has c "X") as [(HX & x & _ & Lx)|(HX & Lx)];
        rewrite HX, Lx; cbn [bind andb].
      2:{ right. split; [reflexivity|]. exists "X". split; [now left|reflexivity]. }
      destruct (param_lookup_has c "Y") as [(HY & y & _ & Ly)|(HY & Ly)];
        rewrite HY, Ly; cbn [bind andb].
      2:{ right. split; [reflexivity|]. exists "Y". split; [now right|reflexivity]. }
      destruct (IH target) as [(Hall & out & Ho)|(Hall & k & Hk & Ho)];
        rewrite Hall, Ho; cbn [bind].
      * left. split; [reflexivity|]. eexists; reflexivity.
      * right. split; [reflexivity|]. exists k. split; [exact Hk|reflexivity].
    + destruct (IH target) as [(Hall & out & Ho)|(Hall & k & Hk & Ho)];
        rewrite Hall, Ho; cbn [bind].
      * left. split; [reflexivity|]. eexists; reflexivity.
      * right. split; [reflexivity|]. exists k. split; [exact Hk|reflexivity].
Qed.

Lemma expand_spec_expands (s : script) (ls : list GCodeCommand) : forall altitude out,
  expand_spec s altitude ls = Ok out -> expands s altitude ls out.
Proof.
  induction ls as [|c ls IH]; intros altitude out H; cbn [expand_spec] in H.
  - inversion H. constructor.
  - fold (running altitude c) in H.
    destruct (String.eqb_spec (verb c) "G0") as [Ev|Ev].
    + destruct (param_lookup_has c "X") as [(_ & x & Gx & Lx)|(_ & Lx)];
        rewrite Lx in H; cbn [bind] in H; try discriminate.
      destruct (param_lookup_has c "Y") as [(_ & y & Gy & Ly)|(_ & Ly)];
        rewrite Ly in H; cbn [bind] in H; try discriminate.
      destruct (expand_spec s (running altitude c) ls) as [r| |] eqn:Er;
        cbn [bind] in H; try discriminate.
      inversion H; subst. apply expands_travel; auto.
    + destruct (expand_spec s (running altitude c) ls) as [r| |] eqn:Er;
        cbn [bind] in H; try discriminate.
      inversion H; subst. apply expands_keep; auto.
Qed.

Lemma expands_all_G1 (s : script) (a : value) (ls out : list GCodeCommand) :
  expands s a ls out -> Forall usable ls -> Forall (fun c => verb c = "G1") out.
Proof.
  induction 1 as [a|a c rest out Hv _ IH|a c rest out x y Hv Hx Hy _ IH]; intros Hu.
  - constructor.
  - inversion Hu as [|? ? Hc Hrest]; subst. constructor; [|now apply IH].
    unfold usable, _isPrinterSpecificCommand, USABLE_COMMANDS in Hc. simpl in Hc.
    destruct (String.eqb_spec (verb c) "G1"); [assumption|].
    destruct (String.eqb_spec (verb c) "G0"); [contradiction|discriminate].
  - inversion Hu; subst. repeat constructor. now apply IH.
Qed.

(** C1.  When [convert] returns, the body is the list left by the
    earlier steps with every G0 replaced by three G1 commands: the lift
    to the clearance height, the move to the G0's X and Y, which carries
    no Z, and the plunge to the G0's own Z or else the running altitude.
    No G0 is left; the lift and the plunge carry no X or Y; the lateral
    move comes right after the lift. *)
Theorem convert_expands_travels (s s' : script) :
  convert s = Ok s' ->
  exists mid,
    convert_prepare (lines s) = Ok mid /\
    s' = with_lines s (lines s') /\
    expands s (VInt 0) mid (lines s') /\
    Forall (fun c => verb c = "G1") (lines s') /\
    param_get (lift_move s) "Z" = Some (clearance s) /\
    has_param (lift_move s) "X" = false /\ has_param (lift_move s) "Y" = false /\
    (forall x y, has_param (lateral_move x y) "Z" = false) /\
    (forall z, param_get (plunge_move s z) "Z" = Some z /\
               has_param (plunge_move s z) "X" = false /\
               has_param (plunge_move s z) "Y" = false).
Proof.
  intros H. unfold convert in H.
  destruct (convert_prepare_total (lines s)) as (mid & Hm & Hu).
  rewrite Hm in H. cbn [bind] in H. rewrite expand_travels_spec in H.
  destruct (expand_spec s (VInt 0) mid) as [out| |] eqn:Eo; cbn [bind] in H; try discriminate.
  inversion H; subst s'. clear H. exists mid. simpl lines.
  pose proof (expand_spec_expands _ _ _ _ Eo) as Hex.
  repeat split; try reflexivity; try assumption.
  eapply expands_all_G1; eassumption.
Qed.

Lemma convert_expands_travels_witness :
  exists s',
    convert (script_of [mkCommand "G1" [("X", VInt 1); ("Y", VInt 1); ("Z", VInt 2); ("E", VInt 1)] "";
                        mkCommand "M106" [("S", VInt 255)] "";
                        mkCommand "G0" [("X", VInt 5); ("Y", VInt 6)] "";
                        mkCommand "G1" [("X", VInt 7); ("Y", VInt 6)] ""]) = Ok s' /\
    lines s' = [mkCommand "G1" [("X", VInt 1); ("Y", VInt 1); ("Z", VInt (-2))] "";
                mkCommand "G1" [("Z", VInt 3); ("F", VInt 500)] "";
                mkCommand "G1" [("X", VInt 5); ("Y", VInt 6)] "";
                mkCommand "G1" [("Z", VInt (-2)); ("F", VInt 200)] "";
                mkCommand "G1" [("X", VInt 7); ("Y", VInt 6)] ""] /\
    Forall (fun c => verb c = "G1") (lines s').
Proof.
  eexists. split; [reflexivity|]. split; [reflexivity|].
  destruct (convert_expands_travels
              (script_of [mkCommand "G1" [("X", VInt 1); ("Y", VInt 1); ("Z", VInt 2); ("E", VInt 1)] "";
                          mkCommand "M106" [("S", VInt 255)] "";
                          mkCommand "G0" [("X", VInt 5); ("Y", VInt 6)] "";
                          mkCommand "G1" [("X", VInt 7); ("Y", VInt 6)] ""])
              _ eq_refl) as (mid & _ & _ & _ & H & _).
  exact H.
Defined.

(** C9.  The earlier steps of [convert] always end; the travel expansion
    then returns exactly when every G0 they leave carries X and Y, and
    otherwise ends with the [KeyError] of the missing key.  The body
    [G1 X0 Y0], [G0 Z5], [G1 X1 Y1] ends with [KeyError] on X. *)
Theorem travel_expansion_needs_X_and_Y :
  (forall s : script,
      exists mid,
        convert_prepare (lines s) = Ok mid /\
        ((forallb travel_ok mid = true /\ exists s', convert s = Ok s') \/
         (forallb travel_ok mid = false /\
          exists k, (k = "X" \/ k = "Y") /\ convert s = Raise (KeyError k)))) /\
  convert (script_of [mkCommand "G1" [("X", VInt 0); ("Y", VInt 0)] "";
                      mkCommand "G0" [("Z", VInt 5)] "";
                      mkCommand "G1" [("X", VInt 1); ("Y", VInt 1)] ""])
  = Raise (KeyError "X").
Proof.
  split; [|reflexivity].
  intros s. destruct (convert_prepare_total (lines s)) as (mid & Hm & _).
  exists mid. split; [exact Hm|].
  unfold convert. rewrite Hm. cbn [bind]. rewrite expand_travels_spec.
  destruct (expand_spec_outcome s mid (VInt 0)) as [(Hall & out & Ho)|(Hall & k & Hk & Ho)];
    rewrite Ho; cbn [bind].
  - left. split; [exact Hall|]. eexists; reflexivity.
  - right. split; [exact Hall|]. exists k. split; [exact Hk|reflexivity].
Qed.

(** C2.  On the body [G0 X5 Y5 Z10], [G0 X6 Y6] the collapse leaves no
    command at all: at index 0 the command one back is the last of the
    list, so the first pass removes the second G0 and the next pass finds
    the remaining G0 to be its own predecessor and removes it.  Between
    two G1 commands the same pair collapses to [G0 X6 Y6] with the Z of
    the first. *)
Theorem collapse_wraps_around :
  let a := mkCommand "G0" [("X", VInt 5); ("Y", VInt 5); ("Z", VInt 10)] "" in
  let b := mkCommand "G0" [("X", VInt 6); ("Y", VInt 6)] "" in
  let g := mkCommand "G1" [("X", VInt 0); ("Y", VInt 0)] "" in
  convert_prepare [a; b] = Ok [] /\
  convert (script_of [a; b]) = Ok (script_of []) /\
  convert_prepare [a] = Ok [] /\
  convert_prepare [g; a; b; g]
  = Ok [g; mkCommand "G0" [("X", VInt 6); ("Y", VInt 6); ("Z", VInt (-10))] ""; g].
Proof.
  cbv zeta. repeat split; reflexivity.
Qed.

(** The two travels of the example, as [loadFromString] reads them. *)
Lemma collapse_example_loads (io : float_io) (s : script) :
  loadFromString io s ("G0 X5 Y5 Z10" ++ newline ++ "G0 X6 Y6")
  = Ok (with_lines s [mkCommand "G0" [("X", VInt 5); ("Y", VInt 5); ("Z", VInt 10)] "";
                      mkCommand "G0" [("X", VInt 6); ("Y", VInt 6)] ""]).
Proof. reflexivity. Qed.

(** ** The cleaning loop, read off the list *)

Lemma clean_loop_step fuel i ls :
  clean_loop (S fuel) i ls
  = match nth_error ls i with
    | None => Ok ls
    | Some command =>
        if isACommand command
        then clean_loop fuel (S i) (replace_at i (clear_comment command) ls)
        else clean_loop fuel (S i) (remove_at i ls)
    end.
Proof. reflexivity. Qed.

Lemma length_snoc {A : Type} (l : list A) (x : A) :
  List.length (l ++ [x]) = S (List.length l).
Proof. rewrite length_app. simpl. lia. Qed.

Lemma clean_loop_spec : forall n ls pre fuel,
  (List.length ls <= n)%nat -> (List.length ls < fuel)%nat ->
  clean_loop fuel (List.length pre) (pre ++ ls) = Ok (pre ++ clean_spec ls)%list.
Proof.
  induction n as [|n IH]; intros ls pre fuel Hn Hf.
  - destruct ls; [|simpl in Hn; lia].
    destruct fuel as [|fuel]; [simpl in Hf; lia|].
    rewrite clean_loop_step, nth_error_app_here. reflexivity.
  - destruct fuel as [|fuel]; [lia|].
    rewrite clean_loop_step, nth_error_app_here.
    destruct ls as [|c rest]; [reflexivity|].
    simpl in Hn, Hf. cbn [nth_error clean_spec].
    destruct (isACommand c).
    + replace (List.length pre) with (List.length pre + 0)%nat at 2 by lia.
      rewrite replace_at_app. cbn [replace_at].
      replace (pre ++ clear_comment c :: rest)%list
        with ((pre ++ [clear_comment c]) ++ rest)%list
        by (rewrite <- app_assoc; reflexivity).
      rewrite <- (length_snoc pre (clear_comment c)).
      rewrite IH by lia. rewrite <- app_assoc. reflexivity.
    + rewrite remove_at_here.
      destruct rest as [|d rest'].
      * destruct fuel as [|fuel]; [lia|].
        rewrite clean_loop_step.
        replace (nth_error (pre ++ []) (S (List.length pre))) with (@None GCodeCommand);
          [reflexivity|].
        symmetry. apply nth_error_None. rewrite length_app. simpl. lia.
      * simpl in Hn, Hf.
        replace (pre ++ d :: rest')%list with ((pre ++ [d]) ++ rest')%list
          by (rewrite <- app_assoc; reflexivity).
        rewrite <- (length_snoc pre d).
        rewrite IH by lia. rewrite <- app_assoc. reflexivity.
Qed.

Lemma clean_list_spec (ls : list GCodeCommand) :
  _cleanCommandsFromList ls = Ok (clean_spec ls).
Proof.
  unfold _cleanCommandsFromList.
  apply (clean_loop_spec (List.length ls) ls []); lia.
Qed.

(** Induction along [clean_spec], which steps over one line or two. *)
Lemma clean_spec_ind (P : list GCodeCommand -> Prop) :
  P [] ->
  (forall c rest, isACommand c = true -> P rest -> P (c :: rest)) ->
  (forall c, isACommand c = false -> P [c]) ->
  (forall c d rest, isACommand c = false -> P rest -> P (c :: d :: rest)) ->
  forall ls, P ls.
Proof.
  intros H0 H1 H2 H3 ls.
  assert (H : forall n l, (List.length l <= n)%nat -> P l).
  { induction n as [|n IH]; intros l Hl.
    - destruct l; [exact H0|simpl in Hl; lia].
    - destruct l as [|c rest]; [exact H0|]. simpl in Hl.
      destruct (isACommand c) eqn:E.
      + apply H1; [exact E|]. apply IH. lia.
      + destruct rest as [|d rest]; [now apply H2|].
        apply H3; [exact E|]. apply IH. simpl in Hl. lia. }
  apply (H (List.length ls)). lia.
Qed.

Lemma isACommand_clear (c : GCodeCommand) :
  isACommand (clear_comment c) = isACommand c.
Proof. reflexivity. Qed.

Lemma clean_spec_all_commands (ls : list GCodeCommand) :
  Forall (fun c => isACommand c = true) ls -> clean_spec ls = map clear_comment ls.
Proof.
  induction 1 as [|c rest Hc _ IH]; simpl; [reflexivity|].
  rewrite Hc, IH. reflexivity.
Qed.

(** *** The loop on shared objects *)

Lemma clean_objects_step fuel i o l :
  clean_objects (S fuel) i o l
  = match nth_error (lists o l) i with
    | None => Ok o
    | Some command =>
        if isACommand (commands o command)
        then clean_objects fuel (S i)
               (set_command o command (clear_comment (commands o command))) l
        else clean_objects fuel (S i)
               (set_list o l (remove_first command (lists o l))) l
    end.
Proof. reflexivity. Qed.

Lemma lists_set_list_same (o : objects) (l : nat) (v : list nat) :
  lists (set_list o l v) l = v.
Proof. cbn [lists set_list]. now rewrite Nat.eqb_refl. Qed.

Lemma lists_set_list_other (o : objects) (l m : nat) (v : list nat) :
  m <> l -> lists (set_list o l v) m = lists o m.
Proof.
  intros H. cbn [lists set_list]. destruct (Nat.eqb_spec m l); [contradiction|reflexivity].
Qed.

Lemma commands_set_command_other (o : objects) (a b : nat) (c : GCodeCommand) :
  b <> a -> commands (set_command o a c) b = commands o b.
Proof.
  intros H. cbn [commands set_command].
  destruct (Nat.eqb_spec b a); [contradiction|reflexivity].
Qed.

Lemma commands_set_command_same (o : objects) (a : nat) (c : GCodeCommand) :
  commands (set_command o a c) a = c.
Proof. cbn [commands set_command]. now rewrite Nat.eqb_refl. Qed.

Lemma length_remove_first (a : nat) (l : list nat) :
  In a l -> S (List.length (remove_first a l)) = List.length l.
Proof.
  induction l as [|b l IH]; intros H; [contradiction|]. cbn [remove_first].
  destruct (Nat.eqb_spec b a) as [->|Hne]; [reflexivity|].
  destruct H as [H|H]; [congruence|]. cbn [List.length]. now rewrite IH.
Qed.

Lemma remove_first_here (a : nat) (pre rest : list nat) :
  ~ In a pre -> remove_first a (pre ++ a :: rest) = (pre ++ rest)%list.
Proof.
  induction pre as [|b pre IH]; intros H; cbn [app remove_first].
  - now rewrite Nat.eqb_refl.
  - destruct (Nat.eqb_spec b a) as [->|Hne]; [exfalso; apply H; now left|].
    rewrite IH; [reflexivity|]. intros Hin. apply H. now right.
Qed.

Lemma map_agree {A B : Type} (f g : A -> B) (l : list A) :
  (forall x, In x l -> f x = g x) -> map f l = map g l.
Proof.
  induction l as [|x l IH]; intros H; [reflexivity|]. cbn [map].
  rewrite (H x) by now left. f_equal. apply IH. intros y Hy. apply H. now right.
Qed.

(** The loop ends on every list, whatever the objects share: the index
    grows and the list never does. *)
Lemma clean_objects_ends (l : nat) : forall fuel i o,
  (List.length (lists o l) <= fuel + i)%nat ->
  exists o', clean_objects (S fuel) i o l = Ok o'.
Proof.
  induction fuel as [|fuel IH]; intros i o Hlen; rewrite clean_objects_step.
  - destruct (nth_error (lists o l) i) as [a|] eqn:E; [|now exists o].
    assert (nth_error (lists o l) i <> None) by congruence.
    apply nth_error_Some in H. simpl in Hlen. lia.
  - destruct (nth_error (lists o l) i) as [a|] eqn:E; [|now exists o].
    destruct (isACommand (commands o a)).
    + apply IH. cbn [lists set_command]. lia.
    + apply IH. rewrite lists_set_list_same.
      pose proof (length_remove_first a (lists o l) (nth_error_In _ _ E)). lia.
Qed.

(** On a list that holds no command twice the loop leaves what
    [clean_spec] says, touches no other list, and no command but those
    of the list. *)
Lemma clean_objects_spec (l : nat) : forall n rest pre fuel o,
  lists o l = (pre ++ rest)%list -> NoDup (pre ++ rest) ->
  (List.length rest <= n)%nat -> (List.length rest < fuel)%nat ->
  exists o',
    clean_objects fuel (List.length pre) o l = Ok o' /\
    view o' l = (map (commands o) pre ++ clean_spec (map (commands o) rest))%list /\
    (forall m, m <> l -> lists o' m = lists o m) /\
    (forall b, ~ In b rest -> commands o' b = commands o b) /\
    (forall b, In b (lists o' l) -> In b (pre ++ rest)).
Proof.
  induction n as [|n IH]; intros rest pre fuel o Hl Hnd Hn Hf.
  - destruct rest; [|simpl in Hn; lia].
    destruct fuel as [|fuel]; [simpl in Hf; lia|].
    rewrite clean_objects_step, Hl, nth_error_app_here. cbn [nth_error].
    exists o. unfold view. rewrite Hl, app_nil_r. cbn [map clean_spec].
    rewrite app_nil_r. repeat split; auto.
  - destruct fuel as [|fuel]; [lia|].
    rewrite clean_objects_step, Hl, nth_error_app_here.
    destruct rest as [|a rest].
    { cbn [nth_error]. exists o. unfold view. rewrite Hl, app_nil_r. cbn [map clean_spec].
      rewrite app_nil_r. repeat split; auto. }
    cbn [nth_error map clean_spec]. simpl in Hn, Hf.
    assert (Ha_pre : ~ In a pre).
    { apply NoDup_remove_2 in Hnd. intros H. apply Hnd. apply in_or_app. now left. }
    assert (Ha_rest : ~ In a rest).
    { apply NoDup_remove_2 in Hnd. intros H. apply Hnd. apply in_or_app. now right. }
    destruct (isACommand (commands o a)) eqn:Ec.
    + set (o1 := set_command o a (clear_comment (commands o a))).
      destruct (IH rest (pre ++ [a])%list fuel o1) as (o' & Hr & Hv & Hm & Hc & Hin).
      * cbn [lists o1 set_command]. rewrite Hl, <- app_assoc. reflexivity.
      * rewrite <- app_assoc. exact Hnd.
      * lia.
      * lia.
      * rewrite length_snoc in Hr. exists o'. split; [exact Hr|].
        split; [|split; [exact Hm|split]].
        -- rewrite Hv, map_app, <- app_assoc. cbn [map app].
           unfold o1. rewrite commands_set_command_same.
           rewrite (map_agree (commands (set_command o a _)) (commands o) pre).
           ++ rewrite (map_agree (commands (set_command o a _)) (commands o) rest).
              ** reflexivity.
              ** intros x Hx. apply commands_set_command_other. congruence.
           ++ intros x Hx. apply commands_set_command_other. congruence.
        -- intros b Hb. rewrite Hc by (intros H; apply Hb; now right).
           apply commands_set_command_other. intros ->. apply Hb. now left.
        -- intros b Hb. apply Hin in Hb. now rewrite <- app_assoc in Hb.
    + set (o1 := set_list o l (remove_first a (pre ++ a :: rest))).
      assert (Hl1 : lists o1 l = (pre ++ rest)%list).
      { unfold o1. rewrite lists_set_list_same. now apply remove_first_here. }
      assert (Hnd1 : NoDup (pre ++ rest)) by now apply NoDup_remove_1 in Hnd.
      destruct rest as [|d rest'].
      * destruct fuel as [|fuel]; [lia|].
        rewrite clean_objects_step, Hl1.
        replace (nth_error (pre ++ []) (S (List.length pre))) with (@None nat)
          by (symmetry; apply nth_error_None; rewrite length_app; simpl; lia).
        exists o1. unfold view. rewrite Hl1, app_nil_r. cbn [map].
        rewrite app_nil_r. split; [reflexivity|]. split; [reflexivity|].
        split; [|split].
        -- intros m Hm. now apply lists_set_list_other.
        -- reflexivity.
        -- intros b Hb. apply in_or_app. now left.
      * simpl in Hn, Hf.
        destruct (IH rest' (pre ++ [d])%list fuel o1) as (o' & Hr & Hv & Hm & Hc & Hin).
        -- rewrite Hl1, <- app_assoc. reflexivity.
        -- rewrite <- app_assoc. exact Hnd1.
        -- lia.
        -- lia.
        -- rewrite length_snoc in Hr. exists o'. split; [exact Hr|].
           split; [|split; [|split]].
           ++ rewrite Hv, map_app, <- app_assoc. reflexivity.
           ++ intros m Hne. rewrite Hm by exact Hne. now apply lists_set_list_other.
           ++ intros b Hb. apply Hc. intros H. apply Hb. right. now right.
           ++ intros b Hb. apply Hin in Hb. rewrite <- app_assoc in Hb.
              apply in_app_or in Hb. apply in_or_app.
              destruct Hb as [Hb|Hb]; [now left|right; now right].
Qed.

Lemma clean_list_objects (o : objects) (l : nat) :
  NoDup (lists o l) ->
  exists o',
    _cleanCommandsFromList_objects o l = Ok o' /\
    view o' l = clean_spec (view o l) /\
    (forall m, m <> l -> lists o' m = lists o m) /\
    (forall b, ~ In b (lists o l) -> commands o' b = commands o b) /\
    (forall b, In b (lists o' l) -> In b (lists o l)).
Proof.
  intros Hnd. unfold _cleanCommandsFromList_objects.
  destruct (clean_objects_spec l (List.length (lists o l)) (lists o l) []
              (S (List.length (lists o l))) o) as (o' & Hr & Hv & Hm & Hc & Hin);
    try reflexivity; try assumption; try lia.
  exists o'. repeat split; assumption.
Qed.

(** A list another list was cleaned beside is as it was, when the two
    hold no command in common. *)
Lemma view_untouched (o o' : objects) (l m : nat) (touched : list nat) :
  lists o' m = lists o m ->
  (forall b, ~ In b touched -> commands o' b = commands o b) ->
  (forall b, In b (lists o m) -> ~ In b touched) ->
  view o' m = view o m.
Proof.
  intros Hl Hc Hd. unfold view. rewrite Hl. apply map_agree.
  intros b Hb. apply Hc. now apply Hd.
Qed.

Lemma NoDup_app_parts {A : Type} (a b : list A) :
  NoDup (a ++ b) -> NoDup a /\ NoDup b /\ (forall x, In x a -> ~ In x b).
Proof.
  induction a as [|x a IH]; cbn [app]; intros H.
  - split; [constructor|]. split; [exact H|]. intros x [].
  - inversion H as [|? ? Hx Hrest]; subst. destruct (IH Hrest) as (Ha & Hb & Hd).
    split; [|split; [exact Hb|]].
    + constructor; [|exact Ha]. intros Hin. apply Hx. apply in_or_app. now left.
    + intros y [<-|Hy]; [|now apply Hd]. intros Hin. apply Hx. apply in_or_app. now right.
Qed.

(** X1.  [GCodeScriptCNC.shrink] returns on every instance, whatever
    its lists share.  When the body, the prefix and the suffix are three
    lists and no command is in them twice, each of the three comes out as
    the loop leaves a list: a command without its comment, a line that
    is no command dropped, and the line after a dropped one passed over
    untouched. *)
Theorem shrink_distinct_objects (o : objects) (self : instance) :
  (exists o', shrink_objects o self = Ok o') /\
  (NoDup [lines_at self; prefixGcode_at self; suffixGcode_at self] ->
   NoDup (lists o (lines_at self) ++ lists o (prefixGcode_at self)
            ++ lists o (suffixGcode_at self)) ->
   exists o',
     shrink_objects o self = Ok o' /\
     view o' (lines_at self) = clean_spec (view o (lines_at self)) /\
     view o' (prefixGcode_at self) = clean_spec (view o (prefixGcode_at self)) /\
     view o' (suffixGcode_at self) = clean_spec (view o (suffixGcode_at self))).
Proof.
  destruct self as [L P S]. cbn [lines_at prefixGcode_at suffixGcode_at].
  unfold shrink_objects. cbn [lines_at prefixGcode_at suffixGcode_at]. split.
  - unfold _cleanCommandsFromList_objects.
    destruct (clean_objects_ends L (List.length (lists o L)) 0 o) as (o1 & ->); [lia|].
    cbn [bind].
    destruct (clean_objects_ends P (List.length (lists o1 P)) 0 o1) as (o2 & ->); [lia|].
    cbn [bind].
    apply clean_objects_ends. lia.
  - intros Hrefs Hnd.
    assert (HLP : L <> P /\ L <> S /\ P <> S).
    { inversion Hrefs as [|? ? H1 H2]; subst. inversion H2 as [|? ? H3 _]; subst.
      cbn [In] in H1, H3. repeat split; intros ->; tauto. }
    destruct HLP as (HLP & HLS & HPS).
    apply NoDup_app_parts in Hnd. destruct Hnd as (HndL & Hnd & HdL).
    apply NoDup_app_parts in Hnd. destruct Hnd as (HndP & HndS & HdP).
    destruct (clean_list_objects o L HndL) as (o1 & -> & Hv1 & Hm1 & Hc1 & Hin1).
    cbn [bind].
    assert (HP1 : lists o1 P = lists o P) by (apply Hm1; congruence).
    assert (HS1 : lists o1 S = lists o S) by (apply Hm1; congruence).
    destruct (clean_list_objects o1 P) as (o2 & -> & Hv2 & Hm2 & Hc2 & Hin2);
      [now rewrite HP1|].
    cbn [bind].
    assert (HS2 : lists o2 S = lists o S) by (rewrite Hm2 by congruence; exact HS1).
    destruct (clean_list_objects o2 S) as (o3 & -> & Hv3 & Hm3 & Hc3 & Hin3);
      [now rewrite HS2|].
    exists o3. split; [reflexivity|].
    assert (VP1 : view o1 P = view o P).
    { apply (view_untouched o o1 L P (lists o L)); [exact HP1|exact Hc1|].
      intros b Hb HbL. apply (HdL b HbL). apply in_or_app. now left. }
    assert (VS1 : view o1 S = view o S).
    { apply (view_untouched o o1 L S (lists o L)); [exact HS1|exact Hc1|].
      intros b Hb HbL. apply (HdL b HbL). apply in_or_app. now right. }
    assert (VS2 : view o2 S = view o1 S).
    { apply (view_untouched o1 o2 P S (lists o1 P)); [now rewrite HS2, HS1|exact Hc2|].
      intros b Hb HbP. rewrite HP1 in HbP. rewrite HS1 in Hb. exact (HdP b HbP Hb). }
    assert (VL2 : view o2 L = view o1 L).
    { apply (view_untouched o1 o2 P L (lists o1 P));
        [apply Hm2; congruence|exact Hc2|].
      intros b Hb HbP. rewrite HP1 in HbP. apply Hin1 in Hb.
      apply (HdL b Hb). apply in_or_app. now left. }
    assert (VL3 : view o3 L = view o2 L).
    { apply (view_untouched o2 o3 S L (lists o2 S));
        [apply Hm3; congruence|exact Hc3|].
      intros b Hb HbS. rewrite HS2 in HbS.
      rewrite (Hm2 L) in Hb by congruence. apply Hin1 in Hb.
      apply (HdL b Hb). apply in_or_app. now right. }
    assert (VP3 : view o3 P = view o2 P).
    { apply (view_untouched o2 o3 S P (lists o2 S));
        [apply Hm3; congruence|exact Hc3|].
      intros b Hb HbS. rewrite HS2 in HbS. apply Hin2 in Hb. rewrite HP1 in Hb.
      exact (HdP b Hb HbS). }
    split; [|split].
    + now rewrite VL3, VL2, Hv1.
    + now rewrite VP3, Hv2, VP1.
    + now rewrite Hv3, VS2, VS1.
Qed.

Lemma shrink_distinct_objects_witness :
  let o := mkObjects (fun a => match a with
                               | O => mkCommand "" [] "a"
                               | S O => mkCommand "G1" [] "hello"
                               | S (S O) => mkCommand "" [] "b"
                               | _ => mkCommand "G90" [] "start"
                               end)
                     (fun l => match l with
                               | O => [0%nat; 1%nat; 2%nat]
                               | S O => [3%nat]
                               | _ => []
                               end) in
  exists o',
    shrink_objects o (mkInstance 0 1 2) = Ok o' /\
    view o' 0%nat = [mkCommand "G1" [] "hello"] /\
    view o' 1%nat = [mkCommand "G90" [] ""] /\
    view o' 2%nat = [].
Proof.
  intros o.
  destruct (proj2 (shrink_distinct_objects o (mkInstance 0 1 2)))
    as (o' & Hr & Hl & Hp & Hs).
  - repeat constructor; simpl; intuition discriminate.
  - repeat constructor; simpl; intuition discriminate.
  - cbn [lines_at prefixGcode_at suffixGcode_at] in Hl, Hp, Hs.
    exists o'. rewrite Hl, Hp, Hs. split; [exact Hr|]. repeat split.
Defined.

(** After an export the prefix holds the commands of the body
    themselves.  With the line [; a] as prefix and the command [G1] with
    the comment [hello] as body, the prefix then is [; a] followed by the
    command of the body: cleaning the body clears the comment of that
    command, so the prefix ends as the command without its comment, not
    as the loop would leave a list of its own, with [hello] kept. *)
Lemma shrink_shared_objects_example :
  let o := mkObjects (fun a => match a with
                               | O => mkCommand "" [] "a"
                               | _ => mkCommand "G1" [] "hello"
                               end)
                     (fun l => match l with
                               | O => [1%nat]
                               | S O => [0%nat; 1%nat]
                               | _ => []
                               end) in
  exists o',
    shrink_objects o (mkInstance 0 1 2) = Ok o' /\
    view o' 1%nat = [mkCommand "G1" [] ""] /\
    clean_spec (view o 1%nat) = [mkCommand "G1" [] "hello"].
Proof. eexists. repeat split. Qed.

(** X2.  The cleaning loop never removes, reorders or alters the verb or
    the parameters of a command: the commands of the result are the
    commands of the input, in order. *)
Theorem clean_keeps_every_command (ls : list GCodeCommand) :
  exists out,
    _cleanCommandsFromList ls = Ok out /\
    map (fun c => (verb c, parameters c)) (filter isACommand out)
    = map (fun c => (verb c, parameters c)) (filter isACommand ls).
Proof.
  exists (clean_spec ls). split; [apply clean_list_spec|].
  induction ls as [| c rest Hc IH | c Hc | c d rest Hc IH] using clean_spec_ind.
  - reflexivity.
  - cbn [clean_spec filter]. rewrite Hc. cbn [filter]. rewrite isACommand_clear, Hc.
    cbn [map]. now rewrite IH.
  - cbn [clean_spec filter]. now rewrite Hc.
  - cbn [clean_spec filter]. rewrite Hc. cbn [filter].
    destruct (isACommand d); cbn [map]; now rewrite IH.
Qed.

(** X3.  When every line that is no command is the last line or stands
    directly before a command without a comment, the cleaning loop does
    what its description says: it drops exactly the lines that are no
    commands and clears the comment of every command. *)
Theorem clean_isolated_comments (ls : list GCodeCommand) :
  comments_isolated ls = true ->
  _cleanCommandsFromList ls = Ok (map clear_comment (filter isACommand ls)).
Proof.
  intros H. rewrite clean_list_spec. f_equal.
  induction ls as [| c rest Hc IH | c Hc | c d rest Hc IH] using clean_spec_ind.
  - reflexivity.
  - cbn [clean_spec filter comments_isolated] in *. rewrite Hc in *.
    cbn [map]. rewrite IH; [reflexivity|].
    apply andb_true_iff in H. tauto.
  - cbn [clean_spec filter]. now rewrite Hc.
  - cbn [comments_isolated] in H. rewrite Hc in H. cbn [orb] in H.
    apply andb_true_iff in H. destruct H as [H1 H2].
    apply andb_true_iff in H1. destruct H1 as [Hd Hcm].
    apply andb_true_iff in H2. destruct H2 as [_ H2].
    cbn [clean_spec filter]. rewrite Hc, Hd. cbn [map].
    rewrite IH by exact H2. f_equal.
    apply String.eqb_eq in Hcm. destruct d as [v p cm]. simpl in *. now subst.
Qed.

Lemma clean_isolated_comments_witness :
  _cleanCommandsFromList
    [mkCommand "" [] "layer 1"; mkCommand "G1" [("X", VInt 1)] "";
     mkCommand "G0" [("Z", VInt 2)] "lift"; mkCommand "" [] "end"]
  = Ok [mkCommand "G1" [("X", VInt 1)] ""; mkCommand "G0" [("Z", VInt 2)] ""].
Proof. apply clean_isolated_comments. reflexivity. Defined.

(** ** getCommandRelativeToIndex for every index and offset *)

Lemma py_index_outcome {A : Type} (l : list A) (i : Z) :
  (exists x, py_index l i = Ok x /\ - len l <= i < len l) \/
  py_index l i = Raise IndexError.
Proof.
  unfold py_index. cbv zeta.
  destruct (Z.ltb_spec i 0) as [Hi|Hi].
  - destruct (Z.ltb_spec (i + len l) 0); cbn [orb]; [now right|].
    destruct (Z.leb_spec (len l) (i + len l)); cbn [orb]; [now right|].
    destruct (nth_error l (Z.to_nat (i + len l))) as [x|]; [|now right].
    left. exists x. split; [reflexivity|lia].
  - destruct (Z.ltb_spec i 0); [lia|]. cbn [orb].
    destruct (Z.leb_spec (len l) i); [now right|].
    destruct (nth_error l (Z.to_nat i)) as [x|]; [|now right].
    left. exists x. split; [reflexivity|]. unfold len in *. lia.
Qed.

Lemma rel_loop_step fuel ls index iteration currentOffset offset :
  rel_loop (S fuel) ls index iteration currentOffset offset
  = if currentOffset =? offset then Ok index
    else c <- py_index ls (index + iteration) ;;
         rel_loop fuel ls (index + iteration) iteration
                  (if isACommand c then currentOffset + iteration else currentOffset)
                  offset.
Proof. reflexivity. Qed.

(** The walk ends before its fuel does: each step moves the index one
    position towards an end of the list. *)
Lemma rel_loop_ends (ls : list GCodeCommand) (iteration offset : Z) :
  iteration = 1 \/ iteration = -1 ->
  forall fuel index currentOffset,
    (1 <= fuel)%nat ->
    (- len ls <= index + iteration < len ls ->
     (if iteration =? 1 then len ls - index else index + len ls + 1) <= Z.of_nat fuel) ->
    (exists j, rel_loop fuel ls index iteration currentOffset offset = Ok j) \/
    rel_loop fuel ls index iteration currentOffset offset = Raise IndexError.
Proof.
  intros Hit. induction fuel as [|fuel IH]; intros index cur H1 Hb; [lia|].
  rewrite rel_loop_step.
  destruct (cur =? offset); [left; now exists index|].
  destruct (py_index_outcome ls (index + iteration)) as [(c & Hc & Hr)|Hc];
    rewrite Hc; cbn [bind]; [|now right].
  specialize (Hb Hr).
  apply IH.
  - destruct Hit as [-> | ->]; simpl in Hb; lia.
  - intros _. destruct Hit as [-> | ->]; simpl in *; lia.
Qed.

Lemma sign_by_division (offset : Z) :
  offset <> 0 -> offset / Z.abs offset = Z.sgn offset.
Proof.
  intros H. destruct (Z.lt_trichotomy offset 0) as [Hn|[Hz|Hp]]; [|contradiction|].
  - rewrite Z.abs_neq, Z.sgn_neg by lia.
    replace offset with (-1 * - offset) at 1 by lia.
    apply Z.div_mul. lia.
  - rewrite Z.abs_eq, Z.sgn_pos by lia. apply Z.div_same. lia.
Qed.

(** The walk has met as many commands as the offset asks for, and stands
    on the last of them. *)
Lemma rel_loop_counts (ls : list GCodeCommand) (iteration offset : Z) :
  iteration = 1 \/ iteration = -1 ->
  forall fuel index currentOffset j,
    0 <= (offset - currentOffset) * iteration ->
    rel_loop fuel ls index iteration currentOffset offset = Ok j ->
    exists n,
      j = index + iteration * Z.of_nat n /\
      commands_met ls index iteration n = (offset - currentOffset) * iteration /\
      (n <> O -> exists c, py_index ls j = Ok c /\ isACommand c = true).
Proof.
  intros Hit. induction fuel as [|fuel IH]; intros index cur j Hdir H; [discriminate|].
  rewrite rel_loop_step in H.
  destruct (Z.eqb_spec cur offset) as [->|Hne].
  - inversion H; subst. exists O. repeat split; [lia|simpl; lia|congruence].
  - destruct (py_index ls (index + iteration)) as [c| |] eqn:Hc; cbn [bind] in H;
      try discriminate.
    assert (Hpos : 0 < (offset - cur) * iteration) by (destruct Hit as [-> | ->]; lia).
    destruct (isACommand c) eqn:Ec.
    + apply IH in H; [|destruct Hit as [-> | ->]; lia].
      destruct H as (n & Hj & Hm & Hlast).
      exists (S n). repeat split.
      * lia.
      * cbn [commands_met]. rewrite Hc, Ec, Hm. destruct Hit as [-> | ->]; lia.
      * intros _. destruct n as [|n].
        -- exists c. replace j with (index + iteration) by lia. now split.
        -- apply Hlast. congruence.
    + apply IH in H; [|exact Hdir].
      destruct H as (n & Hj & Hm & Hlast).
      exists (S n). repeat split.
      * lia.
      * cbn [commands_met]. rewrite Hc, Ec, Hm. lia.
      * intros _. destruct n as [|n].
        -- exfalso. simpl in Hm. lia.
        -- apply Hlast. congruence.
Qed.

(** X4.  [getCommandRelativeToIndex] ends for every index and offset.  It
    raises [ZeroDivisionError] exactly when the offset is 0; otherwise it
    returns a line or raises [IndexError], which is how a walk that runs
    off the list ends. *)
Theorem getCommandRelativeToIndex_outcome (ls : list GCodeCommand) (index offset : Z) :
  (offset = 0 /\ getCommandRelativeToIndex ls index offset = Raise ZeroDivisionError) \/
  (offset <> 0 /\
   ((exists j c, getCommandRelativeToIndex ls index offset = Ok (j, c)) \/
    getCommandRelativeToIndex ls index offset = Raise IndexError)).
Proof.
  unfold getCommandRelativeToIndex.
  destruct (Z.eqb_spec offset 0) as [->|Hne]; [left; now split|].
  right. split; [exact Hne|]. cbv zeta. rewrite sign_by_division by exact Hne.
  assert (Hit : Z.sgn offset = 1 \/ Z.sgn offset = -1).
  { destruct (Z.sgn_spec offset) as [[_ ->]|[[H _]|[_ ->]]]; [now left|congruence|now right]. }
  destruct (rel_loop_ends ls (Z.sgn offset) offset Hit
              (2 * List.length ls + 2) index 0) as [(j & Hj)|Hj].
  - lia.
  - intros Hr. unfold len in *. destruct Hit as [-> | ->]; simpl; lia.
  - rewrite Hj. cbn [bind].
    destruct (py_index_outcome ls j) as [(c & Hc & _)|Hc]; rewrite Hc; cbn [bind];
      [left; now exists j, c|now right].
  - rewrite Hj. now right.
Qed.

(** X5.  When [getCommandRelativeToIndex] returns, the line it returns
    is a command, never a line that is only a comment: it lies [n >= 1]
    lines from the index in the direction of the offset, and exactly
    |offset| of the [n] lines met on the way are commands. *)
Theorem getCommandRelativeToIndex_returns_command
        (ls : list GCodeCommand) (index offset j : Z) (c : GCodeCommand) :
  getCommandRelativeToIndex ls index offset = Ok (j, c) ->
  isACommand c = true /\ py_index ls j = Ok c /\
  exists n, (0 < n)%nat /\ j = index + Z.sgn offset * Z.of_nat n /\
            commands_met ls index (Z.sgn offset) n = Z.abs offset.
Proof.
  unfold getCommandRelativeToIndex.
  destruct (Z.eqb_spec offset 0) as [->|Hne]; [discriminate|].
  cbv zeta. rewrite sign_by_division by exact Hne. intros H.
  assert (Hit : Z.sgn offset = 1 \/ Z.sgn offset = -1).
  { destruct (Z.sgn_spec offset) as [[_ ->]|[[H0 _]|[_ ->]]]; [now left|congruence|now right]. }
  destruct (rel_loop (2 * List.length ls + 2) ls index (Z.sgn offset) 0 offset)
    as [j'| |] eqn:Hr; cbn [bind] in H; try discriminate.
  destruct (py_index ls j') as [c'| |] eqn:Hc; cbn [bind] in H; try discriminate.
  inversion H; subst j' c'. clear H.
  assert (Habs : (offset - 0) * Z.sgn offset = Z.abs offset).
  { destruct (Z.sgn_spec offset) as [[? ->]|[[? ->]|[? ->]]]; lia. }
  destruct (rel_loop_counts ls (Z.sgn offset) offset Hit _ _ _ _
              ltac:(rewrite Habs; lia) Hr) as (n & Hj & Hm & Hlast).
  rewrite Habs in Hm.
  assert (Hn : n <> O).
  { intros ->. simpl in Hm. lia. }
  destruct (Hlast Hn) as (c1 & Hc1 & Hcmd).
  rewrite Hc in Hc1. inversion Hc1; subst c1.
  split; [exact Hcmd|]. split; [exact Hc|].
  exists n. split; [lia|]. split; [exact Hj|exact Hm].
Qed.

Lemma getCommandRelativeToIndex_returns_command_witness :
  let ls := [mkCommand "G1" [] ""; mkCommand "" [] "note"; mkCommand "G0" [] ""] in
  isACommand (mkCommand "G1" [] "") = true /\
  py_index ls 0 = Ok (mkCommand "G1" [] "") /\
  exists n, (0 < n)%nat /\ 0 = 2 + Z.sgn (-1) * Z.of_nat n /\
            commands_met ls 2 (Z.sgn (-1)) n = Z.abs (-1).
Proof.
  apply (getCommandRelativeToIndex_returns_command
           [mkCommand "G1" [] ""; mkCommand "" [] "note"; mkCommand "G0" [] ""]
           2 (-1) 0 (mkCommand "G1" [] "")).
  reflexivity.
Defined.

(** ** The layer table *)

Lemma layer_markers_sorted (ls : list GCodeCommand) : forall i0,
  StronglySorted Z.lt (layer_markers (enumerate_from i0 ls)) /\
  Forall (fun k => i0 <= k < i0 + len ls) (layer_markers (enumerate_from i0 ls)).
Proof.
  unfold len. induction ls as [|c ls IH]; intros i0; cbn [enumerate_from layer_markers].
  - split; constructor.
  - destruct (IH (i0 + 1)) as [Hs Hb].
    assert (Hb' : Forall (fun k => i0 < k < i0 + Z.of_nat (List.length (c :: ls)))
                         (layer_markers (enumerate_from (i0 + 1) ls))).
    { eapply Forall_impl; [|exact Hb]. cbn [List.length]. intros; lia. }
    destruct (is_layer_marker c).
    + split.
      * constructor; [exact Hs|]. eapply Forall_impl; [|exact Hb']. simpl; intros; lia.
      * constructor; [cbn [List.length]; lia|].
        eapply Forall_impl; [|exact Hb']. simpl; intros; lia.
    + split; [exact Hs|]. eapply Forall_impl; [|exact Hb']. simpl; intros; lia.
Qed.

Lemma layer_markers_In (ls : list GCodeCommand) : forall i0 k,
  In k (layer_markers (enumerate_from i0 ls)) <->
  exists n c, k = i0 + Z.of_nat n /\ nth_error ls n = Some c /\ is_layer_marker c = true.
Proof.
  induction ls as [|c ls IH]; intros i0 k; cbn [enumerate_from layer_markers].
  - split; [contradiction|]. intros ([|n] & c & _ & H & _); discriminate.
  - split.
    + intros H.
      assert (Hrest : In k (layer_markers (enumerate_from (i0 + 1) ls)) ->
                      exists n c0, k = i0 + Z.of_nat n /\
                                   nth_error (c :: ls) n = Some c0 /\
                                   is_layer_marker c0 = true).
      { intros Hin. apply IH in Hin. destruct Hin as (n & c0 & -> & Hn & Hm).
        exists (S n), c0. repeat split; [lia|exact Hn|exact Hm]. }
      destruct (is_layer_marker c) eqn:E; [|now apply Hrest].
      destruct H as [<-|H]; [|now apply Hrest].
      exists O, c. repeat split; [simpl; lia|exact E].
    + intros (n & c0 & -> & Hn & Hm). destruct n as [|n].
      * simpl in Hn. inversion Hn; subst c0. rewrite Hm. left. simpl. lia.
      * assert (Hin : In (i0 + Z.of_nat (S n)) (layer_markers (enumerate_from (i0 + 1) ls))).
        { apply IH. exists n, c0. repeat split; [lia|exact Hn|exact Hm]. }
        destruct (is_layer_marker c); [now right|exact Hin].
Qed.

Lemma StronglySorted_remove_at (l : list Z) : forall n,
  StronglySorted Z.lt l -> StronglySorted Z.lt (remove_at n l).
Proof.
  induction l as [|a l IH]; intros n H; [now destruct n|].
  inversion H; subst. destruct n; simpl; [assumption|].
  constructor; [now apply IH|now apply Forall_remove_at].
Qed.

Lemma In_remove_at {A : Type} (l : list A) : forall n x,
  In x (remove_at n l) -> In x l.
Proof.
  induction l as [|a l IH]; intros n x H; [now destruct n|].
  destruct n; simpl in H; [now right|].
  destruct H as [H|H]; [now left|right; eauto].
Qed.

Lemma getSlicingEngine_outcome (s : script) :
  (lines s = [] /\ getSlicingEngine s = Raise IndexError) \/
  (lines s <> [] /\
   exists engine, getSlicingEngine s = Ok engine /\
                  (engine = "PrusaSlicer" \/ engine = "Cura" \/ engine = "Other")).
Proof.
  unfold getSlicingEngine. destruct (lines s) as [|c ls] eqn:E.
  - left. split; reflexivity.
  - right. split; [discriminate|].
    change (py_index (c :: ls) 0) with (Ok c). cbn [bind].
    destruct (str_in "PrusaSlicer" (comment c)); [eexists; split; [reflexivity|tauto]|].
    destruct (any_comment_has "Cura" (c :: ls)); eexists; (split; [reflexivity|tauto]).
Qed.

Lemma computeLayerIndices_lines (s s1 : script) :
  computeLayerIndices s = Ok s1 ->
  s1 = with_layerIndicies s (layerIndicies s1) /\
  exists engine,
    getSlicingEngine s = Ok engine /\
    layerIndicies s1
    = if String.eqb engine "Cura"
      then remove_at 1 (layer_markers (enumerate (lines s)))
      else layer_markers (enumerate (lines s)).
Proof.
  unfold computeLayerIndices. intros H.
  destruct (getSlicingEngine s) as [engine| |] eqn:He; cbn [bind] in H; try discriminate.
  destruct (String.eqb engine "Cura") eqn:Ec.
  - destruct (py_pop (layer_markers (enumerate (lines s))) 1) as [found'| |] eqn:Ep;
      cbn [bind] in H; try discriminate.
    unfold py_pop in Ep. cbv zeta in Ep. change (1 <? 0) with false in Ep.
    cbv iota in Ep. change (1 <? 0) with false in Ep. cbn [orb] in Ep.
    destruct (len (layer_markers (enumerate (lines s))) <=? 1); try discriminate.
    injection Ep as <-. injection H as <-.
    split; [reflexivity|]. exists engine. rewrite Ec. split; reflexivity.
  - cbn [bind] in H. injection H as <-. split; [reflexivity|].
    exists engine. rewrite Ec. split; reflexivity.
Qed.

Lemma computeLayerIndices_ends (s : script) :
  (exists s1, computeLayerIndices s = Ok s1) \/
  computeLayerIndices s = Raise IndexError.
Proof.
  unfold computeLayerIndices.
  destruct (getSlicingEngine_outcome s) as [[_ H]|(_ & engine & H & _)];
    rewrite H; cbn [bind]; [now right|].
  destruct (String.eqb engine "Cura"); [|left; eexists; reflexivity].
  unfold py_pop. cbv zeta.
  destruct ((_ <? 0) || (len _ <=? _)); cbn [bind];
    [now right|left; eexists; reflexivity].
Qed.

(** X6.  A script without lines has no slicing engine: [getSlicingEngine]
    reads line 0 first, so on an empty script it raises [IndexError], and
    with it [computeLayerIndices], [getLayer] and [removeInfill]; on every
    other script it returns one of the three engine names. *)
Theorem getSlicingEngine_empty_script (s : script) :
  (lines s = [] /\
   getSlicingEngine s = Raise IndexError /\
   computeLayerIndices s = Raise IndexError /\
   (forall i, getLayer s i true = Raise IndexError) /\
   (forall F, removeInfill s F = Raise IndexError)) \/
  (lines s <> [] /\
   exists engine, getSlicingEngine s = Ok engine /\
                  (engine = "PrusaSlicer" \/ engine = "Cura" \/ engine = "Other")).
Proof.
  destruct (getSlicingEngine_outcome s) as [[E H]|H]; [left|now right].
  assert (Hc : computeLayerIndices s = Raise IndexError)
    by (unfold computeLayerIndices; now rewrite H).
  repeat split; try assumption.
  - intros i. unfold getLayer. now rewrite Hc.
  - intros F. unfold removeInfill. now rewrite Hc.
Qed.

(** X7.  [computeLayerIndices] fails in two cases only, both with
    [IndexError]: the script has no lines, or the engine is Cura and fewer
    than two layer markers were found, so that [pop(1)] has nothing to
    remove. *)
Theorem computeLayerIndices_outcome (s : script) :
  let found := layer_markers (enumerate (lines s)) in
  if match lines s with [] => true | _ => false end
     || (match getSlicingEngine s with Ok "Cura" => true | _ => false end
         && (len found <? 2))
  then computeLayerIndices s = Raise IndexError
  else exists s1, computeLayerIndices s = Ok s1.
Proof.
  intros found. unfold computeLayerIndices. fold found.
  destruct (getSlicingEngine_outcome s) as [[E H]|(Hne & engine & H & Hcases)].
  - rewrite E, H. reflexivity.
  - rewrite H. cbn [bind]. destruct (lines s) as [|c ls]; [congruence|]. cbn [orb].
    destruct Hcases as [-> | [-> | ->]]; cbn [String.eqb Ascii.eqb Bool.eqb andb];
      try (eexists; reflexivity).
    unfold py_pop. cbv zeta. change (1 <? 0) with false. cbn [orb].
    destruct (Z.ltb_spec (len found) 2) as [Hl|Hl].
    + replace (len found <=? 1) with true by (symmetry; apply Z.leb_le; lia).
      reflexivity.
    + replace (len found <=? 1) with false by (symmetry; apply Z.leb_gt; lia).
      cbn [bind]. eexists; reflexivity.
Qed.

(** X8.  The table [computeLayerIndices] stores is strictly increasing,
    and each entry is the index of a line whose comment contains LAYER
    but neither BEFORE nor AFTER; unless the engine is Cura, every such
    line is in the table. No other field of the script changes. *)
Theorem computeLayerIndices_table (s s1 : script) :
  computeLayerIndices s = Ok s1 ->
  s1 = with_layerIndicies s (layerIndicies s1) /\
  StronglySorted Z.lt (layerIndicies s1) /\
  (forall k, In k (layerIndicies s1) ->
             0 <= k /\ exists c, py_index (lines s) k = Ok c /\ is_layer_marker c = true) /\
  (getSlicingEngine s <> Ok "Cura" ->
   forall n c, nth_error (lines s) n = Some c -> is_layer_marker c = true ->
               In (Z.of_nat n) (layerIndicies s1)).
Proof.
  intros H. destruct (computeLayerIndices_lines s s1 H) as (Hs1 & engine & He & Ht).
  destruct (layer_markers_sorted (lines s) 0) as [Hs _].
  assert (Hin : forall k, In k (layer_markers (enumerate (lines s))) ->
                          0 <= k /\ exists c, py_index (lines s) k = Ok c /\
                                              is_layer_marker c = true).
  { intros k Hk. apply layer_markers_In in Hk. destruct Hk as (n & c & -> & Hn & Hm).
    split; [lia|]. exists c. split; [|exact Hm]. now apply py_index_nth. }
  split; [exact Hs1|]. rewrite Ht.
  destruct (String.eqb_spec engine "Cura") as [->|Hne].
  - split; [now apply StronglySorted_remove_at|]. split.
    + intros k Hk. apply Hin. eapply In_remove_at; eassumption.
    + intros Hc. congruence.
  - split; [exact Hs|]. split; [exact Hin|].
    intros _ n c Hn Hm. apply layer_markers_In. exists n, c. now repeat split.
Qed.

Lemma computeLayerIndices_table_witness :
  exists s1,
    computeLayerIndices
      (script_of [mkCommand "" [] "LAYER_CHANGE"; mkCommand "G1" [] "";
                  mkCommand "" [] "AFTER_LAYER_CHANGE"; mkCommand "" [] "LAYER_CHANGE"])
    = Ok s1 /\
    layerIndicies s1 = [0; 3] /\ StronglySorted Z.lt (layerIndicies s1).
Proof.
  eexists. split; [reflexivity|]. split; [reflexivity|].
  apply (computeLayerIndices_table
           (script_of [mkCommand "" [] "LAYER_CHANGE"; mkCommand "G1" [] "";
                       mkCommand "" [] "AFTER_LAYER_CHANGE"; mkCommand "" [] "LAYER_CHANGE"])
           _ eq_refl).
Defined.

(** ** Layers and the thinning of infill *)

Lemma StronglySorted_snoc_inv (l : list Z) (x : Z) :
  StronglySorted Z.lt (l ++ [x]) ->
  StronglySorted Z.lt l /\ Forall (fun a => a < x) l.
Proof.
  induction l as [|a l IH]; simpl; intros H; [split; constructor|].
  inversion H as [|? ? Hs Hf]; subst. destruct (IH Hs) as [Hs' Hlt].
  apply Forall_app in Hf. destruct Hf as [Hf1 Hf2]. inversion Hf2; subst.
  split; constructor; assumption.
Qed.

Lemma entries_upto_snoc (t : list Z) (x i : Z) :
  entries_upto (t ++ [x]) i
  = (entries_upto t i + (if (x <=? i)%Z then 1 else 0))%nat.
Proof.
  unfold entries_upto. rewrite filter_app, length_app. simpl.
  now destruct (x <=? i).
Qed.

Lemma entries_upto_all (t : list Z) (i : Z) :
  Forall (fun a => a <= i) t -> entries_upto t i = List.length t.
Proof.
  unfold entries_upto. induction 1 as [|a t Ha _ IH]; simpl; [reflexivity|].
  replace (a <=? i) with true by (symmetry; now apply Z.leb_le).
  simpl. now rewrite IH.
Qed.

Lemma entries_upto_mono (t : list Z) (i i' : Z) :
  i <= i' -> (entries_upto t i <= entries_upto t i')%nat.
Proof.
  intros H. unfold entries_upto. induction t as [|a t IH]; simpl; [lia|].
  destruct (Z.leb_spec a i); destruct (Z.leb_spec a i'); simpl; lia.
Qed.

(** The scan of [getLayer] from the last entry down finds the number of
    entries at or before the index, less one. *)
Lemma getLayer_scan_counts (t : list Z) (i : Z) :
  StronglySorted Z.lt t ->
  getLayer_scan (rev t) (List.length t) i = layer_of t i.
Proof.
  unfold layer_of.
  induction t as [|x t IH] using rev_ind; intros Hs; [reflexivity|].
  apply StronglySorted_snoc_inv in Hs. destruct Hs as [Hs Hlt].
  rewrite rev_app_distr, length_snoc, entries_upto_snoc. cbn [rev app getLayer_scan].
  destruct (Z.leb_spec x i) as [Hx|Hx].
  - rewrite entries_upto_all.
    + now rewrite Nat.add_1_r.
    + eapply Forall_impl; [|exact Hlt]. simpl; intros; lia.
  - rewrite Nat.add_0_r. now apply IH.
Qed.

Lemma computeLayerIndices_sorted (s s1 : script) :
  computeLayerIndices s = Ok s1 ->
  lines s1 = lines s /\ StronglySorted Z.lt (layerIndicies s1).
Proof.
  intros H. destruct (computeLayerIndices_lines s s1 H) as (Hs1 & engine & _ & Ht).
  split; [now rewrite Hs1|]. rewrite Ht.
  destruct (layer_markers_sorted (lines s) 0) as [Hs _].
  destruct (String.eqb engine "Cura"); [now apply StronglySorted_remove_at|exact Hs].
Qed.

(** X9.  With the table [computeLayerIndices] builds, the layer of an
    index is the number of table entries at or before it, less one, and
    [None] when no entry is at or before it; so the layer never
    decreases along the script. *)
Theorem getLayer_counts_entries (s s1 : script) :
  computeLayerIndices s = Ok s1 ->
  (forall i, getLayer s i true = Ok (layer_of (layerIndicies s1) i, s1) /\
             getLayer s1 i false = Ok (layer_of (layerIndicies s1) i, s1)) /\
  (forall i i' k, i <= i' -> layer_of (layerIndicies s1) i = Some k ->
                  exists k', layer_of (layerIndicies s1) i' = Some k' /\ k <= k').
Proof.
  intros H. destruct (computeLayerIndices_sorted s s1 H) as [_ Hs]. split.
  - intros i. unfold getLayer. rewrite H. cbn [bind].
    rewrite getLayer_scan_counts by exact Hs. split; reflexivity.
  - intros i i' k Hi. unfold layer_of.
    pose proof (entries_upto_mono (layerIndicies s1) i i' Hi) as Hm.
    destruct (entries_upto (layerIndicies s1) i) as [|n]; [discriminate|].
    intros Hk. injection Hk as <-.
    destruct (entries_upto (layerIndicies s1) i') as [|n']; [lia|].
    exists (Z.of_nat n'). split; [reflexivity|lia].
Qed.

Lemma getLayer_counts_entries_witness :
  exists s1,
    getLayer (script_of [mkCommand "G1" [] ""; mkCommand "" [] "LAYER:0";
                         mkCommand "G1" [] ""; mkCommand "" [] "LAYER:1"]) 2 true
    = Ok (Some 0, s1) /\
    getLayer (script_of [mkCommand "G1" [] ""; mkCommand "" [] "LAYER:0";
                         mkCommand "G1" [] ""; mkCommand "" [] "LAYER:1"]) 0 true
    = Ok (None, s1).
Proof.
  eexists.
  pose proof (getLayer_counts_entries
                (script_of [mkCommand "G1" [] ""; mkCommand "" [] "LAYER:0";
                            mkCommand "G1" [] ""; mkCommand "" [] "LAYER:1"])
                _ eq_refl) as [H _].
  split; [exact (proj1 (H 2))|exact (proj1 (H 0))].
Defined.

(** The condition of the loop of [removeInfill], on the tables the
    method has just computed. *)
Lemma infill_cond_value (s : script) (F i : Z) :
  typeIndicies s = type_changes (lines s) ->
  StronglySorted Z.lt (layerIndicies s) ->
  0 <= i ->
  infill_cond s F i
  = if fill_typed (lines s) i
    then match layer_of (layerIndicies s) i with
         | None => Raise TypeError
         | Some layer =>
             if F =? 0 then Raise ZeroDivisionError else Ok (negb (layer mod F =? 0))
         end
    else Ok false.
Proof.
  intros Ht Hs Hi. unfold infill_cond, getType, getLayer, fill_typed.
  cbn [bind fst]. rewrite Ht.
  destruct (type_changes_keys_ok (lines s)) as (j & Hk & H0 & _).
  destruct (getType_scan_largest (type_changes (lines s)) i Hk) as (k & t & Hscan & _).
  { exists 0. split; [exact H0|lia]. }
  rewrite Hscan. cbn [bind fst].
  destruct (str_in "fill" (lower t)); [|reflexivity].
  rewrite getLayer_scan_counts by exact Hs.
  destruct (layer_of (layerIndicies s) i) as [layer|]; [|reflexivity].
  unfold py_mod. now destruct (F =? 0).
Qed.

Lemma removeInfill_tables (s s1 : script) :
  computeLayerIndices s = Ok s1 ->
  let s2 := computeTypeChanges s1 in
  lines s2 = lines s /\
  typeIndicies s2 = type_changes (lines s2) /\
  StronglySorted Z.lt (layerIndicies s2).
Proof.
  intros H s2. destruct (computeLayerIndices_sorted s s1 H) as [Hl Hs].
  repeat split; assumption.
Qed.

Lemma py_range_nonneg (n : nat) : Forall (fun i => 0 <= i) (py_range n).
Proof.
  apply Forall_forall. intros i Hi. apply In_py_range in Hi.
  destruct Hi as (k & -> & _). lia.
Qed.

(** The loop marks nothing where the condition is false throughout. *)
Lemma mark_loop_nothing (s : script) (F : Z) (ixs : list Z) : forall acc,
  Forall (fun i => infill_cond s F i = Ok false) ixs ->
  mark_loop s F ixs acc = Ok acc.
Proof.
  induction ixs as [|i ixs IH]; intros acc H; [reflexivity|].
  inversion H as [|? ? Hi Hrest]; subst. cbn [mark_loop]. rewrite Hi. cbn [bind].
  now apply IH.
Qed.

Lemma pop_all_nothing (ls : list GCodeCommand) : pop_all ls (rev []) = Ok ls.
Proof. reflexivity. Qed.

(** X10.  When the body holds no line of a fill type, [removeInfill]
    does, for every frequency, zero included, what computing the two
    tables does: it fails where [computeLayerIndices] fails, with the
    same error, and otherwise returns having stored the layer and the
    type table; the body it returns is the body it was given. *)
Theorem removeInfill_without_fill (s : script) (F : Z) :
  (forall i, 0 <= i < len (lines s) -> fill_typed (lines s) i = false) ->
  removeInfill s F = (s1 <- computeLayerIndices s ;; Ok (computeTypeChanges s1)) /\
  (forall s', removeInfill s F = Ok s' -> lines s' = lines s).
Proof.
  intros Hno.
  assert (H : removeInfill s F
              = (s1 <- computeLayerIndices s ;; Ok (computeTypeChanges s1))).
  { unfold removeInfill.
    destruct (computeLayerIndices s) as [s1| |] eqn:E1; cbn [bind]; try reflexivity.
    destruct (removeInfill_tables s s1 E1) as (Hl & Ht & Hs).
    rewrite mark_loop_nothing.
    - cbn [bind]. rewrite pop_all_nothing. cbn [bind]. destruct s1; reflexivity.
    - apply Forall_forall. intros i Hi. apply In_py_range in Hi.
      destruct Hi as (k & -> & Hk).
      rewrite infill_cond_value by (try assumption; lia).
      rewrite Hl in *. rewrite Hno; [reflexivity|]. unfold len. lia. }
  split; [exact H|]. intros s' Hs'. rewrite H in Hs'.
  destruct (computeLayerIndices s) as [s1| |] eqn:E1; cbn [bind] in Hs';
    try discriminate.
  injection Hs' as <-. exact (proj1 (removeInfill_tables s s1 E1)).
Qed.

Lemma removeInfill_without_fill_witness :
  removeInfill (script_of [mkCommand "" [] "TYPE:Perimeter"; mkCommand "G1" [] ""]) 0
  = Ok (computeTypeChanges
          (with_layerIndicies
             (script_of [mkCommand "" [] "TYPE:Perimeter"; mkCommand "G1" [] ""]) [])) /\
  removeInfill (script_of [mkCommand "" [] "Cura"; mkCommand "G1" [] ""]) 10
  = Raise IndexError.
Proof.
  split.
  - apply (removeInfill_without_fill
             (script_of [mkCommand "" [] "TYPE:Perimeter"; mkCommand "G1" [] ""]) 0).
    intros i Hi. unfold len in Hi. simpl in Hi.
    assert (Hc : i = 0 \/ i = 1) by lia.
    destruct Hc as [-> | ->]; reflexivity.
  - apply (removeInfill_without_fill
             (script_of [mkCommand "" [] "Cura"; mkCommand "G1" [] ""]) 10).
    intros i Hi. unfold len in Hi. simpl in Hi.
    assert (Hc : i = 0 \/ i = 1) by lia.
    destruct Hc as [-> | ->]; reflexivity.
Defined.

Lemma mark_loop_raises (s : script) (F : Z) (e : exn) (i : Z) (post : list Z) :
  infill_cond s F i = Raise e ->
  forall pre acc,
    Forall (fun j => infill_cond s F j = Ok false \/ infill_cond s F j = Raise e) pre ->
    mark_loop s F (pre ++ i :: post) acc = Raise e.
Proof.
  intros Hi. induction pre as [|j pre IH]; intros acc Hpre; cbn [app mark_loop].
  - now rewrite Hi.
  - inversion Hpre as [|? ? Hj Hrest]; subst.
    destruct Hj as [Hj|Hj]; rewrite Hj; cbn [bind]; [now apply IH|reflexivity].
Qed.

Lemma py_range_split (n k : nat) :
  (k < n)%nat ->
  py_range n
  = (py_range k ++ Z.of_nat k :: map Z.of_nat (seq (S k) (n - S k)))%list.
Proof.
  intros Hk. unfold py_range.
  replace n with (k + S (n - S k))%nat at 1 by lia.
  rewrite seq_app, map_app. reflexivity.
Qed.

(** X11.  When a line of a fill type stands before the first entry of
    the layer table, [getLayer] has no layer for it and returns [None];
    the remainder [None % infillFrequency] is then a [TypeError], with
    which [removeInfill] ends whatever the frequency. *)
Theorem removeInfill_fill_before_first_layer (s s1 : script) (F i : Z) :
  computeLayerIndices s = Ok s1 ->
  0 <= i < len (lines s) ->
  fill_typed (lines s) i = true ->
  layer_of (layerIndicies s1) i = None ->
  removeInfill s F = Raise TypeError.
Proof.
  intros H Hi Hfill Hnone.
  destruct (removeInfill_tables s s1 H) as (Hl & Ht & Hs).
  unfold removeInfill. rewrite H. cbn [bind].
  set (s2 := computeTypeChanges s1) in *.
  assert (Hk : (Z.to_nat i < List.length (lines s2))%nat)
    by (rewrite Hl; unfold len in Hi; lia).
  rewrite (py_range_split _ _ Hk), Z2Nat.id by lia.
  rewrite (mark_loop_raises s2 F TypeError i); [reflexivity| |].
  - rewrite infill_cond_value by (try assumption; lia).
    rewrite Hl, Hfill. change (layerIndicies s2) with (layerIndicies s1).
    now rewrite Hnone.
  - apply Forall_forall. intros j Hj. apply In_py_range in Hj.
    destruct Hj as (k & -> & Hlt).
    rewrite infill_cond_value by (try assumption; lia).
    destruct (fill_typed (lines s2) (Z.of_nat k)); [|now left].
    right. change (layerIndicies s2) with (layerIndicies s1).
    unfold layer_of in *.
    pose proof (entries_upto_mono (layerIndicies s1) (Z.of_nat k) i ltac:(lia)) as Hm.
    destruct (entries_upto (layerIndicies s1) i); [|discriminate].
    now replace (entries_upto (layerIndicies s1) (Z.of_nat k)) with O by lia.
Qed.

Lemma removeInfill_fill_before_first_layer_witness :
  removeInfill
    (script_of [mkCommand "" [] "TYPE:Solid infill"; mkCommand "G1" [] "";
                mkCommand "" [] "LAYER_CHANGE"]) 10
  = Raise TypeError.
Proof.
  apply (removeInfill_fill_before_first_layer
           (script_of [mkCommand "" [] "TYPE:Solid infill"; mkCommand "G1" [] "";
                       mkCommand "" [] "LAYER_CHANGE"])
           _ 10 1 eq_refl).
  - unfold len. simpl. lia.
  - reflexivity.
  - reflexivity.
Defined.

Lemma mark_loop_zero (s : script) :
  typeIndicies s = type_changes (lines s) ->
  StronglySorted Z.lt (layerIndicies s) ->
  forall ixs acc,
    Forall (fun i => 0 <= i) ixs ->
    (exists i, In i ixs /\ fill_typed (lines s) i = true) ->
    mark_loop s 0 ixs acc = Raise ZeroDivisionError \/
    mark_loop s 0 ixs acc = Raise TypeError.
Proof.
  intros Ht Hs. induction ixs as [|j ixs IH]; intros acc Hpos (i & Hin & Hfill).
  - contradiction.
  - inversion Hpos as [|? ? Hj Hrest]; subst. cbn [mark_loop].
    rewrite infill_cond_value by assumption.
    destruct (fill_typed (lines s) j) eqn:Ej.
    + destruct (layer_of (layerIndicies s) j); [left|right]; reflexivity.
    + cbn [bind]. apply IH; [exact Hrest|].
      exists i. split; [|exact Hfill].
      destruct Hin as [->|Hin]; [congruence|exact Hin].
Qed.

(** X12.  With frequency 0 the remainder [layer % 0] cannot be taken: as
    soon as one line of the body has a fill type, [removeInfill] never
    returns.  It ends with [ZeroDivisionError], or with the [TypeError]
    of a line that has no layer, or, when [computeLayerIndices] fails,
    with the [IndexError] of that. *)
Theorem removeInfill_zero_frequency (s : script) (i : Z) :
  0 <= i < len (lines s) ->
  fill_typed (lines s) i = true ->
  removeInfill s 0 = Raise ZeroDivisionError \/
  removeInfill s 0 = Raise TypeError \/
  (computeLayerIndices s = Raise IndexError /\ removeInfill s 0 = Raise IndexError).
Proof.
  intros Hi Hfill.
  destruct (computeLayerIndices_ends s) as [(s1 & H)|H].
  2:{ right; right. split; [exact H|]. unfold removeInfill. now rewrite H. }
  destruct (removeInfill_tables s s1 H) as (Hl & Ht & Hs).
  unfold removeInfill. rewrite H. cbn [bind].
  set (s2 := computeTypeChanges s1) in *.
  destruct (mark_loop_zero s2 Ht Hs (py_range (List.length (lines s2))) [])
    as [E|E]; try (rewrite E; tauto).
  - apply py_range_nonneg.
  - exists i. split; [|now rewrite Hl].
    apply In_py_range. exists (Z.to_nat i). rewrite Hl. unfold len in Hi. lia.
Qed.

Lemma removeInfill_zero_frequency_witness :
  removeInfill
    (script_of [mkCommand "" [] "LAYER_CHANGE"; mkCommand "" [] "TYPE:Infill";
                mkCommand "G1" [] ""]) 0
  = Raise ZeroDivisionError.
Proof.
  destruct (removeInfill_zero_frequency
              (script_of [mkCommand "" [] "LAYER_CHANGE"; mkCommand "" [] "TYPE:Infill";
                          mkCommand "G1" [] ""]) 1) as [E|[E|[E _]]].
  - unfold len. simpl. lia.
  - reflexivity.
  - exact E.
  - discriminate E.
  - discriminate E.
Defined.

Lemma filter_nothing {A : Type} (f : A -> bool) (l : list A) :
  (forall x, In x l -> f x = false) -> filter f l = [].
Proof.
  induction l as [|a l IH]; intros H; simpl; [reflexivity|].
  rewrite (H a) by now left. apply IH. intros x Hx. apply H. now right.
Qed.

(** X13.  With frequency 1 or -1 every layer number is a multiple of the
    frequency, so no line is marked: when [removeInfill] returns, the
    body is the body it was given. *)
Theorem removeInfill_every_layer (s s' : script) (F : Z) :
  F = 1 \/ F = -1 ->
  removeInfill s F = Ok s' ->
  lines s' = lines s.
Proof.
  intros HF H. unfold removeInfill in H.
  destruct (computeLayerIndices s) as [s1| |] eqn:E1; cbn [bind] in H; try discriminate.
  destruct (removeInfill_tables s s1 E1) as (Hl & Ht & Hs).
  set (s2 := computeTypeChanges s1) in *.
  destruct (mark_loop s2 F (py_range (List.length (lines s2))) []) as [toPop| |] eqn:E2;
    cbn [bind] in H; try discriminate.
  apply mark_loop_filter in E2. destruct E2 as [-> _]. cbn [app] in H.
  rewrite filter_nothing in H.
  - cbn [rev pop_all bind] in H. injection H as <-. exact Hl.
  - intros i Hi. apply In_py_range in Hi. destruct Hi as (k & -> & _).
    unfold marked_at. rewrite infill_cond_value by (try assumption; lia).
    destruct (fill_typed (lines s2) (Z.of_nat k)); [|reflexivity].
    destruct (layer_of (layerIndicies s2) (Z.of_nat k)) as [layer|]; [|reflexivity].
    destruct HF as [-> | ->]; cbn [Z.eqb].
    + now rewrite Z.mod_1_r.
    + replace (layer mod -1) with 0; [reflexivity|].
      symmetry. apply Z.mod_divide; [lia|]. exists (- layer). lia.
Qed.

Lemma removeInfill_every_layer_witness :
  exists s',
    removeInfill
      (script_of [mkCommand "" [] "LAYER_CHANGE"; mkCommand "" [] "TYPE:Infill";
                  mkCommand "G1" [] ""; mkCommand "" [] "LAYER_CHANGE";
                  mkCommand "G1" [] ""]) 1 = Ok s' /\
    lines s' = [mkCommand "" [] "LAYER_CHANGE"; mkCommand "" [] "TYPE:Infill";
                mkCommand "G1" [] ""; mkCommand "" [] "LAYER_CHANGE";
                mkCommand "G1" [] ""].
Proof.
  eexists. split; [reflexivity|].
  apply (removeInfill_every_layer
           (script_of [mkCommand "" [] "LAYER_CHANGE"; mkCommand "" [] "TYPE:Infill";
                       mkCommand "G1" [] ""; mkCommand "" [] "LAYER_CHANGE";
                       mkCommand "G1" [] ""]) _ 1).
  - now left.
  - reflexivity.
Defined.

(** ** The type table, read off the lines *)

Lemma type_changes_snoc (ls : list GCodeCommand) (c : GCodeCommand) :
  type_changes (ls ++ [c]) = type_step (type_changes ls) (len ls, c).
Proof.
  unfold type_changes, enumerate.
  rewrite enumerate_from_app, fold_left_app. reflexivity.
Qed.

Lemma type_changes_keys_len (ls : list GCodeCommand) :
  keys_ok (len ls) (type_changes ls).
Proof.
  induction ls as [|c ls IH] using rev_ind.
  - unfold keys_ok. simpl. repeat split.
    + repeat constructor.
    + now left.
    + constructor; [lia|constructor].
  - rewrite type_changes_snoc.
    replace (len (ls ++ [c])) with (len ls + 1)
      by (unfold len; rewrite length_snoc; lia).
    apply type_step_keys_ok; [unfold len; lia|exact IH].
Qed.

Lemma getType_scan_none (items : list (Z * string)) (index : Z) :
  Forall (fun k => index < k) (map fst items) ->
  getType_scan items index = Raise CouldNotDetectTypes.
Proof.
  induction items as [|[k v] items IH]; simpl; intros H; [reflexivity|].
  inversion H; subst.
  replace (k <=? index) with false by (symmetry; apply Z.leb_gt; lia).
  now apply IH.
Qed.

Lemma running_type_snoc_before (ls : list GCodeCommand) (c : GCodeCommand) (index : Z) :
  0 <= index < len ls ->
  running_type (ls ++ [c]) index = running_type ls index.
Proof.
  intros H. unfold running_type, len in *.
  rewrite firstn_app.
  replace (Z.to_nat index + 1 - List.length ls)%nat with O by lia.
  simpl. now rewrite app_nil_r.
Qed.

Lemma running_type_all (ls : list GCodeCommand) (index : Z) :
  len ls <= index + 1 ->
  running_type ls index = fold_left type_after ls "None".
Proof.
  intros H. unfold running_type, len in *.
  rewrite firstn_all2 by lia. reflexivity.
Qed.

Lemma type_after_marker (current : string) (c : GCodeCommand) :
  str_in "TYPE:" (comment c) = true ->
  type_after current c = removeprefix "TYPE:" (comment c).
Proof. unfold type_after. now intros ->. Qed.

Lemma type_after_plain (current : string) (c : GCodeCommand) :
  str_in "TYPE:" (comment c) = false -> type_after current c = current.
Proof. unfold type_after. now intros ->. Qed.

(** The scan of the table built from the lines finds the type in force. *)
Lemma getType_scan_running (ls : list GCodeCommand) : forall index,
  0 <= index ->
  getType_scan (rev (type_changes ls)) index = Ok (running_type ls index).
Proof.
  induction ls as [|c ls IH] using rev_ind; intros index Hi.
  - simpl. replace (0 <=? index) with true by (symmetry; apply Z.leb_le; lia).
    unfold running_type. now destruct (Z.to_nat index + 1)%nat.
  - rewrite type_changes_snoc. unfold type_step.
    destruct (type_changes_keys_len ls) as (Hs & H0 & Hb).
    destruct (str_in "TYPE:" (comment c)) eqn:Et.
    + destruct (in_dec Z.eq_dec (len ls) (map fst (type_changes ls))) as [Hin|Hnin].
      * (* the line is the first one and replaces the seed *)
        rewrite Forall_forall in Hb. pose proof (Hb _ Hin) as Hlen.
        assert (Hnil : ls = []).
        { destruct ls; [reflexivity|]. unfold len in Hlen. simpl in Hlen. lia. }
        subst ls. change (type_changes []) with [(0, "None")].
        change (len (@nil GCodeCommand)) with 0.
        cbn [dict_set Z.eqb rev app getType_scan].
        replace (0 <=? index) with true by (symmetry; apply Z.leb_le; lia).
        unfold running_type. destruct (Z.to_nat index + 1)%nat eqn:En; [lia|].
        cbn [app firstn fold_left]. rewrite firstn_nil. cbn [fold_left].
        now rewrite type_after_marker by exact Et.
      * rewrite dict_set_keys_notin by exact Hnin.
        rewrite rev_app_distr. cbn [rev app getType_scan].
        destruct (Z.leb_spec (len ls) index) as [Hle|Hlt].
        -- rewrite running_type_all
             by (unfold len in *; rewrite length_snoc; lia).
           rewrite fold_left_app. cbn [fold_left].
           now rewrite type_after_marker by exact Et.
        -- rewrite IH by exact Hi. f_equal. symmetry.
           apply running_type_snoc_before. lia.
    + rewrite IH by exact Hi. f_equal.
      destruct (Z.ltb_spec index (len ls)) as [Hlt|Hle].
      * symmetry. apply running_type_snoc_before. lia.
      * rewrite (running_type_all (ls ++ [c]))
          by (unfold len in *; rewrite length_snoc; lia).
        rewrite (running_type_all ls) by lia.
        rewrite fold_left_app. cbn [fold_left].
        now rewrite type_after_plain by exact Et.
Qed.

(** X14.  For an index below 0 no key of the table is at or before the
    index, so [getType] runs through the whole table and ends with the
    [ValueError] "Could not detect types", the one error the source
    raises itself. *)
Theorem getType_negative_index (s : script) (index : Z) :
  index < 0 ->
  getType s index true = Raise CouldNotDetectTypes /\
  getType (computeTypeChanges s) index false = Raise CouldNotDetectTypes /\
  raised_explicitly CouldNotDetectTypes = true.
Proof.
  intros Hi.
  assert (H : getType_scan (rev (type_changes (lines s))) index
              = Raise CouldNotDetectTypes).
  { apply getType_scan_none. rewrite map_rev.
    apply Forall_rev.
    destruct (type_changes_keys_len (lines s)) as (_ & _ & Hb).
    eapply Forall_impl; [|exact Hb]. simpl; intros; lia. }
  unfold getType. cbn [computeTypeChanges typeIndicies with_typeIndicies].
  rewrite H. repeat split.
Qed.

Lemma getType_negative_index_witness :
  getType (script_of [mkCommand "" [] "TYPE:Perimeter"]) (-1) true
  = Raise CouldNotDetectTypes.
Proof.
  apply (getType_negative_index (script_of [mkCommand "" [] "TYPE:Perimeter"]) (-1)).
  lia.
Defined.

(** X15.  At an index from 0 on, [getType] returns the type in force
    there: the text that follows the prefix TYPE: in the comment of the
    last line at or before the index whose comment contains TYPE:, and
    "None" when there is no such line. *)
Theorem getType_running_type (s : script) (index : Z) :
  0 <= index ->
  getType s index true = Ok (running_type (lines s) index, computeTypeChanges s).
Proof.
  intros Hi. unfold getType. cbn [computeTypeChanges typeIndicies with_typeIndicies].
  rewrite getType_scan_running by exact Hi. reflexivity.
Qed.

Lemma getType_running_type_witness :
  exists s',
    getType (script_of [mkCommand "G1" [] ""; mkCommand "" [] "TYPE:Perimeter";
                        mkCommand "G1" [] "fast TYPE:Infill"; mkCommand "G1" [] ""])
            3 true
    = Ok ("fast TYPE:Infill", s').
Proof.
  eexists.
  apply (getType_running_type
           (script_of [mkCommand "G1" [] ""; mkCommand "" [] "TYPE:Perimeter";
                       mkCommand "G1" [] "fast TYPE:Infill"; mkCommand "G1" [] ""]) 3).
  lia.
Defined.

(** ** What orient changes and how it can end *)

Lemma translate_axis_frame (k : string) (m : value) (c c' : GCodeCommand) :
  translate_axis k m c = Ok c' ->
  verb c' = verb c /\ comment c' = comment c /\
  map fst (parameters c') = map fst (parameters c) /\
  (forall k', k <> k' -> param_get c' k' = param_get c k') /\
  (forall k' t, param_get c k' = Some (VStr t) -> param_get c' k' = Some (VStr t)).
Proof.
  unfold translate_axis. intros H.
  destruct (param_get c k) as [v|] eqn:E.
  2:{ injection H as <-. repeat split; auto. }
  destruct (is_str v) eqn:Es.
  { injection H as <-. repeat split; auto. }
  destruct (py_sub v m) as [v'| |]; cbn [bind] in H; try discriminate.
  injection H as <-. unfold set_param, param_get in *.
  cbn [verb comment parameters]. repeat split.
  - eapply sdict_set_keys_present. exact E.
  - intros k' Hne. now apply sdict_get_set_other.
  - intros k' t Ht. destruct (string_dec k k') as [<-|Hne].
    + rewrite Ht in E. injection E as <-. discriminate.
    + rewrite sdict_get_set_other by exact Hne. exact Ht.
Qed.

Lemma translate_all_frame (mx my : value) (ls : list GCodeCommand) : forall out,
  translate_all mx my ls = Ok out -> Forall2 same_but_XY ls out.
Proof.
  induction ls as [|c ls IH]; intros out H; cbn [translate_all] in H.
  - injection H as <-. constructor.
  - destruct (translate_axis "X" mx c) as [c1| |] eqn:E1; cbn [bind] in H; try discriminate.
    destruct (translate_axis "Y" my c1) as [c2| |] eqn:E2; cbn [bind] in H; try discriminate.
    destruct (translate_all mx my ls) as [rest| |]; cbn [bind] in H; try discriminate.
    injection H as <-. constructor; [|now apply IH].
    destruct (translate_axis_frame _ _ _ _ E1) as (V1 & C1 & K1 & O1 & S1).
    destruct (translate_axis_frame _ _ _ _ E2) as (V2 & C2 & K2 & O2 & S2).
    unfold same_but_XY. repeat split.
    + congruence.
    + congruence.
    + congruence.
    + intros k HX HY. rewrite O2 by congruence. apply O1. congruence.
    + intros k t Ht. apply S2. now apply S1.
Qed.

Lemma float_of_Z_outcome (z : Z) :
  (exists f, float_of_Z z = Ok f) \/ float_of_Z z = Raise OverflowError.
Proof.
  unfold float_of_Z.
  destruct (binary_normalize prec emax z 0 false); try (left; eexists; reflexivity).
  now right.
Qed.

Lemma py_sub_outcome (v m : value) :
  is_str v = false -> is_str m = false ->
  (exists r, py_sub v m = Ok r) \/ py_sub v m = Raise OverflowError.
Proof.
  intros Hv Hm. destruct v as [x|f|t], m as [y|g|u]; try discriminate; cbn [py_sub].
  - left. eexists; reflexivity.
  - destruct (float_of_Z_outcome x) as [(fx & ->)| ->]; [left; eexists; reflexivity|now right].
  - destruct (float_of_Z_outcome y) as [(fy & ->)| ->]; [left; eexists; reflexivity|now right].
  - left. eexists; reflexivity.
Qed.

Lemma translate_axis_outcome (k : string) (m : value) (c : GCodeCommand) :
  is_str m = false ->
  (exists c', translate_axis k m c = Ok c') \/ translate_axis k m c = Raise OverflowError.
Proof.
  intros Hm. unfold translate_axis.
  destruct (param_get c k) as [v|]; [|left; eexists; reflexivity].
  destruct (is_str v) eqn:Es; [left; eexists; reflexivity|].
  destruct (py_sub_outcome v m Es Hm) as [(r & ->)| ->];
    [left; eexists; reflexivity|now right].
Qed.

Lemma translate_all_outcome (mx my : value) (ls : list GCodeCommand) :
  is_str mx = false -> is_str my = false ->
  (exists out, translate_all mx my ls = Ok out) \/
  translate_all mx my ls = Raise OverflowError.
Proof.
  intros Hx Hy. induction ls as [|c ls IH]; cbn [translate_all].
  - left. eexists; reflexivity.
  - destruct (translate_axis_outcome "X" mx c Hx) as [(c1 & ->)| ->]; [|now right].
    cbn [bind].
    destruct (translate_axis_outcome "Y" my c1 Hy) as [(c2 & ->)| ->]; [|now right].
    cbn [bind].
    destruct IH as [(out & ->)| ->]; [left; eexists; reflexivity|now right].
Qed.

Lemma translate_axis_int (k : string) (m : Z) (c : GCodeCommand) :
  (forall v, param_get c k = Some v -> is_float v = false) ->
  exists c', translate_axis k (VInt m) c = Ok c' /\
             forall k' v, param_get c' k' = Some v -> is_float v = true ->
                          param_get c k' = Some v.
Proof.
  intros H. unfold translate_axis.
  destruct (param_get c k) as [v|] eqn:E; [|exists c; split; [reflexivity|auto]].
  destruct (is_str v) eqn:Es; [exists c; split; [reflexivity|auto]|].
  specialize (H v eq_refl). destruct v as [x|f|t]; try discriminate.
  cbn [py_sub bind]. eexists. split; [reflexivity|].
  intros k' v Hv Hf. destruct (string_dec k k') as [<-|Hne].
  - unfold param_get, set_param in Hv. cbn [parameters] in Hv.
    rewrite sdict_get_set_same in Hv. injection Hv as <-. discriminate.
  - unfold param_get, set_param in Hv. cbn [parameters] in Hv.
    now rewrite sdict_get_set_other in Hv by exact Hne.
Qed.

Lemma no_float_cons (k : string) (c : GCodeCommand) (ls : list GCodeCommand) :
  no_float k (c :: ls) ->
  (forall v, param_get c k = Some v -> is_float v = false) /\ no_float k ls.
Proof.
  unfold no_float. rewrite axis_args_cons. intros H.
  apply Forall_app in H. destruct H as [H1 H2]. split; [|exact H2].
  intros v E. rewrite E in H1. now inversion H1.
Qed.

Lemma translate_all_int (mx my : Z) (ls : list GCodeCommand) :
  no_float "X" ls -> no_float "Y" ls ->
  exists out, translate_all (VInt mx) (VInt my) ls = Ok out.
Proof.
  induction ls as [|c ls IH]; intros HX HY; cbn [translate_all].
  - eexists; reflexivity.
  - apply no_float_cons in HX. destruct HX as [HcX HX].
    apply no_float_cons in HY. destruct HY as [HcY HY].
    destruct (translate_axis_int "X" mx c HcX) as (c1 & -> & Hback). cbn [bind].
    destruct (translate_axis_int "Y" my c1) as (c2 & -> & _).
    { intros v Hv. destruct (is_float v) eqn:Ef; [|reflexivity].
      rewrite <- Ef. apply HcY. now apply Hback. }
    cbn [bind]. destruct (IH HX HY) as (out & ->). eexists; reflexivity.
Qed.

Lemma py_min_no_float (k : string) (ls : list GCodeCommand) (m : value) :
  no_float k ls -> py_min (not_str (axis_args k ls)) = Ok m -> exists z, m = VInt z.
Proof.
  intros Hn Hm.
  destruct (not_str (axis_args k ls)) as [|x l] eqn:E; [discriminate|].
  destruct (py_min_not_str (axis_args k ls)) as (m' & Hm' & Hs & Hin).
  { rewrite E. discriminate. }
  rewrite E in Hm'. rewrite Hm in Hm'. injection Hm' as <-.
  unfold not_str in Hin. apply filter_In in Hin. destruct Hin as [Hin _].
  unfold no_float in Hn. rewrite Forall_forall in Hn. specialize (Hn m Hin).
  destruct m as [z|f|t]; try discriminate. now exists z.
Qed.

(** X16.  [orient] changes numbers under X and Y and nothing else: the
    body keeps its length and order, every command its verb, its comment
    and its keys in their order, every parameter under another key its
    value, and every [str] under X or Y stays; no other field of the
    script changes. *)
Theorem orient_changes_only_X_and_Y (s s' : script) :
  orient s = Ok s' ->
  s' = with_lines s (lines s') /\ Forall2 same_but_XY (lines s) (lines s').
Proof.
  unfold orient, orient_lines. intros H.
  destruct (py_min (not_str (axis_args "X" (lines s)))) as [mx| |];
    cbn [bind] in H; try discriminate.
  destruct (py_min (not_str (axis_args "Y" (lines s)))) as [my| |];
    cbn [bind] in H; try discriminate.
  destruct (translate_all mx my (lines s)) as [out| |] eqn:E;
    cbn [bind] in H; try discriminate.
  injection H as <-. split; [reflexivity|].
  exact (translate_all_frame mx my (lines s) out E).
Qed.

Lemma orient_changes_only_X_and_Y_witness :
  exists s',
    orient (script_of [mkCommand "G1" [("X", VInt 5); ("Y", VInt 7); ("E", VInt 2)] "wall";
                       mkCommand "G1" [("X", VInt 3); ("Y", VStr "a")] ""]) = Ok s' /\
    Forall2 same_but_XY
      [mkCommand "G1" [("X", VInt 5); ("Y", VInt 7); ("E", VInt 2)] "wall";
       mkCommand "G1" [("X", VInt 3); ("Y", VStr "a")] ""]
      (lines s').
Proof.
  eexists. split; [reflexivity|].
  apply (orient_changes_only_X_and_Y
           (script_of [mkCommand "G1" [("X", VInt 5); ("Y", VInt 7); ("E", VInt 2)] "wall";
                       mkCommand "G1" [("X", VInt 3); ("Y", VStr "a")] ""])).
  reflexivity.
Defined.

(** X17.  [orient] returns or ends with one of two errors: the
    [ValueError] of [min] on an empty sequence, or the [OverflowError] of
    an [int] too large to be converted for a subtraction with a [float].
    It raises no [TypeError] and no [KeyError]; and when no X and no Y is
    a [float], an overflow cannot happen either. *)
Theorem orient_outcome (s : script) :
  ((exists s', orient s = Ok s') \/
   orient s = Raise MinEmptySequence \/
   orient s = Raise OverflowError) /\
  (no_float "X" (lines s) -> no_float "Y" (lines s) ->
   orient s <> Raise OverflowError).
Proof.
  unfold orient, orient_lines. split.
  - destruct (not_str (axis_args "X" (lines s))) as [|x xs] eqn:EX; [right; now left|].
    destruct (py_min_not_str (axis_args "X" (lines s))) as (mx & Hmx & Hsx & _);
      [rewrite EX; discriminate|].
    rewrite EX in Hmx. rewrite Hmx. cbn [bind].
    destruct (not_str (axis_args "Y" (lines s))) as [|y ys] eqn:EY; [right; now left|].
    destruct (py_min_not_str (axis_args "Y" (lines s))) as (my & Hmy & Hsy & _);
      [rewrite EY; discriminate|].
    rewrite EY in Hmy. rewrite Hmy. cbn [bind].
    destruct (translate_all_outcome mx my (lines s) Hsx Hsy) as [(out & ->)| ->];
      cbn [bind]; [left; eexists; reflexivity|right; now right].
  - intros HX HY.
    destruct (py_min (not_str (axis_args "X" (lines s)))) as [mx| |] eqn:Ex;
      cbn [bind]; try discriminate.
    + destruct (py_min (not_str (axis_args "Y" (lines s)))) as [my| |] eqn:Ey;
        cbn [bind]; try discriminate.
      * destruct (py_min_no_float _ _ _ HX Ex) as (zx & ->).
        destruct (py_min_no_float _ _ _ HY Ey) as (zy & ->).
        destruct (translate_all_int zx zy (lines s) HX HY) as (out & ->).
        discriminate.
      * destruct (not_str (axis_args "Y" (lines s))) as [|y ys] eqn:EY.
        -- simpl in Ey. congruence.
        -- destruct (py_min_not_str (axis_args "Y" (lines s))) as (my & Hmy & _);
             [rewrite EY; discriminate|].
           rewrite EY in Hmy. congruence.
    + destruct (not_str (axis_args "X" (lines s))) as [|x xs] eqn:EX.
      * simpl in Ex. congruence.
      * destruct (py_min_not_str (axis_args "X" (lines s))) as (mx & Hmx & _);
          [rewrite EX; discriminate|].
        rewrite EX in Hmx. congruence.
Qed.

(** An [int] of 1025 bits and the [float] 1.0 under X: the minimum is the
    [float], and the subtraction from the [int] overflows. *)
Lemma orient_overflow_example :
  orient (script_of [mkCommand "G1" [("X", VInt (2 ^ 1024)); ("Y", VInt 0)] "";
                     mkCommand "G1" [("X", VFloat (S754_finite false 4503599627370496 (-52)))] ""])
  = Raise OverflowError.
Proof. vm_compute. reflexivity. Qed.

(** ** convert as a whole *)

Lemma stripped_mirrored_usable (ls : list GCodeCommand) :
  Forall usable (stripped_mirrored ls).
Proof.
  unfold stripped_mirrored. apply Forall_forall. intros c Hin.
  apply in_map_iff in Hin. destruct Hin as (c0 & <- & Hin0).
  apply usable_mirror_Z. apply filter_In in Hin0. destruct Hin0 as [_ H].
  unfold usable. now destruct (_isPrinterSpecificCommand c0).
Qed.

(** What [convert] returns, through the expansion of its description. *)
Lemma convert_lines (s s' : script) :
  convert s = Ok s' ->
  exists mid,
    convert_prepare (lines s) = Ok mid /\ Forall usable mid /\
    expand_spec s (VInt 0) mid = Ok (lines s') /\ s' = with_lines s (lines s').
Proof.
  intros H. unfold convert in H.
  destruct (convert_prepare_total (lines s)) as (mid & Hm & Hu).
  rewrite Hm in H. cbn [bind] in H. rewrite expand_travels_spec in H.
  destruct (expand_spec s (VInt 0) mid) as [out| |] eqn:Eo; cbn [bind] in H;
    try discriminate.
  injection H as <-. exists mid. repeat split; assumption.
Qed.

Lemma G1_isACommand (c : GCodeCommand) : verb c = "G1" -> isACommand c = true.
Proof. unfold isACommand. now intros ->. Qed.

(** X18.  After [convert] every line of the body is a command, so the
    cleaning loop of [shrink] never removes a line there and never passes
    one over: shrinking a converted script clears the comment of every
    body command and keeps them all, in order. *)
Theorem shrink_after_convert (s s' : script) :
  convert s = Ok s' ->
  exists s2, shrink s' = Ok s2 /\ lines s2 = map clear_comment (lines s').
Proof.
  intros H. destruct (convert_lines s s' H) as (mid & _ & Hu & He & _).
  eexists. split.
  - unfold shrink, shrink_base. rewrite !clean_list_spec. cbn [bind].
    rewrite !clean_list_spec. cbn [bind]. reflexivity.
  - cbn [lines with_suffixGcode with_prefixGcode with_lines].
    apply clean_spec_all_commands.
    apply expand_spec_expands in He.
    pose proof (expands_all_G1 _ _ _ _ He Hu) as HG.
    eapply Forall_impl; [|exact HG]. intros c. apply G1_isACommand.
Qed.

Lemma shrink_after_convert_witness :
  exists s2,
    shrink (script_of [mkCommand "G1" [("X", VInt 1); ("Y", VInt 2)] "wall";
                       mkCommand "G1" [("X", VInt 3); ("Y", VInt 2)] "wall"]) = Ok s2 /\
    lines s2 = [mkCommand "G1" [("X", VInt 1); ("Y", VInt 2)] "";
                mkCommand "G1" [("X", VInt 3); ("Y", VInt 2)] ""].
Proof.
  apply (shrink_after_convert
           (script_of [mkCommand "" [] "start";
                       mkCommand "G1" [("X", VInt 1); ("Y", VInt 2); ("E", VInt 4)] "wall";
                       mkCommand "G1" [("X", VInt 3); ("Y", VInt 2)] "wall"])).
  reflexivity.
Defined.

(** X19.  When the body, once stripped and mirrored, does not both start
    and end with a G0, [convert] is the composition its comments
    describe: strip E and F, drop every line but G0 and G1, negate Z,
    merge each run of consecutive G0 into its last command, and expand
    every G0 left; it fails only where the expansion fails. *)
Theorem convert_as_pipeline (s : script) :
  no_wrap (stripped_mirrored (lines s)) ->
  convert s
  = (r <- expand_spec s (VInt 0) (merge_runs (stripped_mirrored (lines s))) ;;
     Ok (with_lines s r)).
Proof.
  intros Hw. unfold convert, convert_prepare, collapse.
  fold (stripped_mirrored (lines s)).
  rewrite collapse_loop_merges; [|apply stripped_mirrored_usable|exact Hw|lia].
  cbn [bind]. now rewrite expand_travels_spec.
Qed.

Lemma convert_as_pipeline_witness :
  convert
    (script_of
       [mkCommand "G1" [("X", VInt 1); ("Y", VInt 1); ("Z", VInt 2); ("E", VInt 1);
                        ("F", VInt 3)] "";
        mkCommand "G0" [("X", VInt 5); ("Y", VInt 6); ("Z", VInt 9)] "";
        mkCommand "M106" [("S", VInt 1)] "";
        mkCommand "G0" [("X", VInt 6); ("Y", VInt 7)] "";
        mkCommand "G1" [("X", VInt 7); ("Y", VInt 7)] ""])
  = Ok (script_of
          [mkCommand "G1" [("X", VInt 1); ("Y", VInt 1); ("Z", VInt (-2))] "";
           mkCommand "G1" [("Z", VInt 3); ("F", VInt 500)] "";
           mkCommand "G1" [("X", VInt 6); ("Y", VInt 7)] "";
           mkCommand "G1" [("Z", VInt (-9)); ("F", VInt 200)] "";
           mkCommand "G1" [("X", VInt 7); ("Y", VInt 7)] ""]).
Proof.
  rewrite convert_as_pipeline; reflexivity.
Defined.

(** *** What the stripping removes for good *)

Lemma sdict_get_notin (d : list (string * value)) (k : string) :
  ~ In k (map fst d) -> dict_get String.eqb d k = None.
Proof.
  induction d as [|[k' v'] d IH]; simpl; intros H; [reflexivity|].
  destruct (String.eqb_spec k k') as [->|Hne]; [exfalso; apply H; now left|].
  apply IH. intros Hin. apply H. now right.
Qed.

Lemma sdict_del_same (d : list (string * value)) (k : string) :
  NoDup (map fst d) -> dict_get String.eqb (dict_del String.eqb d k) k = None.
Proof.
  induction d as [|[k' v'] d IH]; simpl; intros H; [reflexivity|].
  inversion H as [|? ? Hnin Hnd]; subst.
  destruct (String.eqb_spec k k') as [->|Hne].
  - now apply sdict_get_notin.
  - simpl. destruct (String.eqb_spec k k'); [contradiction|]. now apply IH.
Qed.

Lemma sdict_del_other (d : list (string * value)) (k k' : string) :
  k <> k' ->
  dict_get String.eqb (dict_del String.eqb d k) k' = dict_get String.eqb d k'.
Proof.
  intros Hne. induction d as [|[k0 v0] d IH]; simpl; [reflexivity|].
  destruct (String.eqb_spec k k0) as [->|H0].
  - destruct (String.eqb_spec k' k0); [congruence|reflexivity].
  - simpl. destruct (String.eqb_spec k' k0); [reflexivity|exact IH].
Qed.

Lemma sdict_del_keys (d : list (string * value)) (k : string) :
  NoDup (map fst d) -> NoDup (map fst (dict_del String.eqb d k)).
Proof.
  induction d as [|[k' v'] d IH]; simpl; intros H; [constructor|].
  inversion H as [|? ? Hnin Hnd]; subst.
  destruct (String.eqb k k'); [exact Hnd|].
  simpl. constructor; [|now apply IH].
  intros Hin. apply Hnin. clear -Hin.
  induction d as [|[k0 v0] d IHd]; simpl in *; [contradiction|].
  destruct (String.eqb k k0); [now right|].
  destruct Hin as [Hin|Hin]; [now left|right; now apply IHd].
Qed.

Lemma has_param_false (c : GCodeCommand) (k : string) :
  has_param c k = false <-> param_get c k = None.
Proof.
  unfold has_param, dict_mem, param_get.
  destruct (dict_get String.eqb (parameters c) k); split; congruence.
Qed.

Lemma strip_EF_removes (c : GCodeCommand) :
  distinct_keys c ->
  param_get (strip_EF c) "E" = None /\ param_get (strip_EF c) "F" = None.
Proof.
  unfold distinct_keys. intros Hnd. unfold strip_EF.
  set (c1 := if has_param c "E" then del_param c "E" else c).
  assert (H1 : param_get c1 "E" = None /\ NoDup (map fst (parameters c1))).
  { unfold c1. destruct (has_param c "E") eqn:E.
    - split; [now apply sdict_del_same|now apply sdict_del_keys].
    - split; [now apply has_param_false|exact Hnd]. }
  destruct H1 as [HE Hnd1].
  destruct (has_param c1 "F") eqn:F.
  - split.
    + unfold param_get, del_param. cbn [parameters].
      rewrite sdict_del_other by discriminate. exact HE.
    + now apply sdict_del_same.
  - split; [exact HE|now apply has_param_false].
Qed.

Lemma param_get_set_Z_other (c : GCodeCommand) (z : value) (k : string) :
  k <> "Z" -> param_get (set_param c "Z" z) k = param_get c k.
Proof.
  intros Hne. unfold param_get, set_param. cbn [parameters].
  apply sdict_get_set_other. congruence.
Qed.

Lemma param_get_mirror_Z_other (c : GCodeCommand) (k : string) :
  k <> "Z" -> param_get (mirror_Z c) k = param_get c k.
Proof.
  intros Hne. unfold mirror_Z. destruct (param_get c "Z"); [|reflexivity].
  now apply param_get_set_Z_other.
Qed.

(** A property that assigning Z keeps holds of every command the
    collapse leaves. *)
Lemma collapse_pass_Forall (P : GCodeCommand -> Prop) :
  (forall c z, P c -> P (set_param c "Z" z)) ->
  forall fuel i ls altered out,
    Forall P ls -> collapse_pass fuel i ls altered = Ok out -> Forall P (fst out).
Proof.
  intros HP. induction fuel as [|fuel IH]; intros i ls altered out Hall H;
    [discriminate|].
  destruct (nth_error ls i) as [command|] eqn:En.
  - rewrite (collapse_pass_step _ _ _ _ command En) in H.
    destruct (getCommandRelativeToIndex ls (Z.of_nat i) (-1)) as [old| |];
      cbn [bind] in H; try discriminate.
    destruct (String.eqb "G0" (verb command) && String.eqb "G0" (verb (snd old))).
    + cbv zeta in H.
      set (ls1 := match param_get (snd old) "Z" with
                  | Some z => replace_at i (set_param command "Z" z) ls
                  | None => ls
                  end) in *.
      assert (H1 : Forall P ls1).
      { unfold ls1. destruct (param_get (snd old) "Z"); [|exact Hall].
        apply Forall_replace_at; [|exact Hall]. apply HP.
        rewrite Forall_forall in Hall. apply Hall. eapply nth_error_In; eassumption. }
      destruct (getCommandRelativeToIndex ls1 (Z.of_nat i) (-1)) as [old'| |];
        cbn [bind] in H; try discriminate.
      apply IH in H; [exact H|]. now apply Forall_remove_at.
    + now apply IH in H.
  - rewrite collapse_pass_end in H by exact En. injection H as <-. exact Hall.
Qed.

Lemma collapse_loop_Forall (P : GCodeCommand -> Prop) :
  (forall c z, P c -> P (set_param c "Z" z)) ->
  forall fuel ls out,
    Forall P ls -> collapse_loop fuel ls = Ok out -> Forall P out.
Proof.
  intros HP. induction fuel as [|fuel IH]; intros ls out Hall H; [discriminate|].
  change (collapse_loop (S fuel) ls)
    with (r <- collapse_pass (S (List.length ls)) 0 ls false ;;
          if snd r then collapse_loop fuel (fst r) else Ok (fst r)) in H.
  destruct (collapse_pass (S (List.length ls)) 0 ls false) as [r| |] eqn:Er;
    cbn [bind] in H; try discriminate.
  pose proof (collapse_pass_Forall P HP _ _ _ _ _ Hall Er) as Hr.
  destruct (snd r); [now apply IH in H|]. now injection H as <-.
Qed.

Lemma expands_milling_only (s : script) (a : value) (ls out : list GCodeCommand) :
  expands s a ls out ->
  Forall (fun c => param_get c "E" = None /\ param_get c "F" = None) ls ->
  Forall (milling_only s) out.
Proof.
  induction 1 as [a|a c rest out Hv _ IH|a c rest out x y Hv Hx Hy _ IH]; intros Hall.
  - constructor.
  - inversion Hall as [|? ? [HE HF] Hrest]; subst. constructor; [|now apply IH].
    split; [now apply has_param_false|]. intros v Hf. congruence.
  - inversion Hall as [|? ? _ Hrest]; subst.
    constructor; [|constructor; [|constructor; [|now apply IH]]].
    + split; [reflexivity|]. intros v Hf. left. now injection Hf as <-.
    + split; [reflexivity|]. intros v Hf. discriminate.
    + split; [reflexivity|]. intros v Hf. right. now injection Hf as <-.
Qed.

(** X20.  What the printer file says about extrusion and feed never
    reaches the mill: after [convert] no command carries an E, and the
    only F values are the travel speed, on a lift, and the feed speed, on
    a plunge, of the script itself. *)
Theorem convert_strips_E_and_F (s s' : script) :
  Forall distinct_keys (lines s) ->
  convert s = Ok s' ->
  Forall (milling_only s) (lines s').
Proof.
  intros Hnd H. destruct (convert_lines s s' H) as (mid & Hm & _ & He & _).
  apply expand_spec_expands in He. eapply expands_milling_only; [exact He|].
  unfold convert_prepare, collapse in Hm.
  eapply (collapse_loop_Forall
            (fun c => param_get c "E" = None /\ param_get c "F" = None));
    [| |exact Hm].
  - intros c z [HE HF]. now rewrite !param_get_set_Z_other by discriminate.
  - apply Forall_forall. intros c Hin. apply in_map_iff in Hin.
    destruct Hin as (c0 & <- & Hin0). apply filter_In in Hin0.
    destruct Hin0 as [Hin0 _]. apply in_map_iff in Hin0.
    destruct Hin0 as (c1 & <- & Hin1).
    rewrite !param_get_mirror_Z_other by discriminate.
    apply strip_EF_removes. rewrite Forall_forall in Hnd. now apply Hnd.
Qed.

Lemma convert_strips_E_and_F_witness :
  Forall (milling_only
            (script_of [mkCommand "G1" [("X", VInt 1); ("E", VInt 4); ("F", VInt 1800)] "";
                        mkCommand "G0" [("X", VInt 5); ("Y", VInt 6); ("F", VInt 9000)] ""]))
         [mkCommand "G1" [("X", VInt 1)] "";
          mkCommand "G1" [("Z", VInt 3); ("F", VInt 500)] "";
          mkCommand "G1" [("X", VInt 5); ("Y", VInt 6)] "";
          mkCommand "G1" [("Z", VInt 0); ("F", VInt 200)] ""].
Proof.
  apply (convert_strips_E_and_F
           (script_of [mkCommand "G1" [("X", VInt 1); ("E", VInt 4); ("F", VInt 1800)] "";
                       mkCommand "G0" [("X", VInt 5); ("Y", VInt 6); ("F", VInt 9000)] ""])
           (script_of [mkCommand "G1" [("X", VInt 1)] "";
                       mkCommand "G1" [("Z", VInt 3); ("F", VInt 500)] "";
                       mkCommand "G1" [("X", VInt 5); ("Y", VInt 6)] "";
                       mkCommand "G1" [("Z", VInt 0); ("F", VInt 200)] ""])).
  - unfold distinct_keys. repeat constructor; simpl; intuition discriminate.
  - reflexivity.
Defined.

(** ** Reading lines of text *)

Lemma string_of_list_ascii_nonempty (l : list ascii) :
  l <> [] -> string_of_list_ascii l <> "".
Proof. destruct l; [congruence|discriminate]. Qed.

Lemma rev_nonempty {A : Type} (l : list A) : l <> [] -> rev l <> [].
Proof.
  destruct l as [|a l]; [congruence|]. simpl. intros _ H.
  apply app_eq_nil in H. destruct H; discriminate.
Qed.

(** The words [split()] returns are never empty. *)
Lemma split_ws_nonempty (s : string) : forall cur,
  Forall (fun t => t <> "") (split_ws s cur).
Proof.
  induction s as [|c s IH]; intros cur; cbn [split_ws].
  - destruct cur; [constructor|].
    constructor; [|constructor].
    apply string_of_list_ascii_nonempty, rev_nonempty. discriminate.
  - destruct (is_space c); [|apply IH].
    destruct cur; [apply IH|].
    constructor; [|apply IH].
    apply string_of_list_ascii_nonempty, rev_nonempty. discriminate.
Qed.

(** [split()] returns no word exactly on white space. *)
Lemma split_ws_empty (s : string) : forall cur,
  split_ws s cur = [] <-> cur = [] /\ all_space s = true.
Proof.
  induction s as [|c s IH]; intros cur; cbn [split_ws all_space].
  - destruct cur; split; try tauto; try discriminate. intros [H _]. discriminate.
  - destruct (is_space c); cbn [andb].
    + destruct cur.
      * rewrite IH. tauto.
      * split; [discriminate|]. intros [H _]. discriminate.
    + rewrite IH. split; [intros [H _]; discriminate|intros [_ H]; discriminate].
Qed.

Lemma build_parameters_returns (io : float_io) (toks : list string) : forall d,
  Forall (fun t => t <> "") toks -> exists d', build_parameters io toks d = Ok d'.
Proof.
  induction toks as [|tok toks IH]; intros d H; cbn [build_parameters].
  - now exists d.
  - inversion H as [|? ? Ht Hrest]; subst.
    destruct tok as [|k rest]; [congruence|]. cbn [token_entry bind]. now apply IH.
Qed.

Lemma tokenize_outcome (s : string) :
  if blank_command s then _tokenize s = Raise IndexError
  else exists v ps,
      _tokenize s = Ok (v, ps, lstrip_sp (snd (partition ";" s))) /\
      Forall (fun t => t <> "") ps /\
      (String.eqb v "" = String.eqb (command_part s) "") /\
      (command_part s = "" -> ps = []).
Proof.
  unfold blank_command, _tokenize, command_part. cbv zeta.
  set (command := rstrip_sp (fst (partition ";" s))).
  destruct (String.eqb_spec command "") as [E|E]; cbn [negb andb].
  - exists "", []. repeat split; constructor.
  - pose proof (split_ws_nonempty command []) as Hne.
    pose proof (split_ws_empty command []) as Hem.
    destruct (split_ws command []) as [|v ps].
    + replace (all_space command) with true; [reflexivity|].
      symmetry. now apply Hem.
    + replace (all_space command) with false.
      * inversion Hne as [|? ? Hv Hps]; subst.
        exists v, ps. repeat split; [exact Hps| |congruence].
        now destruct (String.eqb_spec v "").
      * destruct (all_space command); [|reflexivity].
        assert (H : v :: ps = []) by now apply Hem. discriminate.
Qed.

Lemma StringGCodeCommand_parses (io : float_io) (s : string) :
  if blank_command s then StringGCodeCommand io s = Raise IndexError
  else exists c,
      StringGCodeCommand io s = Ok c /\
      isACommand c = negb (String.eqb (command_part s) "") /\
      comment c = lstrip_sp (snd (partition ";" s)) /\
      (isACommand c = false -> parameters c = []).
Proof.
  pose proof (tokenize_outcome s) as H. unfold StringGCodeCommand.
  destruct (blank_command s).
  - now rewrite H.
  - destruct H as (v & ps & -> & Hne & Hv & Hnil). cbn [bind].
    destruct (build_parameters_returns io ps [] Hne) as (d & Hd).
    rewrite Hd. cbn [bind]. eexists. split; [reflexivity|].
    unfold isACommand. cbn [verb comment parameters]. rewrite Hv.
    repeat split. intros Hc.
    destruct (String.eqb_spec (command_part s) ""); [|discriminate].
    rewrite Hnil in Hd by assumption. now injection Hd as <-.
Qed.

(** X21.  Building a command from a line of text fails in one case only:
    the text before the first semicolon is not empty once its trailing
    spaces are gone, yet [split()] finds no word in it, as on a line that
    holds a tab or a carriage return; [commandTokens[0]] is then an
    [IndexError].  Every other line gives a command; it is a line that is
    no command exactly when the text before the semicolon is empty or
    spaces, and then it has no parameters. *)
Theorem StringGCodeCommand_outcome (io : float_io) (s : string) :
  if blank_command s
  then _tokenize s = Raise IndexError /\ StringGCodeCommand io s = Raise IndexError
  else exists c,
      StringGCodeCommand io s = Ok c /\
      isACommand c = negb (String.eqb (command_part s) "") /\
      comment c = lstrip_sp (snd (partition ";" s)) /\
      (isACommand c = false -> parameters c = []).
Proof.
  pose proof (tokenize_outcome s) as Ht.
  pose proof (StringGCodeCommand_parses io s) as Hc.
  destruct (blank_command s); [now split|exact Hc].
Qed.

Lemma split_on_length (sep : ascii) (s : string) : forall cur,
  List.length (split_on sep s cur) = S (count_char sep s).
Proof.
  induction s as [|c s IH]; intros cur; cbn [split_on count_char]; [reflexivity|].
  destruct (Ascii.eqb c sep); cbn [List.length]; now rewrite IH.
Qed.

Lemma load_lines_outcome (io : float_io) (texts : list string) :
  if forallb (fun l => negb (blank_command l)) texts
  then exists ls, load_lines io texts = Ok ls /\ List.length ls = List.length texts
  else load_lines io texts = Raise IndexError.
Proof.
  induction texts as [|line rest IH]; cbn [forallb load_lines].
  - now exists [].
  - pose proof (StringGCodeCommand_parses io line) as Hc.
    destruct (blank_command line); cbn [negb andb].
    + now rewrite Hc.
    + destruct Hc as (c & -> & _). cbn [bind].
      destruct (forallb (fun l => negb (blank_command l)) rest).
      * destruct IH as (ls & -> & Hlen). cbn [bind].
        exists (c :: ls). split; [reflexivity|]. simpl. now rewrite Hlen.
      * now rewrite IH.
Qed.

(** X22.  [loadFromString] fails exactly when one of the pieces between
    newlines is a line on which building a command fails, and then with
    [IndexError].  Otherwise the body holds one command per piece, one
    more than the text has newlines: so never none, and
    [getSlicingEngine] finds its line 0.  No other field changes. *)
Theorem loadFromString_outcome (io : float_io) (s : script) (text : string) :
  if forallb (fun l => negb (blank_command l)) (split_on (ascii_of_nat 10) text [])
  then exists s',
      loadFromString io s text = Ok s' /\
      s' = with_lines s (lines s') /\
      List.length (lines s') = S (count_char (ascii_of_nat 10) text) /\
      exists engine, getSlicingEngine s' = Ok engine
  else loadFromString io s text = Raise IndexError.
Proof.
  unfold loadFromString.
  pose proof (load_lines_outcome io (split_on (ascii_of_nat 10) text [])) as H.
  destruct (forallb (fun l => negb (blank_command l)) (split_on (ascii_of_nat 10) text [])).
  - destruct H as (ls & -> & Hlen). cbn [bind]. eexists. split; [reflexivity|].
    cbn [lines with_lines]. rewrite split_on_length in Hlen.
    repeat split; [exact Hlen|].
    destruct (getSlicingEngine_outcome (with_lines s ls)) as [[E _]|(_ & engine & He & _)].
    + cbn [lines with_lines] in E. subst ls. discriminate.
    + now exists engine.
  - now rewrite H.
Qed.

(** ** Serialize, then tokenize *)

Lemma getCommand_text (io : float_io) (ps : list (string * value)) : forall v,
  fold_left (fun text kv => text ++ param_text io kv) ps v = v ++ tail_text io ps.
Proof.
  induction ps as [|kv ps IH]; intros v; cbn [fold_left tail_text].
  - now rewrite str_app_nil_r.
  - rewrite IH. now rewrite str_app_assoc.
Qed.

Lemma split_ws_step_space (c : ascii) (s : string) (cur : list ascii) :
  is_space c = true -> split_ws (String c s) cur = flush cur (split_ws s []).
Proof. intros H. cbn [split_ws]. now rewrite H. Qed.

Lemma split_ws_step_char (c : ascii) (s : string) (cur : list ascii) :
  is_space c = false -> split_ws (String c s) cur = split_ws s (c :: cur).
Proof. intros H. cbn [split_ws]. now rewrite H. Qed.

Lemma split_ws_end (cur : list ascii) : split_ws "" cur = flush cur [].
Proof. reflexivity. Qed.

Lemma word_char_not_space (c : ascii) : word_char c = true -> is_space c = false.
Proof. unfold word_char. now destruct (is_space c). Qed.

(** Reading a word moves its characters to the word being read. *)
Lemma split_ws_word (w rest : string) : forall cur,
  word w = true ->
  split_ws (w ++ rest) cur = split_ws rest (rev (list_ascii_of_string w) ++ cur).
Proof.
  induction w as [|c w IH]; intros cur H; [reflexivity|].
  cbn [word] in H. apply andb_true_iff in H. destruct H as [Hc Hw].
  cbn [append list_ascii_of_string rev].
  rewrite split_ws_step_char by now apply word_char_not_space.
  rewrite IH by exact Hw. now rewrite <- app_assoc.
Qed.

Lemma flush_word (w : string) (rest : list string) :
  w <> "" -> flush (rev (list_ascii_of_string w) ++ []) rest = w :: rest.
Proof.
  intros Hw. rewrite app_nil_r. unfold flush.
  destruct (rev (list_ascii_of_string w)) as [|a l] eqn:E.
  - exfalso. destruct w as [|c w]; [congruence|].
    simpl in E. apply app_eq_nil in E. destruct E; discriminate.
  - rewrite <- E, rev_involutive, string_of_list_ascii_of_string. reflexivity.
Qed.

Lemma split_ws_tail (io : float_io) (ps : list (string * value)) : forall cur,
  Forall (fun kv => word (written_token io kv) = true /\ written_token io kv <> "") ps ->
  split_ws (tail_text io ps) cur = flush cur (map (written_token io) ps).
Proof.
  induction ps as [|kv ps IH]; intros cur H; [reflexivity|].
  inversion H as [|? ? [Hw Hne] Hrest]; subst.
  cbn [tail_text map].
  change (param_text io kv ++ tail_text io ps)
    with (String " " (written_token io kv ++ tail_text io ps)).
  rewrite split_ws_step_space by reflexivity.
  rewrite split_ws_word by exact Hw.
  rewrite IH by exact Hrest. now rewrite flush_word.
Qed.

Lemma partition_plain (s r : string) :
  plain s = true ->
  partition ";" (s ++ r) = (s ++ fst (partition ";" r), snd (partition ";" r)).
Proof.
  induction s as [|c s IH]; intros H; cbn [append].
  - now destruct (partition ";" r).
  - cbn [plain] in H. apply andb_true_iff in H. destruct H as [Hc Hs].
    cbn [partition]. destruct (Ascii.eqb c ";"); [discriminate|].
    rewrite IH by exact Hs. reflexivity.
Qed.

Lemma plain_app (a b : string) : plain (a ++ b) = plain a && plain b.
Proof.
  induction a as [|c a IH]; cbn [append plain]; [reflexivity|].
  now rewrite IH, andb_assoc.
Qed.

Lemma word_plain (w : string) : word w = true -> plain w = true.
Proof.
  induction w as [|c w IH]; cbn [word plain]; [reflexivity|].
  intros H. apply andb_true_iff in H. destruct H as [Hc Hw].
  rewrite IH by exact Hw. unfold word_char in Hc.
  apply andb_true_iff in Hc. destruct Hc as [_ Hc]. now rewrite Hc.
Qed.

Lemma rstrip_word (w : string) : word w = true -> rstrip_sp w = w.
Proof.
  induction w as [|c w IH]; cbn [word rstrip_sp]; [reflexivity|].
  intros H. apply andb_true_iff in H. destruct H as [Hc Hw].
  rewrite IH by exact Hw. destruct w; [|reflexivity].
  destruct (Ascii.eqb_spec c " ") as [->|]; [discriminate|reflexivity].
Qed.

Lemma rstrip_app_word (a w : string) :
  word w = true -> w <> "" -> rstrip_sp (a ++ w) = a ++ w.
Proof.
  intros Hw Hne. induction a as [|c a IH]; cbn [append].
  - now apply rstrip_word.
  - cbn [rstrip_sp]. rewrite IH.
    destruct (a ++ w) eqn:E; [|reflexivity].
    destruct a; [simpl in E; congruence|discriminate].
Qed.

Lemma int_parameter_token (io : float_io) (kv : string * value) :
  int_parameter kv = true ->
  exists k z, kv = (String k "", VInt z) /\
              written_token io kv = String k (str_of_Z z) /\
              word (written_token io kv) = true /\ written_token io kv <> "".
Proof.
  destruct kv as [[|k [|? ?]] [z|f|t]]; try discriminate. cbn [int_parameter].
  intros Hk. exists k, z. split; [reflexivity|]. split; [reflexivity|].
  split; [|discriminate].
  unfold written_token. cbn [fst snd append word]. rewrite Hk.
  now rewrite (proj1 (str_of_Z_word z)).
Qed.

Lemma written_tokens_words (io : float_io) (ps : list (string * value)) :
  forallb int_parameter ps = true ->
  Forall (fun kv => word (written_token io kv) = true /\ written_token io kv <> "") ps.
Proof.
  intros H. apply Forall_forall. intros kv Hin.
  rewrite forallb_forall in H.
  destruct (int_parameter_token io kv (H kv Hin)) as (_ & _ & _ & _ & Hw & Hne).
  now split.
Qed.

Lemma tail_text_shape (io : float_io) (ps : list (string * value)) :
  forallb int_parameter ps = true ->
  plain (tail_text io ps) = true /\
  (ps <> [] -> exists a w, tail_text io ps = a ++ w /\ word w = true /\ w <> "").
Proof.
  induction ps as [|kv ps IH]; intros H; [split; [reflexivity|congruence]|].
  cbn [forallb] in H. apply andb_true_iff in H. destruct H as [Hkv Hps].
  destruct (IH Hps) as [Hplain Hlast].
  destruct (int_parameter_token io kv Hkv) as (k & z & _ & _ & Hw & Hne).
  cbn [tail_text].
  change (param_text io kv) with (" " ++ written_token io kv).
  split.
  - rewrite !plain_app, Hplain, (word_plain _ Hw). reflexivity.
  - intros _. destruct ps as [|kv' ps'].
    + exists " ", (written_token io kv). cbn [tail_text].
      rewrite str_app_nil_r. split; [reflexivity|]. split; assumption.
    + destruct Hlast as (a & w & E & Hw' & Hne'); [discriminate|].
      exists ((" " ++ written_token io kv) ++ a), w. rewrite E.
      rewrite !str_app_assoc. split; [reflexivity|]. split; assumption.
Qed.

Lemma build_parameters_written (io : float_io) (ps : list (string * value)) : forall d,
  forallb int_parameter ps = true ->
  NoDup (map fst d ++ map fst ps) ->
  build_parameters io (map (written_token io) ps) d = Ok (d ++ ps)%list.
Proof.
  induction ps as [|kv ps IH]; intros d H Hnd; cbn [map build_parameters].
  - now rewrite app_nil_r.
  - cbn [forallb] in H. apply andb_true_iff in H. destruct H as [Hkv Hps].
    destruct (int_parameter_token io kv Hkv) as (k & z & -> & -> & _).
    cbn [token_entry bind fst snd]. rewrite getNum_value.
    cbn [map fst] in Hnd.
    rewrite sdict_set_absent.
    + rewrite IH; [now rewrite <- app_assoc|exact Hps|].
      rewrite map_app, <- app_assoc. exact Hnd.
    + intros Hin. apply NoDup_remove_2 in Hnd. apply Hnd.
      apply in_or_app. now left.
Qed.

Lemma getFullCommand_text (io : float_io) (c : GCodeCommand) :
  exists sfx,
    getFullCommand io c = (verb c ++ tail_text io (parameters c)) ++ sfx /\
    fst (partition ";" sfx) = "" /\
    lstrip_sp (snd (partition ";" sfx)) = lstrip_sp (comment c).
Proof.
  unfold getFullCommand, getCommand. rewrite getCommand_text. cbv zeta.
  destruct (String.eqb_spec (comment c) "") as [E|E]; cbn [negb].
  - exists "". rewrite str_app_nil_r, E. repeat split.
  - exists ("; " ++ comment c). repeat split.
Qed.

Lemma string_app_nonempty (a b : string) : a <> "" -> a ++ b <> "".
Proof. destruct a; [congruence|discriminate]. Qed.

(** The tokens of the text a writable command serializes to. *)
Lemma tokenize_written (io : float_io) (c : GCodeCommand) :
  writable c ->
  _tokenize (getFullCommand io c)
  = Ok (verb c, map (written_token io) (parameters c), comment c).
Proof.
  intros (Hv & Hnil & Hps & _ & Hcm & _).
  destruct (getFullCommand_text io c) as (sfx & -> & Hfst & Hsnd).
  destruct (tail_text_shape io (parameters c) Hps) as [Hplain Hlast].
  unfold _tokenize. cbv zeta.
  rewrite partition_plain by (rewrite plain_app, Hplain, (word_plain _ Hv); reflexivity).
  cbn [fst snd]. rewrite Hfst, Hsnd, Hcm, str_app_nil_r.
  destruct (String.eqb_spec (verb c) "") as [Ev|Ev].
  - rewrite (Hnil Ev), Ev. reflexivity.
  - assert (Hr : rstrip_sp (verb c ++ tail_text io (parameters c))
                 = verb c ++ tail_text io (parameters c)).
    { destruct (parameters c) as [|kv ps] eqn:Ep.
      - cbn [tail_text]. rewrite str_app_nil_r. now apply rstrip_word.
      - destruct Hlast as (a & w & -> & Hw & Hne); [discriminate|].
        rewrite <- str_app_assoc. now apply rstrip_app_word. }
    rewrite Hr.
    destruct (String.eqb_spec (verb c ++ tail_text io (parameters c)) "") as [E|_].
    { exfalso. revert E. now apply string_app_nonempty. }
    cbn [negb].
    rewrite split_ws_word by exact Hv.
    rewrite split_ws_tail by now apply written_tokens_words.
    now rewrite flush_word by exact Ev.
Qed.

Lemma StringGCodeCommand_written (io : float_io) (c : GCodeCommand) :
  writable c -> StringGCodeCommand io (getFullCommand io c) = Ok c.
Proof.
  intros Hw. unfold StringGCodeCommand. rewrite (tokenize_written io c Hw).
  cbn [bind]. destruct Hw as (_ & _ & Hps & Hnd & _).
  rewrite build_parameters_written by assumption.
  cbn [bind app]. now destruct c.
Qed.

(** X24.  Serializing a command and building a command from the text
    gives the command back, comment included, when the verb is one word,
    the parameters are integers under distinct one-character keys and
    the comment starts with no space. *)
Theorem serialize_tokenize_roundtrip (io : float_io) (c : GCodeCommand) :
  writable c ->
  StringGCodeCommand io (getFullCommand io c) = Ok c /\
  (forall c', StringGCodeCommand io (getCommand io c) = Ok c' ->
              c' = clear_comment c).
Proof.
  intros Hw. split; [now apply StringGCodeCommand_written|].
  intros c' H.
  assert (Hw' : writable (clear_comment c)).
  { destruct Hw as (H1 & H2 & H3 & H4 & _). repeat split; assumption. }
  pose proof (StringGCodeCommand_written io (clear_comment c) Hw') as H'.
  change (getFullCommand io (clear_comment c)) with (getCommand io c) in H'.
  congruence.
Qed.

Lemma serialize_tokenize_roundtrip_witness :
  StringGCodeCommand (mkFloatIO (fun _ => None) (fun _ => ""))
                     "G1 X10 Y-5 Z7; outer wall"
  = Ok (mkCommand "G1" [("X", VInt 10); ("Y", VInt (-5)); ("Z", VInt 7)] "outer wall").
Proof.
  apply (proj1 (serialize_tokenize_roundtrip
                  (mkFloatIO (fun _ => None) (fun _ => ""))
                  (mkCommand "G1" [("X", VInt 10); ("Y", VInt (-5)); ("Z", VInt 7)]
                             "outer wall")
                  ltac:(unfold writable; cbn;
                        repeat split; try reflexivity; try discriminate;
                        repeat constructor; simpl; intuition discriminate))).
Defined.

(** *** Lines given by their words *)

Lemma split_ws_words (toks : list string) : forall cur,
  Forall (fun t => word t = true /\ t <> "") toks ->
  split_ws (words_text toks) cur = flush cur toks.
Proof.
  induction toks as [|tok toks IH]; intros cur H; [reflexivity|].
  inversion H as [|? ? [Hw Hne] Hrest]; subst.
  cbn [words_text].
  change (" " ++ tok ++ words_text toks) with (String " " (tok ++ words_text toks)).
  rewrite split_ws_step_space by reflexivity.
  rewrite split_ws_word by exact Hw.
  rewrite IH by exact Hrest. now rewrite flush_word.
Qed.

Lemma words_text_shape (toks : list string) :
  Forall (fun t => word t = true /\ t <> "") toks ->
  plain (words_text toks) = true /\
  (toks <> [] -> exists a w, words_text toks = a ++ w /\ word w = true /\ w <> "").
Proof.
  induction 1 as [|tok toks [Hw Hne] _ [Hplain Hlast]]; [split; [reflexivity|congruence]|].
  cbn [words_text]. split.
  - change (" " ++ tok ++ words_text toks) with (" " ++ (tok ++ words_text toks)).
    rewrite !plain_app, Hplain, (word_plain _ Hw). reflexivity.
  - intros _. destruct toks as [|tok' toks'].
    + exists " ", tok. cbn [words_text]. rewrite str_app_nil_r.
      split; [reflexivity|]. split; assumption.
    + destruct Hlast as (a & w & E & Hw' & Hne'); [discriminate|].
      exists (" " ++ tok ++ a), w. rewrite E, !str_app_assoc.
      split; [reflexivity|]. split; assumption.
Qed.

(** A line that is a verb, parameter tokens with a space before each
    and, after a semicolon, a comment has this verb, these tokens and,
    without the spaces it starts with, this comment. *)
Lemma tokenize_line_of_words (v cm : string) (toks : list string) :
  word v = true -> v <> "" ->
  Forall (fun t => word t = true /\ t <> "") toks ->
  _tokenize (v ++ words_text toks) = Ok (v, toks, "") /\
  _tokenize ((v ++ words_text toks) ++ String ";" cm) = Ok (v, toks, lstrip_sp cm).
Proof.
  intros Hv Hne Htoks.
  destruct (words_text_shape toks Htoks) as [Hplain Hlast].
  assert (Hp : plain (v ++ words_text toks) = true)
    by (rewrite plain_app, Hplain, (word_plain _ Hv); reflexivity).
  assert (Hr : rstrip_sp (v ++ words_text toks) = v ++ words_text toks).
  { destruct toks as [|tok toks'].
    - cbn [words_text]. rewrite str_app_nil_r. now apply rstrip_word.
    - destruct Hlast as (a & w & -> & Hw & Hnw); [discriminate|].
      rewrite <- str_app_assoc. now apply rstrip_app_word. }
  assert (Hs : split_ws (v ++ words_text toks) [] = v :: toks).
  { rewrite split_ws_word by exact Hv. rewrite split_ws_words by exact Htoks.
    now apply flush_word. }
  assert (Hn : String.eqb (v ++ words_text toks) "" = false).
  { destruct (String.eqb_spec (v ++ words_text toks) "") as [E|_]; [|reflexivity].
    exfalso. revert E. now apply string_app_nonempty. }
  assert (Hpart : forall r,
             partition ";" ((v ++ words_text toks) ++ r)
             = ((v ++ words_text toks) ++ fst (partition ";" r), snd (partition ";" r)))
    by (intros r; now apply partition_plain).
  split; unfold _tokenize; cbv zeta.
  - pose proof (Hpart "") as E. rewrite str_app_nil_r in E. rewrite E.
    cbn [partition fst snd]. rewrite str_app_nil_r, Hr, Hn, Hs. reflexivity.
  - rewrite Hpart. cbn [partition]. rewrite Ascii.eqb_refl. cbn [fst snd].
    rewrite str_app_nil_r, Hr, Hn, Hs. reflexivity.
Qed.

(** ** Export, then load *)

Lemma string_of_list_ascii_app (a b : list ascii) :
  string_of_list_ascii (a ++ b) = string_of_list_ascii a ++ string_of_list_ascii b.
Proof. induction a as [|x a IH]; simpl; [reflexivity|now rewrite IH]. Qed.

(** Up to the first separator, [split] returns the text read. *)
Lemma split_on_line (sep : ascii) (line rest : string) : forall cur,
  count_char sep line = O ->
  split_on sep (line ++ String sep rest) cur
  = (string_of_list_ascii (rev cur) ++ line) :: split_on sep rest [].
Proof.
  induction line as [|c line IH]; intros cur H; cbn [append].
  - cbn [split_on]. rewrite Ascii.eqb_refl. now rewrite str_app_nil_r.
  - cbn [count_char] in H. cbn [split_on].
    destruct (Ascii.eqb c sep); [discriminate|].
    rewrite IH by exact H. cbn [rev].
    rewrite string_of_list_ascii_app, str_app_assoc. reflexivity.
Qed.

Lemma count_char_app (c : ascii) (a b : string) :
  count_char c (a ++ b) = (count_char c a + count_char c b)%nat.
Proof.
  induction a as [|x a IH]; cbn [append count_char]; [reflexivity|].
  rewrite IH. lia.
Qed.

Lemma word_no_newline (w : string) :
  word w = true -> count_char (ascii_of_nat 10) w = O.
Proof.
  induction w as [|c w IH]; cbn [word count_char]; [reflexivity|].
  intros H. apply andb_true_iff in H. destruct H as [Hc Hw].
  rewrite IH by exact Hw.
  destruct (Ascii.eqb_spec c (ascii_of_nat 10)) as [->|]; [discriminate|reflexivity].
Qed.

Lemma tail_text_no_newline (io : float_io) (ps : list (string * value)) :
  forallb int_parameter ps = true ->
  count_char (ascii_of_nat 10) (tail_text io ps) = O.
Proof.
  induction ps as [|kv ps IH]; intros H; [reflexivity|].
  cbn [forallb] in H. apply andb_true_iff in H. destruct H as [Hkv Hps].
  destruct (int_parameter_token io kv Hkv) as (_ & _ & _ & _ & Hw & _).
  cbn [tail_text].
  change (param_text io kv) with (" " ++ written_token io kv).
  rewrite !count_char_app, (word_no_newline _ Hw), (IH Hps). reflexivity.
Qed.

(** The text of a writable command is one line. *)
Lemma getFullCommand_one_line (io : float_io) (c : GCodeCommand) :
  writable c -> count_char (ascii_of_nat 10) (getFullCommand io c) = O.
Proof.
  intros (Hv & _ & Hps & _ & _ & Hcm).
  unfold getFullCommand, getCommand. rewrite getCommand_text. cbv zeta.
  assert (Ht : count_char (ascii_of_nat 10) (verb c ++ tail_text io (parameters c)) = O)
    by (rewrite count_char_app, (word_no_newline _ Hv), tail_text_no_newline; auto).
  destruct (negb (String.eqb (comment c) "")); [|exact Ht].
  rewrite count_char_app, Ht, count_char_app, Hcm. reflexivity.
Qed.

Lemma export_text_cons (io : float_io) (c : GCodeCommand) (ls : list GCodeCommand) :
  export_text io (c :: ls)
  = getFullCommand io c ++ String (ascii_of_nat 10) (export_text io ls).
Proof.
  change (c :: ls) with ([c] ++ ls)%list. rewrite export_text_app.
  unfold export_text at 1. cbn [fold_left append].
  unfold newline. now rewrite str_app_assoc.
Qed.

Lemma split_export_text (io : float_io) (ls : list GCodeCommand) :
  Forall writable ls ->
  split_on (ascii_of_nat 10) (export_text io ls) []
  = (map (getFullCommand io) ls ++ [""])%list.
Proof.
  induction 1 as [|c ls Hc _ IH]; [reflexivity|].
  rewrite export_text_cons, split_on_line by now apply getFullCommand_one_line.
  cbn [rev string_of_list_ascii append map app]. now rewrite IH.
Qed.

Lemma load_written_lines (io : float_io) (ls : list GCodeCommand) :
  Forall writable ls ->
  load_lines io (map (getFullCommand io) ls ++ [""]) = Ok (ls ++ [empty_line])%list.
Proof.
  induction 1 as [|c ls Hc _ IH]; [reflexivity|].
  cbn [map app load_lines]. rewrite StringGCodeCommand_written by exact Hc.
  cbn [bind]. rewrite IH. reflexivity.
Qed.

(** X25.  Loading the text of an export gives back the commands that
    were exported, followed by one line without verb, parameters or
    comment for the empty text after the last newline, when every
    command is determined by its text: one-word verb, integers under
    distinct one-character keys, a comment on one line that starts with
    no space. *)
Theorem export_load_roundtrip (io : float_io) (s : script) (ls : list GCodeCommand) :
  Forall writable ls ->
  loadFromString io s (export_text io ls) = Ok (with_lines s (ls ++ [empty_line])).
Proof.
  intros H. unfold loadFromString.
  rewrite split_export_text, load_written_lines by exact H. reflexivity.
Qed.

Lemma export_load_roundtrip_witness :
  loadFromString (mkFloatIO (fun _ => None) (fun _ => "")) (script_of [])
                 (export_text (mkFloatIO (fun _ => None) (fun _ => ""))
                              [mkCommand "G1" [("X", VInt 1); ("Y", VInt 2)] "wall";
                               mkCommand "" [] "TYPE:Infill";
                               mkCommand "M05" [] ""])
  = Ok (script_of [mkCommand "G1" [("X", VInt 1); ("Y", VInt 2)] "wall";
                   mkCommand "" [] "TYPE:Infill";
                   mkCommand "M05" [] "";
                   empty_line]).
Proof.
  apply (export_load_roundtrip
           (mkFloatIO (fun _ => None) (fun _ => "")) (script_of [])
           [mkCommand "G1" [("X", VInt 1); ("Y", VInt 2)] "wall";
            mkCommand "" [] "TYPE:Infill";
            mkCommand "M05" [] ""]).
  repeat constructor; simpl; try discriminate; intuition discriminate.
Defined.

(** X26.  The three commands the travel expansion builds from formatted
    text are, for integer settings and coordinates, the commands the
    text says: G1 with Z and F, G1 with X and Y, in this order of keys
    and without a comment. *)
Theorem formatted_moves_tokenize (io : float_io) (a b : Z) :
  StringGCodeCommand io ("G1 Z" ++ str_of_Z a ++ " F" ++ str_of_Z b)
  = Ok (formatted_command "G1" [("Z", VInt a); ("F", VInt b)]) /\
  StringGCodeCommand io ("G1 X" ++ str_of_Z a ++ " Y" ++ str_of_Z b)
  = Ok (formatted_command "G1" [("X", VInt a); ("Y", VInt b)]).
Proof.
  assert (H : forall k1 k2,
             word_char k1 = true -> word_char k2 = true -> k1 <> k2 ->
             writable (mkCommand "G1" [(String k1 "", VInt a); (String k2 "", VInt b)] "")).
  { intros k1 k2 H1 H2 Hne. unfold writable. cbn [verb parameters comment].
    repeat split; try reflexivity; try discriminate.
    - cbn [forallb int_parameter]. now rewrite H1, H2.
    - repeat constructor; simpl; [|tauto]. intros [E|[]]. congruence. }
  split.
  - apply (StringGCodeCommand_written io _ (H "Z"%char "F"%char eq_refl eq_refl
                                              ltac:(discriminate))).
  - apply (StringGCodeCommand_written io _ (H "X"%char "Y"%char eq_refl eq_refl
                                              ltac:(discriminate))).
Qed.

(** ** main.py *)

Lemma split_on_last (sep : ascii) (line : string) : forall cur,
  count_char sep line = O ->
  split_on sep line cur = [string_of_list_ascii (rev cur) ++ line].
Proof.
  induction line as [|c line IH]; intros cur H; cbn [split_on].
  - now rewrite str_app_nil_r.
  - cbn [count_char] in H. destruct (Ascii.eqb c sep); [discriminate|].
    rewrite IH by exact H. cbn [rev].
    now rewrite string_of_list_ascii_app, str_app_assoc.
Qed.

Lemma split_on_join (texts : list string) :
  texts <> [] ->
  Forall (fun t => count_char (ascii_of_nat 10) t = O) texts ->
  split_on (ascii_of_nat 10) (join_lines texts) [] = texts.
Proof.
  induction texts as [|t rest IH]; intros Hne H; [congruence|].
  inversion H as [|? ? Ht Hrest]; subst.
  destruct rest as [|t' rest'].
  - cbn [join_lines]. now rewrite split_on_last.
  - change (join_lines (t :: t' :: rest'))
      with (t ++ String (ascii_of_nat 10) (join_lines (t' :: rest'))).
    rewrite split_on_line by exact Ht. cbn [rev string_of_list_ascii append].
    rewrite IH; [reflexivity|discriminate|exact Hrest].
Qed.

Lemma load_written (io : float_io) (ls : list GCodeCommand) :
  Forall writable ls -> load_lines io (map (getFullCommand io) ls) = Ok ls.
Proof.
  induction 1 as [|c ls Hc _ IH]; [reflexivity|].
  cbn [map load_lines]. rewrite StringGCodeCommand_written by exact Hc.
  cbn [bind]. now rewrite IH.
Qed.

(** Text that is the lines of writable commands loads as these commands. *)
Lemma loadFromString_joined (io : float_io) (s : script) (ls : list GCodeCommand) :
  ls <> [] -> Forall writable ls ->
  loadFromString io s (join_lines (map (getFullCommand io) ls)) = Ok (with_lines s ls).
Proof.
  intros Hne Hw. unfold loadFromString. rewrite split_on_join.
  - now rewrite load_written.
  - destruct ls; [congruence|discriminate].
  - apply Forall_forall. intros t Hin. apply in_map_iff in Hin.
    destruct Hin as (c & <- & Hc). apply getFullCommand_one_line.
    rewrite Forall_forall in Hw. now apply Hw.
Qed.

Lemma writable_plain_command (v : string) (ps : list (string * value)) :
  word v = true -> v <> "" -> forallb int_parameter ps = true ->
  NoDup (map fst ps) -> writable (mkCommand v ps "").
Proof.
  intros Hv Hne Hps Hnd. unfold writable. cbn [verb parameters comment].
  repeat split; try assumption; try reflexivity. intros E. congruence.
Qed.

Lemma default_prefix_writable (clearance travelRate spindleSpeed : Z) :
  Forall writable (default_prefix_commands clearance travelRate spindleSpeed).
Proof.
  unfold default_prefix_commands.
  repeat (apply Forall_cons;
          [apply writable_plain_command;
           [reflexivity | discriminate | reflexivity
           | repeat constructor; simpl; intuition discriminate]|]).
  apply Forall_nil.
Qed.

Lemma default_suffix_writable (clearance travelRate : Z) :
  Forall writable (default_suffix_commands clearance travelRate).
Proof.
  unfold default_suffix_commands.
  repeat (apply Forall_cons;
          [apply writable_plain_command;
           [reflexivity | discriminate | reflexivity
           | repeat constructor; simpl; intuition discriminate]|]).
  apply Forall_nil.
Qed.

Lemma DEFAULT_PREFIX_lines (io : float_io) (clearance travelRate spindleSpeed : Z) :
  DEFAULT_PREFIX clearance travelRate spindleSpeed
  = join_lines (map (getFullCommand io)
                    (default_prefix_commands clearance travelRate spindleSpeed)).
Proof.
  unfold DEFAULT_PREFIX, default_prefix_commands, newline.
  cbn [map join_lines]. unfold getFullCommand, getCommand.
  cbn [verb parameters comment fold_left String.eqb negb param_text fst snd].
  cbv zeta. change (str_of_Z 0) with "0".
  cbn [append]. rewrite !str_app_assoc. cbn [append]. reflexivity.
Qed.

Lemma DEFAULT_SUFFIX_lines (io : float_io) (clearance travelRate : Z) :
  DEFAULT_SUFFIX clearance travelRate
  = join_lines (map (getFullCommand io) (default_suffix_commands clearance travelRate)).
Proof.
  unfold DEFAULT_SUFFIX, default_suffix_commands, newline.
  cbn [map join_lines]. unfold getFullCommand, getCommand.
  cbn [verb parameters comment fold_left String.eqb negb param_text fst snd].
  cbv zeta. change (str_of_Z 0) with "0". change (str_of_Z 30) with "30".
  cbn [append]. rewrite !str_app_assoc. cbn [append]. reflexivity.
Qed.

Lemma export_text_joined (io : float_io) (ls : list GCodeCommand) :
  ls <> [] ->
  export_text io ls = join_lines (map (getFullCommand io) ls) ++ newline.
Proof.
  induction ls as [|c ls IH]; intros Hne; [congruence|].
  rewrite export_text_cons. destruct ls as [|c' ls'].
  - reflexivity.
  - rewrite IH by discriminate.
    change (join_lines (map (getFullCommand io) (c :: c' :: ls')))
      with (getFullCommand io c
            ++ String (ascii_of_nat 10) (join_lines (map (getFullCommand io) (c' :: ls')))).
    now rewrite str_app_assoc.
Qed.

Lemma load_DEFAULT_PREFIX (io : float_io) (s : script) (clearance travelRate spindleSpeed : Z) :
  loadFromString io s (DEFAULT_PREFIX clearance travelRate spindleSpeed)
  = Ok (with_lines s (default_prefix_commands clearance travelRate spindleSpeed)).
Proof.
  rewrite (DEFAULT_PREFIX_lines io). apply loadFromString_joined.
  - discriminate.
  - apply default_prefix_writable.
Qed.

Lemma load_DEFAULT_SUFFIX (io : float_io) (s : script) (clearance travelRate : Z) :
  loadFromString io s (DEFAULT_SUFFIX clearance travelRate)
  = Ok (with_lines s (default_suffix_commands clearance travelRate)).
Proof.
  rewrite (DEFAULT_SUFFIX_lines io). apply loadFromString_joined.
  - discriminate.
  - apply default_suffix_writable.
Qed.

Lemma convert_all_G1 (s s' : script) :
  convert s = Ok s' -> Forall (fun c => verb c = "G1") (lines s').
Proof.
  intros H. destruct (convert_lines s s' H) as (mid & _ & Hu & He & _).
  apply expand_spec_expands in He. exact (expands_all_G1 _ _ _ _ He Hu).
Qed.

Lemma map_clear_comment_G1 (ls : list GCodeCommand) :
  Forall (fun c => verb c = "G1") ls ->
  Forall (fun c => verb c = "G1") (map clear_comment ls).
Proof. induction 1; constructor; assumption. Qed.

(** The last two steps of [main]: shrink on request, then export. *)
Lemma main_tail (io : float_io) (s3 : script) (P S : list GCodeCommand) (sh : bool) :
  (s6 <- (if sh then shrink (with_suffixGcode (with_prefixGcode s3 P) S)
          else Ok (with_suffixGcode (with_prefixGcode s3 P) S)) ;;
   Ok (fst (export io s6)))
  = Ok (export_text io (if sh then clean_spec P else P)
        ++ export_text io (if sh then clean_spec (lines s3) else lines s3)
        ++ export_text io (if sh then clean_spec S else S)).
Proof.
  destruct sh;
    [unfold shrink, shrink_base; rewrite !clean_list_spec; cbn [bind];
     rewrite !clean_list_spec|];
    cbn [bind]; unfold export;
    cbn [fst lines prefixGcode suffixGcode with_lines with_prefixGcode with_suffixGcode];
    rewrite !export_text_app; reflexivity.
Qed.

Lemma clean_default_prefix (clearance travelRate spindleSpeed : Z) (sh : bool) :
  (if sh then clean_spec (default_prefix_commands clearance travelRate spindleSpeed)
   else default_prefix_commands clearance travelRate spindleSpeed)
  = default_prefix_commands clearance travelRate spindleSpeed.
Proof. now destruct sh. Qed.

Lemma clean_default_suffix (clearance travelRate : Z) (sh : bool) :
  (if sh then clean_spec (default_suffix_commands clearance travelRate)
   else default_suffix_commands clearance travelRate)
  = default_suffix_commands clearance travelRate.
Proof. now destruct sh. Qed.

(** X27.  Run with the prefix and suffix the program ships, [main]
    writes, whenever it writes anything, the formatted prefix line for
    line, then a body of G1 commands only, then the formatted suffix,
    each line ended by a newline; with and without [--shrink]. *)
Theorem main_default_affixes (io : float_io) (a : args) (SOURCE out : string) :
  arg_prefix a = DEFAULT_PREFIX (arg_clearance a) (arg_travelrate a) (arg_spindle_speed a) ->
  arg_suffix a = DEFAULT_SUFFIX (arg_clearance a) (arg_travelrate a) ->
  main io a SOURCE = Ok out ->
  exists body,
    Forall (fun c => verb c = "G1") body /\
    out = (arg_prefix a ++ newline) ++ export_text io body ++ (arg_suffix a ++ newline).
Proof.
  intros Hp Hs H. unfold main in H.
  destruct (loadFromString io GCodeScriptPrinter SOURCE) as [p| |];
    cbn [bind] in H; try discriminate.
  cbv zeta in H.
  destruct (if negb (arg_keep_infill a) then _ else _) as [s1| |];
    cbn [bind] in H; try discriminate.
  destruct (if negb (arg_no_orient a) then _ else _) as [s2| |];
    cbn [bind] in H; try discriminate.
  destruct (convert s2) as [s3| |] eqn:Ec; cbn [bind] in H; try discriminate.
  pose proof (convert_all_G1 s2 s3 Ec) as HG.
  pose proof (load_DEFAULT_PREFIX io GCodeScriptPrinter (arg_clearance a)
                                  (arg_travelrate a) (arg_spindle_speed a)) as Hq.
  pose proof (load_DEFAULT_SUFFIX io GCodeScriptPrinter (arg_clearance a)
                                  (arg_travelrate a)) as Hr.
  set (q := with_lines GCodeScriptPrinter _) in Hq.
  set (r := with_lines GCodeScriptPrinter _) in Hr.
  assert (Hlq : lines q = default_prefix_commands (arg_clearance a) (arg_travelrate a)
                                                  (arg_spindle_speed a)) by reflexivity.
  assert (Hlr : lines r = default_suffix_commands (arg_clearance a) (arg_travelrate a))
    by reflexivity.
  clearbody q r.
  rewrite Hp, Hs, Hq in H. cbn [bind] in H. rewrite Hr in H. cbn [bind] in H.
  rewrite main_tail in H. injection H as <-.
  rewrite Hlq, Hlr, clean_default_prefix, clean_default_suffix.
  rewrite Hp, Hs, (DEFAULT_PREFIX_lines io), (DEFAULT_SUFFIX_lines io).
  rewrite <- !export_text_joined by discriminate.
  exists (if arg_shrink a then clean_spec (lines s3) else lines s3).
  split; [|reflexivity].
  destruct (arg_shrink a); [|exact HG].
  rewrite clean_spec_all_commands
    by (eapply Forall_impl; [|exact HG]; intros c; apply G1_isACommand).
  now apply map_clear_comment_G1.
Qed.

Lemma main_default_affixes_witness :
  exists body,
    Forall (fun c => verb c = "G1") body /\
    (DEFAULT_PREFIX 3 500 10000 ++ newline) ++ "G1 X0 Y2" ++ newline
      ++ "G1 X4 Y0" ++ newline ++ DEFAULT_SUFFIX 3 500 ++ newline
    = (DEFAULT_PREFIX 3 500 10000 ++ newline)
        ++ export_text (mkFloatIO (fun _ => None) (fun _ => "")) body
        ++ (DEFAULT_SUFFIX 3 500 ++ newline).
Proof.
  apply (main_default_affixes
           (mkFloatIO (fun _ => None) (fun _ => ""))
           (mkArgs 3 200 10 false false (DEFAULT_PREFIX 3 500 10000)
                   (DEFAULT_SUFFIX 3 500) 10000 true 500)
           ("; made by hand" ++ newline ++ "G1 X5 Y7 E1 ; wall" ++ newline ++ "G1 X9 Y5")).
  - reflexivity.
  - reflexivity.
  - vm_compute. reflexivity.
Defined.

(** *** Without coordinates *)

Lemma getType_scan_ends (items : list (Z * string)) (i : Z) :
  getType_scan items i <> OutOfFuel.
Proof.
  induction items as [|[k v] items IH]; simpl; [discriminate|].
  destruct (k <=? i); [discriminate|exact IH].
Qed.

Lemma py_index_ends {A : Type} (l : list A) (i : Z) : py_index l i <> OutOfFuel.
Proof.
  destruct (py_index_outcome l i) as [(x & -> & _)| ->]; discriminate.
Qed.

Lemma py_pop_ends {A : Type} (l : list A) (i : Z) : py_pop l i <> OutOfFuel.
Proof.
  unfold py_pop. cbv zeta.
  destruct ((_ <? 0) || (len l <=? _)); discriminate.
Qed.

Lemma infill_cond_ends (s : script) (F i : Z) : infill_cond s F i <> OutOfFuel.
Proof.
  unfold infill_cond, getType, getLayer. cbn [bind fst].
  pose proof (getType_scan_ends (rev (typeIndicies s)) i) as Ht.
  destruct (getType_scan (rev (typeIndicies s)) i) as [t| |]; cbn [bind fst];
    try discriminate; try congruence.
  destruct (str_in "fill" (lower t)); [|discriminate].
  destruct (getLayer_scan _ _ i) as [layer|]; [|discriminate].
  unfold py_mod. destruct (F =? 0); discriminate.
Qed.

Lemma mark_loop_ends (s : script) (F : Z) (ixs : list Z) : forall acc,
  mark_loop s F ixs acc <> OutOfFuel.
Proof.
  induction ixs as [|i ixs IH]; intros acc; cbn [mark_loop]; [discriminate|].
  pose proof (infill_cond_ends s F i) as Hc.
  destruct (infill_cond s F i) as [b| |]; cbn [bind]; [|discriminate|congruence].
  destruct b; [|apply IH].
  pose proof (py_index_ends (lines s) i) as Hi.
  destruct (py_index (lines s) i) as [c| |]; cbn [bind];
    [apply IH|discriminate|congruence].
Qed.

Lemma pop_all_ends (pops : list Z) : forall ls, pop_all ls pops <> OutOfFuel.
Proof.
  induction pops as [|i pops IH]; intros ls; cbn [pop_all]; [discriminate|].
  pose proof (py_pop_ends ls i) as Hp.
  destruct (py_pop ls i) as [ls'| |]; cbn [bind]; [apply IH|discriminate|congruence].
Qed.

Lemma keep_from_In {A : Type} (P : Z -> bool) (l : list A) : forall i0 x,
  In x (keep_from P i0 l) -> In x l.
Proof.
  unfold keep_from. induction l as [|a l IH]; intros i0 x H; [contradiction|].
  cbn [enumerate_from filter] in H. cbn [fst] in H.
  destruct (negb (P i0)); cbn [map snd] in H.
  - destruct H as [H|H]; [now left|right; eapply IH; exact H].
  - right. eapply IH; exact H.
Qed.

(** [removeInfill] returns a body taken from the body it was given, with
    the settings untouched, or ends with an error. *)
Lemma removeInfill_ends (s : script) (F : Z) :
  (exists s', removeInfill s F = Ok s' /\
              (forall c, In c (lines s') -> In c (lines s))) \/
  (exists e, removeInfill s F = Raise e).
Proof.
  unfold removeInfill.
  destruct (computeLayerIndices s) as [s1| |] eqn:E1; cbn [bind].
  - destruct (removeInfill_tables s s1 E1) as (Hl & _ & _).
    set (s2 := computeTypeChanges s1) in *.
    pose proof (mark_loop_ends s2 F (py_range (List.length (lines s2))) []) as Hm.
    destruct (mark_loop s2 F (py_range (List.length (lines s2))) []) as [toPop| |] eqn:E2;
      cbn [bind]; try congruence; [|right; eexists; reflexivity].
    apply mark_loop_filter in E2. destruct E2 as [-> _]. cbn [app].
    rewrite pop_all_filter. cbn [bind]. left. eexists. split; [reflexivity|].
    cbn [lines with_lines]. intros c Hc. rewrite <- Hl.
    eapply keep_from_In. exact Hc.
  - right. eexists; reflexivity.
  - exfalso. unfold computeLayerIndices in E1.
    pose proof (py_index_ends (lines s) 0) as Hi. unfold getSlicingEngine in E1.
    destruct (py_index (lines s) 0) as [c0| |]; cbn [bind] in E1;
      try discriminate; try congruence.
    destruct (str_in "PrusaSlicer" (comment c0)); cbn [bind] in E1.
    + discriminate.
    + destruct (any_comment_has "Cura" (lines s)); cbn [bind] in E1; [|discriminate].
      pose proof (py_pop_ends (layer_markers (enumerate (lines s))) 1) as Hp.
      change (String.eqb "Cura" "Cura") with true in E1. cbv iota in E1.
      destruct (py_pop (layer_markers (enumerate (lines s))) 1); cbn [bind] in E1;
        try discriminate; congruence.
Qed.

Lemma axis_args_In (k : string) (ls : list GCodeCommand) (v : value) :
  In v (axis_args k ls) <-> exists c, In c ls /\ param_get c k = Some v.
Proof.
  induction ls as [|c ls IH]; [split; [contradiction|intros (c & [] & _)]|].
  rewrite axis_args_cons. split.
  - intros H. apply in_app_or in H. destruct H as [H|H].
    + exists c. split; [now left|].
      destruct (param_get c k) as [v'|]; [|contradiction].
      destruct H as [->|[]]. reflexivity.
    + apply IH in H. destruct H as (c' & Hc' & Hv). exists c'. split; [now right|exact Hv].
  - intros (c' & [<-|Hc'] & Hv); apply in_or_app.
    + left. rewrite Hv. now left.
    + right. apply IH. now exists c'.
Qed.

Lemma no_numbers_sublist (k : string) (ls ls' : list GCodeCommand) :
  (forall c, In c ls' -> In c ls) ->
  not_str (axis_args k ls) = [] -> not_str (axis_args k ls') = [].
Proof.
  intros Hsub H. unfold not_str in *.
  destruct (filter _ (axis_args k ls')) as [|v l] eqn:E; [reflexivity|].
  assert (Hin : In v (filter (fun v => negb (is_str v)) (axis_args k ls')))
    by (rewrite E; now left).
  apply filter_In in Hin. destruct Hin as [Hin Hv].
  apply axis_args_In in Hin. destruct Hin as (c & Hc & Hg).
  assert (Hin' : In v (filter (fun v => negb (is_str v)) (axis_args k ls))).
  { apply filter_In. split; [|exact Hv]. apply axis_args_In. exists c. split; auto. }
  rewrite H in Hin'. contradiction.
Qed.

Lemma orient_without_numbers (s : script) :
  not_str (axis_args "X" (lines s)) = [] \/ not_str (axis_args "Y" (lines s)) = [] ->
  orient s = Raise MinEmptySequence.
Proof.
  intros H. unfold orient, orient_lines.
  destruct (not_str (axis_args "X" (lines s))) as [|x xs] eqn:EX; [reflexivity|].
  destruct H as [H|H]; [discriminate|].
  destruct (py_min_not_str (axis_args "X" (lines s))) as (m & Hm & _);
    [rewrite EX; discriminate|].
  rewrite EX in Hm. rewrite Hm. cbn [bind]. now rewrite H.
Qed.

(** X28.  A source in which no command carries a numeric X, or none a
    numeric Y, cannot be converted unless [--no-orient] is given: [main]
    ends with an error before it writes anything, and with the
    [ValueError] of [min] when the infill is kept. *)
Theorem main_needs_coordinates (io : float_io) (a : args) (SOURCE : string)
        (printerGcode : script) :
  arg_no_orient a = false ->
  loadFromString io GCodeScriptPrinter SOURCE = Ok printerGcode ->
  not_str (axis_args "X" (lines printerGcode)) = [] \/
  not_str (axis_args "Y" (lines printerGcode)) = [] ->
  exists e, main io a SOURCE = Raise e /\
            (arg_keep_infill a = true -> e = MinEmptySequence).
Proof.
  intros Hno Hload Hxy. unfold main. rewrite Hload. cbn [bind]. cbv zeta.
  rewrite Hno. cbn [negb].
  set (GCodeCNC := with_settings (GCodeScriptCNCFromGCodeScriptPrinter printerGcode) a).
  assert (Hl : lines GCodeCNC = lines printerGcode) by reflexivity.
  destruct (arg_keep_infill a); cbn [negb].
  - cbn [bind]. rewrite orient_without_numbers by (rewrite Hl; exact Hxy).
    exists MinEmptySequence. split; reflexivity.
  - destruct (removeInfill_ends GCodeCNC (arg_infill_frequency a))
      as [(s1 & -> & Hsub)|(e & ->)]; cbn [bind].
    + rewrite orient_without_numbers.
      * exists MinEmptySequence. split; [reflexivity|discriminate].
      * rewrite Hl in Hsub.
        destruct Hxy as [H|H]; [left|right];
          eapply no_numbers_sublist; eassumption.
    + exists e. split; [reflexivity|discriminate].
Qed.

Lemma main_needs_coordinates_witness :
  main (mkFloatIO (fun _ => None) (fun _ => ""))
       (mkArgs 3 200 10 true false (DEFAULT_PREFIX 3 500 10000)
               (DEFAULT_SUFFIX 3 500) 10000 false 500)
       ("; nothing to mill" ++ newline ++ "M104 S200")
  = Raise MinEmptySequence.
Proof.
  destruct (main_needs_coordinates
              (mkFloatIO (fun _ => None) (fun _ => ""))
              (mkArgs 3 200 10 true false (DEFAULT_PREFIX 3 500 10000)
                      (DEFAULT_SUFFIX 3 500) 10000 false 500)
              ("; nothing to mill" ++ newline ++ "M104 S200")
              (with_lines GCodeScriptPrinter
                          [mkCommand "" [] "nothing to mill";
                           mkCommand "M104" [("S", VInt 200)] ""])
              eq_refl eq_refl (or_introl eq_refl)) as (e & He & Hk).
  rewrite He. now rewrite (Hk eq_refl).
Defined.
